(** * BucketManager: quota-enforced bucket and file lifecycle

    A shallow embedding of [src/lib/BucketManager.ts].  The three mongodb
    collections are lists of documents, the remote object store and the
    database driver are an environment that decides, call by call, whether
    the call reports an error, and every call that leaves the process is
    appended to a trace.  Promise chains become functions from a world to
    the way the promise ends and the world it leaves behind. *)

From stdpp Require Import base strings list gmap.
From Stdlib Require Import ZArith Lia Ascii.

Open Scope Z_scope.
Open Scope string_scope.

(** ** JavaScript values that travel through [reject] and [throw] *)

Inductive JsValue : Type :=
| JsError (message : string)       (* new Error(message), or a driver error *)
| JsTypeError (message : string)   (* raised by the runtime itself *)
| JsString (s : string).           (* a bare string handed to reject *)

Definition toString (v : JsValue) : string :=
  match v with
  | JsError m => "Error: " +:+ m
  | JsTypeError m => "TypeError: " +:+ m
  | JsString s => s
  end.

Definition message (v : JsValue) : string :=
  match v with
  | JsError m | JsTypeError m => m
  | JsString _ => "undefined"
  end.

(** [if (v)]: objects are truthy, a string is unless it is empty. *)
Definition js_truthy (v : JsValue) : bool :=
  match v with
  | JsString s => negb (String.eqb s "")
  | _ => true
  end.

(** [new v]: none of the values above is a constructor, so the expression
    throws. *)
Definition js_new (v : JsValue) : JsValue + JsValue :=
  inl (JsTypeError "err is not a constructor").

(** How a promise ends.  [Pending v] is a promise on which neither
    [resolve] nor [reject] is ever called: [v] escaped from a callback as an
    exception, or was a rejection nobody handled. *)
Inductive Promise (A : Type) : Type :=
| Resolved (a : A)
| Rejected (reason : JsValue)
| Pending (unhandled : JsValue).
Arguments Resolved {A} a.
Arguments Rejected {A} reason.
Arguments Pending {A} unhandled.

Definition is_rejected {A} (p : Promise A) : bool :=
  match p with Rejected _ => true | _ => false end.

Definition is_resolved {A} (p : Promise A) : bool :=
  match p with Resolved _ => true | _ => false end.

(** ** Documents *)

Module IStorageStats.
Record t : Type := mk {
  user : string;
  memoryUsed : Z;
  memoryAllocated : Z;
  apiCallsUsed : Z;
  apiCallsAllocated : Z }.

(** [{ $inc: { memoryUsed: dm, apiCallsUsed: dc } }] *)
Definition inc (dm dc : Z) (s : t) : t :=
  mk (user s) (memoryUsed s + dm) (memoryAllocated s)
     (apiCallsUsed s + dc) (apiCallsAllocated s).
End IStorageStats.

Module IBucketEntry.
Record t : Type := mk {
  _id : option nat;
  name : string;
  identifier : string;
  user : string;
  created : Z;
  memoryUsed : Z }.

(** [{ $inc: { memoryUsed: dm } }] *)
Definition inc (dm : Z) (b : t) : t :=
  mk (_id b) (name b) (identifier b) (user b) (created b) (memoryUsed b + dm).
End IBucketEntry.

Module IFileEntry.
Record t : Type := mk {
  _id : option nat;
  name : string;
  user : string;
  identifier : string;
  bucketId : string;
  bucketName : string;
  created : Z;
  numDownloads : Z;
  size : Z;
  isPublic : bool;
  publicURL : string;
  mimeType : option string }.

Definition with_id (i : nat) (f : t) : t :=
  mk (Some i) (name f) (user f) (identifier f) (bucketId f) (bucketName f)
     (created f) (numDownloads f) (size f) (isPublic f) (publicURL f)
     (mimeType f).

(** [{ $set: { name: n } }] *)
Definition set_name (n : string) (f : t) : t :=
  mk (_id f) n (user f) (identifier f) (bucketId f) (bucketName f)
     (created f) (numDownloads f) (size f) (isPublic f) (publicURL f)
     (mimeType f).

(** [{ $set: { isPublic: p } }] *)
Definition set_isPublic (p : bool) (f : t) : t :=
  mk (_id f) (name f) (user f) (identifier f) (bucketId f) (bucketName f)
     (created f) (numDownloads f) (size f) p (publicURL f) (mimeType f).
End IFileEntry.

(** The multipart part handed to an upload: its declared fields and the
    bytes its stream delivers when piped. *)
Module Part.
Record t : Type := mk {
  filename : string;
  headers : gmap string string;
  byteCount : Z;
  stream : list Byte.byte }.
End Part.

(** ** Search queries

    A query is a partial document, possibly with a [$or] list of partial
    documents.  A field that is [None] is absent from the query. *)

Definition field_ok {A} (eqb : A -> A -> bool) (q : option A) (v : A) : bool :=
  match q with
  | None => true
  | Some x => eqb x v
  end.

Definition id_eqb (a b : option nat) : bool :=
  match a, b with
  | Some x, Some y => Nat.eqb x y
  | None, None => true
  | _, _ => false
  end.

Module FileQuery.
Record pattern : Type := mkp {
  _id : option (option nat);
  identifier : option string;
  bucketId : option string;
  bucketName : option string;
  user : option string }.

Definition any : pattern := mkp None None None None None.

Record t : Type := mk { or : option (list pattern); fields : pattern }.

Definition matchp (p : pattern) (f : IFileEntry.t) : bool :=
  field_ok id_eqb (_id p) (IFileEntry._id f)
  && field_ok String.eqb (identifier p) (IFileEntry.identifier f)
  && field_ok String.eqb (bucketId p) (IFileEntry.bucketId f)
  && field_ok String.eqb (bucketName p) (IFileEntry.bucketName f)
  && field_ok String.eqb (user p) (IFileEntry.user f).

Definition matches (q : t) (f : IFileEntry.t) : bool :=
  match or q with
  | None => true
  | Some ps => existsb (fun p => matchp p f) ps
  end && matchp (fields q) f.
End FileQuery.

Module BucketQuery.
Record pattern : Type := mkp {
  _id : option (option nat);
  name : option string;
  identifier : option string;
  user : option string }.

Definition any : pattern := mkp None None None None.

Record t : Type := mk { or : option (list pattern); fields : pattern }.

Definition matchp (p : pattern) (b : IBucketEntry.t) : bool :=
  field_ok id_eqb (_id p) (IBucketEntry._id b)
  && field_ok String.eqb (name p) (IBucketEntry.name b)
  && field_ok String.eqb (identifier p) (IBucketEntry.identifier b)
  && field_ok String.eqb (user p) (IBucketEntry.user b).

Definition matches (q : t) (b : IBucketEntry.t) : bool :=
  match or q with
  | None => true
  | Some ps => existsb (fun p => matchp p b) ps
  end && matchp (fields q) b.
End BucketQuery.

Definition stats_of (u : string) (s : IStorageStats.t) : bool :=
  String.eqb u (IStorageStats.user s).

(** ** Collection operations *)

Section Collection.
Context {A : Type}.

(** [update(query, change)] without [multi]: the first match only, and
    nothing (without an error) when no document matches. *)
Fixpoint update_first (p : A -> bool) (f : A -> A) (l : list A) : list A :=
  match l with
  | [] => []
  | x :: l' => if p x then f x :: l' else x :: update_first p f l'
  end.

(** [remove(query)]: every match. *)
Definition remove_all (p : A -> bool) (l : list A) : list A :=
  List.filter (fun x => negb (p x)) l.
End Collection.

(** ** The outside: calls, their trace, and the environment *)

Inductive Call : Type :=
| stats_findOne_call (user : string)
| stats_update_call (user : string) (inc_memoryUsed inc_apiCallsUsed : Z)
| buckets_findOne_call (q : BucketQuery.pattern)
| buckets_find_call (q : BucketQuery.t)
| buckets_update_call (identifier : string) (inc_memoryUsed : Z)
| buckets_remove_call (_id : option nat)
| files_find_call (q : FileQuery.t)
| files_remove_call (_id : option nat)
| files_save_call (entry : IFileEntry.t)
| files_update_name_call (_id : option nat) (name : string)
| files_update_isPublic_call (bucketId identifier : string) (isPublic : bool)
| cursor_toArray_call
| gcs_file_delete_call (bucket file : string)
| gcs_bucket_delete_call (bucket : string)
| gcs_file_write_call (bucket file : string) (encoded : bool)
                      (payload : list Byte.byte)
| gcs_file_makePublic_call (bucket file : string)
| gcs_file_makePrivate_call (bucket file : string)
| gcs_file_getMetadata_call (bucket file : string)
| gcs_file_createReadStream_call (bucket file : string).

Definition is_remote (c : Call) : bool :=
  match c with
  | gcs_file_delete_call _ _ | gcs_bucket_delete_call _
  | gcs_file_write_call _ _ _ _ | gcs_file_makePublic_call _ _
  | gcs_file_makePrivate_call _ _ | gcs_file_getMetadata_call _ _
  | gcs_file_createReadStream_call _ _ => true
  | _ => false
  end.

(** What an upload's streams announce once they are piped together. *)
Inductive StreamEvent : Type :=
| part_error (msg : string)     (* part.on('error') *)
| stream_error (msg : string)   (* stream.on('error') *)
| complete.                     (* stream.on('complete') *)

(** Object metadata as [getMetadata] hands it over: [meta.metadata] may be
    missing, and so may [meta.metadata.encoded]. *)
Module Meta.
Record t : Type := mk { metadata : option (option bool) }.
End Meta.

(** The environment answers the n-th call of a run. *)
Record Env : Type := mkEnv {
  fault : nat -> option string;       (* the error message, if it fails *)
  upload_event : nat -> StreamEvent;
  object_meta : nat -> Meta.t;
  random_string : nat -> nat -> string;  (* Math.random() based strings *)
  now : nat -> Z }.                   (* Date.now() *)

Record World : Type := mkWorld {
  stats : list IStorageStats.t;
  buckets : list IBucketEntry.t;
  files : list IFileEntry.t;
  next_id : nat;
  trace : list Call }.

Definition log (c : Call) (w : World) : World :=
  mkWorld (stats w) (buckets w) (files w) (next_id w) ((trace w ++ [c])%list).

Definition set_stats (f : list IStorageStats.t -> list IStorageStats.t)
    (w : World) : World :=
  mkWorld (f (stats w)) (buckets w) (files w) (next_id w) (trace w).

Definition set_buckets (f : list IBucketEntry.t -> list IBucketEntry.t)
    (w : World) : World :=
  mkWorld (stats w) (f (buckets w)) (files w) (next_id w) (trace w).

Definition set_files (f : list IFileEntry.t -> list IFileEntry.t)
    (w : World) : World :=
  mkWorld (stats w) (buckets w) (f (files w)) (next_id w) (trace w).

Definition bump_id (w : World) : World :=
  mkWorld (stats w) (buckets w) (files w) (S (next_id w)) (trace w).

(** The position the next call takes in the run. *)
Definition tick (w : World) : nat := List.length (trace w).

(** A promise under construction: from the world it starts in to how it
    ends and the world it leaves. *)
Definition M (A : Type) : Type := World -> Promise A * World.

Definition resolve {A} (a : A) : M A := fun w => (Resolved a, w).
Definition reject {A} (v : JsValue) : M A := fun w => (Rejected v, w).
Definition throw {A} (v : JsValue) : M A := fun w => (Pending v, w).

(** [p.then(on_resolve).catch(on_reject)], for handlers that settle the
    enclosing promise themselves.  A promise that stays pending runs
    neither handler. *)
Definition then_catch {A B} (p : M A) (on_resolve : A -> M B)
    (on_reject : JsValue -> M B) : M B :=
  fun w =>
    match p w with
    | (Resolved a, w') => on_resolve a w'
    | (Rejected e, w') => on_reject e w'
    | (Pending e, w') => (Pending e, w')
    end.

(** [p.then(on_resolve)] with no [catch]: a rejection is handled by nobody
    and the enclosing promise is never settled. *)
Definition then_only {A B} (p : M A) (on_resolve : A -> M B) : M B :=
  then_catch p on_resolve throw.

(** JavaScript truthiness of an optional string. *)
Definition truthy (s : option string) : bool :=
  match s with
  | Some s' => negb (String.eqb s' "")
  | None => false
  end.

Section Driver.
Variable env : Env.
Context {A : Type}.

(** One call with a node-style callback [function (err) { ... }]. *)
Definition invoke (c : Call) (k : option JsValue -> M A) : M A :=
  fun w => k (JsError <$> fault env (tick w)) (log c w).

(** A call whose effect [eff] takes place when it reports no error. *)
Definition invoke_eff (c : Call) (eff : World -> World)
    (k : option JsValue -> M A) : M A :=
  invoke c (fun err w =>
    match err with
    | Some _ => k err w
    | None => k None (eff w)
    end).

(** A call with a callback [function (err, result) { ... }]: the callback
    sees either the error (and no result) or the result [get] reads. *)
Definition invoke_get {R} (c : Call) (get : World -> R)
    (k : JsValue + R -> M A) : M A :=
  invoke c (fun err w =>
    match err with
    | Some e => k (inl e) w
    | None => k (inr (get w)) w
    end).

Definition stats_findOne (user : string)
    (k : JsValue + option IStorageStats.t -> M A) : M A :=
  invoke_get (stats_findOne_call user)
    (fun w => List.find (stats_of user) (stats w)) k.

Definition stats_update (user : string) (dm dc : Z)
    (k : option JsValue -> M A) : M A :=
  invoke_eff (stats_update_call user dm dc)
    (set_stats (update_first (stats_of user) (IStorageStats.inc dm dc))) k.

Definition buckets_findOne (q : BucketQuery.pattern)
    (k : JsValue + option IBucketEntry.t -> M A) : M A :=
  invoke_get (buckets_findOne_call q)
    (fun w => List.find (BucketQuery.matchp q) (buckets w)) k.

(** [find] hands back a cursor, here the query it will run. *)
Definition buckets_find (q : BucketQuery.t)
    (k : JsValue + BucketQuery.t -> M A) : M A :=
  invoke_get (buckets_find_call q) (fun _ => q) k.

Definition buckets_toArray (cursor : BucketQuery.t)
    (k : JsValue + list IBucketEntry.t -> M A) : M A :=
  invoke_get cursor_toArray_call
    (fun w => List.filter (BucketQuery.matches cursor) (buckets w)) k.

Definition buckets_update (identifier : string) (dm : Z)
    (k : option JsValue -> M A) : M A :=
  invoke_eff (buckets_update_call identifier dm)
    (set_buckets
       (update_first
          (fun b => String.eqb identifier (IBucketEntry.identifier b))
          (IBucketEntry.inc dm))) k.

Definition buckets_remove (_id : option nat)
    (k : option JsValue -> M A) : M A :=
  invoke_eff (buckets_remove_call _id)
    (set_buckets (remove_all (fun b => id_eqb _id (IBucketEntry._id b)))) k.

Definition files_find (q : FileQuery.t)
    (k : JsValue + FileQuery.t -> M A) : M A :=
  invoke_get (files_find_call q) (fun _ => q) k.

Definition files_toArray (cursor : FileQuery.t)
    (k : JsValue + list IFileEntry.t -> M A) : M A :=
  invoke_get cursor_toArray_call
    (fun w => List.filter (FileQuery.matches cursor) (files w)) k.

Definition files_remove (_id : option nat)
    (k : option JsValue -> M A) : M A :=
  invoke_eff (files_remove_call _id)
    (set_files (remove_all (fun f => id_eqb _id (IFileEntry._id f)))) k.

(** [save] of a document without [_id] inserts it under a fresh one;
    [result.ops[0]] is the document as stored. *)
Definition files_save (entry : IFileEntry.t)
    (k : JsValue + IFileEntry.t -> M A) : M A :=
  invoke (files_save_call entry) (fun err w =>
    match err with
    | Some e => k (inl e) w
    | None =>
        let stored := IFileEntry.with_id (next_id w) entry in
        k (inr stored) (bump_id (set_files (fun l => (l ++ [stored])%list) w))
    end).

Definition files_update_name (_id : option nat) (name : string)
    (k : option JsValue -> M A) : M A :=
  invoke_eff (files_update_name_call _id name)
    (set_files
       (update_first (fun f => id_eqb _id (IFileEntry._id f))
                     (IFileEntry.set_name name))) k.

Definition files_update_isPublic (bucketId identifier : string)
    (p : bool) (k : option JsValue -> M A) : M A :=
  invoke_eff (files_update_isPublic_call bucketId identifier p)
    (set_files
       (update_first
          (fun f => String.eqb bucketId (IFileEntry.bucketId f)
                    && String.eqb identifier (IFileEntry.identifier f))
          (IFileEntry.set_isPublic p))) k.

(** [part.pipe(...).pipe(rawFile.createWriteStream(...))]: the bytes of
    the part leave for the bucket, through the zipper when [encoded];
    the environment says which event the streams raise. *)
Definition pipe_to_bucket (bucket file : string) (encoded : bool)
    (payload : list Byte.byte) (k : StreamEvent -> M A) : M A :=
  fun w =>
    k (upload_event env (tick w))
      (log (gcs_file_write_call bucket file encoded payload) w).
End Driver.

(** ** String helpers of the runtime *)

Definition is_word_char (c : ascii) : bool :=
  let n := nat_of_ascii c in
  ((48 <=? n) && (n <=? 57) || (65 <=? n) && (n <=? 90)
   || (97 <=? n) && (n <=? 122) || (n =? 95))%nat.

(** The rest of [s] after the prefix [p], when [s] starts with [p]. *)
Fixpoint strip_prefix (p s : string) : option string :=
  match p, s with
  | EmptyString, _ => Some s
  | String a p', String b s' =>
      if Ascii.eqb a b then strip_prefix p' s' else None
  | String _ _, EmptyString => None
  end.

Definition at_word_end (rest : string) : bool :=
  match rest with
  | EmptyString => true
  | String c _ => negb (is_word_char c)
  end.

(** [s.match(/\bword\b/)] for a [word] made of word characters: some
    occurrence of [word] in [s] has no word character right before it and
    none right after it.  [prev] tells whether the character before the
    current position is a word character. *)
Fixpoint search_word (word : string) (prev : bool) (s : string) : bool :=
  match s with
  | EmptyString => false
  | String c s' =>
      (negb prev
       && match strip_prefix word s with
          | Some rest => at_word_end rest
          | None => false
          end)
      || search_word word (is_word_char c) s'
  end.

Definition match_word (word s : string) : bool := search_word word false s.

(** A string is held as the bytes of its UTF-8 encoding, as a string
    literal of this file is. *)
Definition utf8 (bytes : list nat) : string :=
  String.string_of_list_ascii (List.map ascii_of_nat bytes).

(** The characters [String.prototype.trim] strips: the WhiteSpace and the
    LineTerminator code points of ECMAScript, that is TAB, LF, VT, FF, CR,
    SP, NBSP, the space separators of Unicode (U+180E, which is no longer
    one, left out), LS, PS and the byte order mark. *)
Definition white_space : list string :=
  Eval cbv in
  [ utf8 [9]%nat;                 (* U+0009 *)
    utf8 [10]%nat;                (* U+000A *)
    utf8 [11]%nat;                (* U+000B *)
    utf8 [12]%nat;                (* U+000C *)
    utf8 [13]%nat;                (* U+000D *)
    utf8 [32]%nat;                (* U+0020 *)
    utf8 [194; 160]%nat;          (* U+00A0 *)
    utf8 [225; 154; 128]%nat;     (* U+1680 *)
    utf8 [226; 128; 128]%nat;     (* U+2000 *)
    utf8 [226; 128; 129]%nat;     (* U+2001 *)
    utf8 [226; 128; 130]%nat;     (* U+2002 *)
    utf8 [226; 128; 131]%nat;     (* U+2003 *)
    utf8 [226; 128; 132]%nat;     (* U+2004 *)
    utf8 [226; 128; 133]%nat;     (* U+2005 *)
    utf8 [226; 128; 134]%nat;     (* U+2006 *)
    utf8 [226; 128; 135]%nat;     (* U+2007 *)
    utf8 [226; 128; 136]%nat;     (* U+2008 *)
    utf8 [226; 128; 137]%nat;     (* U+2009 *)
    utf8 [226; 128; 138]%nat;     (* U+200A *)
    utf8 [226; 128; 168]%nat;     (* U+2028 *)
    utf8 [226; 128; 169]%nat;     (* U+2029 *)
    utf8 [226; 128; 175]%nat;     (* U+202F *)
    utf8 [226; 129; 159]%nat;     (* U+205F *)
    utf8 [227; 128; 128]%nat;     (* U+3000 *)
    utf8 [239; 187; 191]%nat ].   (* U+FEFF *)

(** The rest of [s] after the first of [ws] it starts with. *)
Fixpoint strip_any (ws : list string) (s : string) : option string :=
  match ws with
  | [] => None
  | w :: ws' =>
      match strip_prefix w s with
      | Some rest => Some rest
      | None => strip_any ws' s
      end
  end.

(** Leading white space goes, one character at a time; [n] bounds the
    number of characters looked at, and the length of the string is
    enough. *)
Fixpoint trim_start_upto (n : nat) (s : string) : string :=
  match n with
  | O => s
  | S n' =>
      match strip_any white_space s with
      | Some rest => trim_start_upto n' rest
      | None => s
      end
  end.

Definition trim_start (s : string) : string :=
  trim_start_upto (String.length s) s.

(** Trailing white space goes: what is kept of [c :: s'] is [c] and what
    is kept of [s'], unless that is one white-space character. *)
Fixpoint trim_end (s : string) : string :=
  match s with
  | EmptyString => EmptyString
  | String c s' =>
      let kept := String c (trim_end s') in
      if existsb (String.eqb kept) white_space then EmptyString else kept
  end.

(** [s.trim()]. *)
Definition trim (s : string) : string := trim_end (trim_start s).

(** ** The response a download writes to *)

Module Request.
Record t : Type := mk { headers : gmap string string }.
End Request.

(** The transform streams the manager owns. *)
Inductive Stage : Type :=
| _unzipper      (* zlib.createGunzip() *)
| _deflater.     (* zlib.createDeflate() *)

Inductive Body : Type :=
| unwritten
| sent (text : string)               (* response.send(text) *)
| piped (stages : list Stage).       (* stream.pipe(..).pipe(response) *)

Module Response.
Record t : Type := mk {
  statusCode : nat;
  headers : gmap string string;
  body : Body }.

Definition status (code : nat) (r : t) : t := mk code (headers r) (body r).
Definition setHeader (k v : string) (r : t) : t :=
  mk (statusCode r) (<[k := v]> (headers r)) (body r).
Definition send (text : string) (r : t) : t :=
  mk (statusCode r) (headers r) (sent text).
Definition pipe (stages : list Stage) (r : t) : t :=
  mk (statusCode r) (headers r) (piped stages).
End Response.

(** ** BucketManager *)

(** The messages of the three quota rejections. *)
Definition memory_quota_error : JsValue :=
  JsError "You do not have enough memory allocated. Please upgrade your account for more memory".

Definition api_quota_error : JsValue :=
  JsError "You have reached your API call limit. Please upgrade your plan for more API calls".

Definition api_limit_error : JsValue :=
  JsError "You do not have enough API calls left to make this request".

Section BucketManager.
Variable env : Env.
(** The [compressible] package, applied to a content type that may be
    missing. *)
Variable compressible : option string -> bool.

Definition getIBucket (bucket : string) (user : option string)
    : M (option IBucketEntry.t) :=
  let searchQuery :=
    if truthy user
    then BucketQuery.mkp None (Some bucket) None user
    else BucketQuery.mkp None None (Some bucket) None in
  buckets_findOne env searchQuery (fun reply =>
    match reply with
    | inl err => reject err
    | inr None => resolve None
    | inr (Some result) => resolve (Some result)
    end).

Definition deleteFile (fileEntry : IFileEntry.t) : M IFileEntry.t :=
  let failed (err : JsValue) : string :=
    "Could not remove file '" +:+ IFileEntry.identifier fileEntry
    +:+ "' from storage system: '" +:+ toString err +:+ "'" in
  then_catch (getIBucket (IFileEntry.bucketId fileEntry) None)
    (fun found =>
       match found with
       | None =>
           reject (JsError ("Could not find the bucket '"
                            +:+ IFileEntry.bucketName fileEntry +:+ "'"))
       | Some bucketEntry =>
           (* Get the bucket and delete the file *)
           invoke env
             (gcs_file_delete_call (IBucketEntry.identifier bucketEntry)
                                   (IFileEntry.identifier fileEntry))
             (fun err =>
              match err with
              | Some err => reject (JsError (failed err))
              | None =>
              (* Update the bucket data usage *)
              buckets_update env (IBucketEntry.identifier bucketEntry)
                (- IFileEntry.size fileEntry)
                (fun err =>
                 match err with
                 | Some err => reject (JsString (failed err))
                 | None =>
                 (* Remove the file entries *)
                 files_remove env (IFileEntry._id fileEntry)
                   (fun err =>
                    match err with
                    | Some err => reject (JsString (failed err))
                    | None =>
                    (* Update the stats usage *)
                    stats_update env (IBucketEntry.user bucketEntry)
                      (- IFileEntry.size fileEntry) 1
                      (fun err =>
                       match err with
                       | Some err => reject (JsString (failed err))
                       | None => resolve fileEntry
                       end)
                    end)
                 end)
              end)
       end)
    (fun err => if js_truthy err then reject err else throw err).

(** The [for] loop of [removeFiles] and of [removeBuckets]: one deletion
    per entry, each counted in [attempts] whether it resolves or rejects,
    the identifier pushed only when it resolves; the batch resolves when
    the count reaches the number of entries.  The deletions are run to
    completion one after the other, in cursor order.  A deletion that
    never settles is never counted, so the batch never settles. *)
Fixpoint settle_each {E} (delete : E -> M E) (ident : E -> string)
    (entries : list E) (removed : list string) : M (list string) :=
  match entries with
  | [] => resolve removed
  | e :: rest =>
      fun w =>
        match delete e w with
        | (Resolved x, w') =>
            settle_each delete ident rest (removed ++ [ident x])%list w'
        | (Rejected _, w') => settle_each delete ident rest removed w'
        | (Pending v, w') =>
            (Pending v, snd (settle_each delete ident rest removed w'))
        end
  end.

Definition removeFiles (searchQuery : FileQuery.t) : M (list string) :=
  files_find env searchQuery (fun reply =>
    match reply with
    | inl err => reject err
    | inr cursor =>
        files_toArray env cursor (fun reply =>
          match reply with
          | inl _ =>
              (* err is not looked at; fileEntries.length throws *)
              throw (JsTypeError "Cannot read property 'length' of undefined")
          | inr fileEntries =>
              match fileEntries with
              | [] => resolve []
              | _ => settle_each deleteFile IFileEntry.identifier
                                 fileEntries []
              end
          end)
    end).

(** The result of the two [...ById]/[...ByName] entry points is [None]
    when the promise is resolved with [undefined]. *)
Definition removeFilesById (fileIDs : list string) (user : option string)
    : M (option (list string)) :=
  match fileIDs with
  | [] => resolve None      (* return Promise.resolve(); *)
  | _ =>
      let or :=
        List.map (fun id => FileQuery.mkp None (Some id) None None None)
                 fileIDs in
      let searchQuery :=
        FileQuery.mk (Some or)
          (if truthy user
           then FileQuery.mkp None None None None user
           else FileQuery.any) in
      then_catch (removeFiles searchQuery)
        (fun ids => resolve (Some ids)) reject
  end.

Definition removeFilesByBucket (bucket : string) : M (list string) :=
  if String.eqb bucket "" || String.eqb (trim bucket) ""
  then reject (JsError "Please specify a valid bucket")
  else
    removeFiles
      (FileQuery.mk
         (Some [FileQuery.mkp None None (Some bucket) None None;
                FileQuery.mkp None None None (Some bucket) None])
         FileQuery.any).

Definition deleteBucket (bucketEntry : IBucketEntry.t)
    : M IBucketEntry.t :=
  then_catch (removeFilesByBucket (IBucketEntry.identifier bucketEntry))
    (fun _ =>
       invoke env
         (gcs_bucket_delete_call (IBucketEntry.identifier bucketEntry))
         (fun err =>
          match err with
          | Some err =>
              reject (JsError
                ("Could not remove bucket from storage system: '"
                 +:+ message err +:+ "'"))
          | None =>
              (* Remove the bucket entry *)
              buckets_remove env (IBucketEntry._id bucketEntry)
                (fun _ =>
                 stats_update env (IBucketEntry.user bucketEntry) 0 1
                   (fun _ => resolve bucketEntry))
          end))
    (fun err =>
       reject (JsString ("Could not remove the bucket: '"
                         +:+ toString err +:+ "'"))).

Definition removeBuckets (searchQuery : BucketQuery.t) : M (list string) :=
  buckets_find env searchQuery (fun reply =>
    match reply with
    | inl err => reject err
    | inr cursor =>
        buckets_toArray env cursor (fun reply =>
          match reply with
          | inl err => reject err
          | inr buckets =>
              match buckets with
              | [] => resolve []
              | _ => settle_each deleteBucket IBucketEntry.identifier
                                 buckets []
              end
          end)
    end).

Definition removeBucketsByName (buckets : list string) (user : string)
    : M (option (list string)) :=
  match buckets with
  | [] => resolve None      (* return Promise.resolve(); *)
  | _ =>
      let or :=
        List.map (fun n => BucketQuery.mkp None (Some n) None None)
                 buckets in
      let searchQuery :=
        BucketQuery.mk (Some or) (BucketQuery.mkp None None None (Some user)) in
      then_catch (removeBuckets searchQuery)
        (fun ids => resolve (Some ids)) reject
  end.

Definition removeBucketsByUser (user : string) : M (list string) :=
  removeBuckets
    (BucketQuery.mk None (BucketQuery.mkp None None None (Some user))).

Definition canUpload (user : string) (part : Part.t)
    : M IStorageStats.t :=
  stats_findOne env user (fun reply =>
    match reply with
    | inl err => reject err
    | inr None =>
        (* result.memoryUsed with result === null *)
        throw (JsTypeError "Cannot read property 'memoryUsed' of null")
    | inr (Some result) =>
        if (IStorageStats.memoryUsed result + Part.byteCount part
            <? IStorageStats.memoryAllocated result)%Z
        then
          if (IStorageStats.apiCallsUsed result + 1
              <? IStorageStats.apiCallsAllocated result)%Z
          then resolve result
          else reject api_quota_error
        else reject memory_quota_error
    end).

Definition withinAPILimit (user : string) : M bool :=
  stats_findOne env user (fun reply =>
    match reply with
    | inl err => reject err
    | inr None => reject (JsError ("Could not find the user " +:+ user))
    | inr (Some result) =>
        if (IStorageStats.apiCallsUsed result + 1
            <? IStorageStats.apiCallsAllocated result)%Z
        then resolve true
        else resolve false
    end).

Definition incrementAPI (user : string) : M bool :=
  stats_update env user 0 1 (fun err =>
    match err with
    | Some err => reject err
    | None => resolve true
    end).

(** The handler both visibility changes install:
    [catch(function (err) { return reject(new err); })].  Evaluating
    [new err] comes first; when it throws, [reject] is not reached. *)
Definition reject_new {A} (err : JsValue) : M A :=
  match js_new err with
  | inl thrown => throw thrown
  | inr made => reject made
  end.

(** [makeFilePublic] and [makeFilePrivate] differ in the remote call and
    in the flag they store. *)
Definition change_visibility (remote : Call) (flag : bool)
    (file : IFileEntry.t) : M IFileEntry.t :=
  then_catch (withinAPILimit (IFileEntry.user file))
    (fun val =>
       then_catch
         (if negb val
          then reject api_limit_error
          else incrementAPI (IFileEntry.user file))
         (fun _ =>
            invoke env remote (fun err =>
              match err with
              | Some err => reject err
              | None =>
                  files_update_isPublic env (IFileEntry.bucketId file)
                    (IFileEntry.identifier file) flag
                    (fun err =>
                     match err with
                     | Some err => reject err
                     | None => resolve file
                     end)
              end))
         reject_new)
    reject_new.

Definition makeFilePublic (file : IFileEntry.t) : M IFileEntry.t :=
  change_visibility
    (gcs_file_makePublic_call (IFileEntry.bucketId file)
                              (IFileEntry.identifier file))
    true file.

Definition makeFilePrivate (file : IFileEntry.t) : M IFileEntry.t :=
  change_visibility
    (gcs_file_makePrivate_call (IFileEntry.bucketId file)
                               (IFileEntry.identifier file))
    false file.

Definition registerFile (fileID : string) (bucket : IBucketEntry.t)
    (part : Part.t) (user : string) (isPublic : bool) : M IFileEntry.t :=
  fun w =>
    let entry :=
      IFileEntry.mk None (Part.filename part) user fileID
        (IBucketEntry.identifier bucket) (IBucketEntry.name bucket)
        (now env (tick w)) 0 (Part.byteCount part) isPublic
        ("https://storage.googleapis.com/"
         +:+ IBucketEntry.identifier bucket +:+ "/" +:+ fileID)
        (Part.headers part !! "content-type") in
    files_save env entry (fun reply =>
      match reply with
      | inl err =>
          reject (JsError ("Could not save user file entry: "
                           +:+ toString err))
      | inr stored => resolve stored
      end) w.

Definition generateRandString (len : nat) (w : World) : string :=
  random_string env (tick w) len.

Definition uploadStream (part : Part.t) (bucketEntry : IBucketEntry.t)
    (user : string) (makePublic : bool) : M IFileEntry.t :=
  then_catch (canUpload user part)
    (fun storageStats w =>
       let bucket := IBucketEntry.identifier bucketEntry in
       let fileID := generateRandString 16 w in
       pipe_to_bucket env bucket fileID
         (compressible (Part.headers part !! "content-type"))
         (Part.stream part)
         (fun event =>
          match event with
          | part_error msg =>
              (* Delete the file on the bucket *)
              invoke env (gcs_file_delete_call bucket fileID)
                (fun bucketErr =>
                 match bucketErr with
                 | Some bucketErr =>
                     reject (JsError
                       ("While uploading a user part an error occurred while cleaning the bucket: "
                        +:+ toString bucketErr))
                 | None =>
                     reject (JsError ("Could not upload a user part: "
                                      +:+ toString (JsError msg)))
                 end)
          | stream_error msg =>
              reject (JsError
                ("Could not upload the file '" +:+ Part.filename part
                 +:+ "' to bucket: " +:+ toString (JsError msg)))
          | complete =>
              buckets_update env bucket (Part.byteCount part) (fun _ =>
                stats_update env user (Part.byteCount part) 1 (fun _ =>
                  then_catch
                    (registerFile fileID bucketEntry part user makePublic)
                    (fun file =>
                       if makePublic
                       then
                         invoke env (gcs_file_makePublic_call bucket fileID)
                           (fun err =>
                            match err with
                            | Some err => reject err
                            | None => resolve file
                            end)
                       else resolve file)
                    reject))
          end) w)
    reject.

Definition renameFile (file : IFileEntry.t) (name : string)
    : M IFileEntry.t :=
  then_only (incrementAPI (IFileEntry.user file))
    (fun _ =>
       files_update_name env (IFileEntry._id file) name (fun err =>
         match err with
         | Some err => reject err
         | None => resolve file
         end)).

(** [downloadFile] returns nothing; what it does is what it writes to
    the response. *)
Definition downloadFile (request : Request.t) (response : Response.t)
    (file : IFileEntry.t) (w : World) : Response.t * World :=
  let bucket := IFileEntry.bucketId file in
  let key := IFileEntry.identifier file in
  let w1 := log (gcs_file_getMetadata_call bucket key) w in
  match fault env (tick w) with
  | Some msg =>
      (Response.send (toString (JsError msg)) (Response.status 500 response),
       w1)
  | None =>
      let meta := object_meta env (tick w) in
      (* Get the client encoding support - if any *)
      let acceptEncoding :=
        match Request.headers request !! "accept-encoding" with
        | Some v => if String.eqb v "" then "" else v
        | None => ""
        end in
      let w2 := log (gcs_file_createReadStream_call bucket key) w1 in
      let encoded :=
        match Meta.metadata meta with
        | Some (Some b) => b
        | _ => false
        end in
      if match_word "gzip" acceptEncoding then
        if encoded
        then (Response.pipe []
                (Response.setHeader "content-encoding" "gzip" response), w2)
        else (Response.pipe [] response, w2)
      else if match_word "deflate" acceptEncoding then
        let response' :=
          Response.setHeader "content-encoding" "deflate" response in
        if encoded
        then (Response.pipe [_unzipper; _deflater] response', w2)
        else (Response.pipe [_deflater] response', w2)
      else
        if encoded
        then (Response.pipe [_unzipper] response, w2)
        else (Response.pipe [] response, w2)
  end.
End BucketManager.

(** ** BucketManager: lookups outside the upload and deletion paths *)

Section Lookups.
Variable env : Env.

Definition getUserStats (user : string) : M IStorageStats.t :=
  stats_findOne env user (fun reply =>
    match reply with
    | inl err => reject err
    | inr None =>
        reject (JsError ("Could not find storage data for the user '"
                         +:+ user +:+ "'"))
    | inr (Some result) => resolve result
    end).

Definition getBucketEntries (user : option string)
    : M (list IBucketEntry.t) :=
  let search :=
    if truthy user
    then BucketQuery.mkp None None None user
    else BucketQuery.any in
  buckets_find env (BucketQuery.mk None search) (fun reply =>
    match reply with
    | inl err => reject err
    | inr result =>
        buckets_toArray env result (fun reply =>
          match reply with
          | inl err => reject err
          | inr buckets => resolve buckets
          end)
    end).
End Lookups.

(** ** BucketManager: creation and the remaining collection calls

    These functions issue calls the trace above has no name for.  They run
    in a world that carries the world above and, beside it, the further
    calls made, each with the number of calls of the first kind made before
    it; a second oracle answers them, numbered among themselves. *)

Inductive XCall : Type :=
| stats_save_call (s : IStorageStats.t)
| stats_remove_call (user : string)
| buckets_save_call (entry : IBucketEntry.t)
| files_findOne_call (q : FileQuery.pattern)
| gcs_createBucket_call (bucket : string) (location : string).

Record XEnv : Type := mkXEnv { xfault : nat -> option string }.

Record XWorld : Type := mkXWorld {
  core : World;
  xtrace : list (nat * XCall) }.

Definition XM (A : Type) : Type := XWorld -> Promise A * XWorld.

(** A promise of the first kind, run on the world inside. *)
Definition lift {A} (m : M A) : XM A :=
  fun xw => (fst (m (core xw)), mkXWorld (snd (m (core xw))) (xtrace xw)).

Definition xresolve {A} (a : A) : XM A := fun xw => (Resolved a, xw).
Definition xreject {A} (v : JsValue) : XM A := fun xw => (Rejected v, xw).

(** [p.then(on_resolve).catch(on_reject)], as [then_catch]. *)
Definition xthen_catch {A B} (p : XM A) (on_resolve : A -> XM B)
    (on_reject : JsValue -> XM B) : XM B :=
  fun xw =>
    match p xw with
    | (Resolved a, xw') => on_resolve a xw'
    | (Rejected e, xw') => on_reject e xw'
    | (Pending e, xw') => (Pending e, xw')
    end.

Definition xlog (c : XCall) (xw : XWorld) : XWorld :=
  mkXWorld (core xw) (xtrace xw ++ [(tick (core xw), c)])%list.

Definition on_core (f : World -> World) (xw : XWorld) : XWorld :=
  mkXWorld (f (core xw)) (xtrace xw).

(** [s.toLowerCase()], on the letters of ASCII. *)
Definition lower_char (c : ascii) : ascii :=
  let n := nat_of_ascii c in
  if ((65 <=? n) && (n <=? 90))%nat then ascii_of_nat (n + 32) else c.

Fixpoint toLowerCase (s : string) : string :=
  match s with
  | EmptyString => EmptyString
  | String c s' => String (lower_char c) (toLowerCase s')
  end.

Section Creation.
Variable env : Env.
Variable xenv : XEnv.

Definition xinvoke {A} (c : XCall) (k : option JsValue -> XM A) : XM A :=
  fun xw =>
    k (JsError <$> xfault xenv (List.length (xtrace xw))) (xlog c xw).

Definition MEMORY_ALLOCATED : Z := 500000000.
Definition API_CALLS_ALLOCATED : Z := 20000.

(** [save] of a fresh document inserts it; the stats documents carry no
    [_id] in this model. *)
Definition createUserStats (user : string) : XM IStorageStats.t :=
  let storage :=
    IStorageStats.mk user 0 MEMORY_ALLOCATED 0 API_CALLS_ALLOCATED in
  xinvoke (stats_save_call storage) (fun err =>
    match err with
    | Some err => xreject err
    | None =>
        fun xw =>
          xresolve storage
            (on_core (set_stats (fun l => (l ++ [storage])%list)) xw)
    end).

(** The promised number of stats removed is the number of matches. *)
Definition removeUserStats (user : string) : XM nat :=
  xinvoke (stats_remove_call user) (fun err =>
    match err with
    | Some err => xreject err
    | None =>
        fun xw =>
          xresolve
            (List.length (List.filter (stats_of user) (stats (core xw))))
            (on_core (set_stats (remove_all (stats_of user))) xw)
    end).

(** [Promise.all] of the stats removal and of the bucket removal.  The
    two are run one after the other, the stats removal first; the
    combined promise resolves (with [undefined]) when both do, rejects
    when one does, and is otherwise never settled. *)
Definition removeUser (user : string) : XM unit :=
  fun xw =>
    let first := removeUserStats user xw in
    let second := lift (removeBucketsByUser env user) (snd first) in
    (match fst first, fst second with
     | Rejected err, _ => Rejected err
     | _, Rejected err => Rejected err
     | Resolved _, Resolved _ => Resolved tt
     | Pending v, _ => Pending v
     | _, Pending v => Pending v
     end, snd second).

(** The promise carries the handle of the remote bucket, here its name. *)
Definition createBucket (name : string) (user : string) : XM string :=
  fun xw =>
    let bucketID :=
      "webinate-bucket-"
      +:+ toLowerCase (generateRandString env 8 (core xw)) in
    xthen_catch (lift (getIBucket env name (Some user)))
      (fun bucket =>
         match bucket with
         | Some _ =>
             xreject (JsError ("A Bucket with the name '" +:+ name
                               +:+ "' has already been registered"))
         | None =>
             (* Attempt to create a new Google bucket *)
             xinvoke (gcs_createBucket_call bucketID "EU") (fun err =>
               match err with
               | Some err =>
                   xreject (JsError
                     ("Could not connect to storage system: '"
                      +:+ message err +:+ "'"))
               | None =>
                   fun xw1 =>
                     let newEntry :=
                       IBucketEntry.mk None name bucketID user
                         (now env (tick (core xw1))) 0 in
                     (* Save the new entry into the database *)
                     xinvoke (buckets_save_call newEntry) (fun err =>
                       match err with
                       | Some err => xreject err
                       | None =>
                           fun xw2 =>
                             let stored :=
                               IBucketEntry.mk (Some (next_id (core xw2)))
                                 name bucketID user
                                 (IBucketEntry.created newEntry) 0 in
                             (* Increments the API calls *)
                             lift (stats_update env user 0 1
                                     (fun _ => resolve bucketID))
                               (on_core
                                  (fun w =>
                                     bump_id
                                       (set_buckets
                                          (fun l => (l ++ [stored])%list) w))
                                  xw2)
                       end) xw1
               end)
         end)
      xreject xw.

Definition getFile (fileID : string) (user : option string)
    : XM IFileEntry.t :=
  let searchQuery :=
    FileQuery.mkp None (Some fileID) None None
      (if truthy user then user else None) in
  xinvoke (files_findOne_call searchQuery) (fun err xw =>
    match err with
    | Some err => xreject err xw
    | None =>
        match List.find (FileQuery.matchp searchQuery) (files (core xw)) with
        | None =>
            xreject (JsString ("File '" +:+ fileID +:+ "' does not exist")) xw
        | Some result => xresolve result xw
        end
    end).
End Creation.

(** ** GMailer

    The mailer of the repository: how it builds the raw message and what
    it asks of the Gmail API.  The API answers through an oracle of its
    own; [base64] stands for [new Buffer(str).toString("base64")]. *)

Module GMailer.
Inductive ApiCall : Type :=
| messages_insert (raw : string)
| messages_modify (id : string) (addLabelIds : list string).

Record Api : Type := mkApi {
  api_fault : nat -> option string;   (* the error of the n-th call *)
  response_id : nat -> string }.      (* response.id of the n-th call *)

(** The fields of the mailer [sendMail] reads. *)
Record t : Type := mk { _debugMode : bool; _apiEmail : string }.

Definition Sent (A : Type) : Type := list ApiCall -> Promise A * list ApiCall.

(** [s.replace(/c/g, d)] for a single character [c]. *)
Fixpoint replace_char (c d : ascii) (s : string) : string :=
  match s with
  | EmptyString => EmptyString
  | String x s' =>
      String (if Ascii.eqb x c then d else x) (replace_char c d s')
  end.

Definition CRLF : string := String "013" (String "010" "").

(** [s] between two double quotes. *)
Definition quoted (s : string) : string :=
  String (ascii_of_nat 34) s +:+ String (ascii_of_nat 34) "".

Section Mailer.
Variable base64 : string -> string.
Variable api : Api.

Definition buildMessage (to from subject message : string) : string :=
  let str :=
    String.concat ""
      [ "Content-Type: text/plain; charset=" +:+ quoted "UTF-8" +:+ CRLF;
        "MIME-Version: 1.0" +:+ CRLF;
        "Content-Transfer-Encoding: 7bit" +:+ CRLF;
        "to: "; to; CRLF;
        "from: "; from; CRLF;
        "subject: "; subject; CRLF +:+ CRLF;
        message ] in
  (* Encode the mail into base 64 *)
  replace_char "/" "_" (replace_char "+" "-" (base64 str)).

Definition sendMail (that : t) (to from subject msg : string) : Sent bool :=
  fun calls =>
    (* Build the message string *)
    let message := buildMessage to from subject msg in
    if _debugMode that then (Resolved true, calls)
    else
      (* Send the message *)
      let n := List.length calls in
      let calls1 := (calls ++ [messages_insert message])%list in
      match api_fault api n with
      | Some err => (Rejected (JsError err), calls1)
      | None =>
          if negb (String.eqb (_apiEmail that) to)
          then (Resolved true, calls1)
          else
            let calls2 :=
              (calls1 ++ [messages_modify (response_id api n)
                            ["UNREAD"; "INBOX"; "IMPORTANT"]])%list in
            match api_fault api (S n) with
            | None => (Resolved true, calls2)
            | Some err => (Rejected (JsError err), calls2)
            end
      end.
End Mailer.
End GMailer.

(** ** Sample data *)

Module Sample.
(** An environment in which every call succeeds and every upload
    completes. *)
Definition calm : Env :=
  mkEnv (fun _ => None) (fun _ => complete) (fun _ => Meta.mk None)
        (fun _ _ => "q1w2e3r4t5y6u7i8") (fun _ => 1446000000000).

(** [calm], except that call number [n] reports an error. *)
Definition failing (n : nat) : Env :=
  mkEnv (fun i => if Nat.eqb i n then Some "ECONNRESET" else None)
        (upload_event calm) (object_meta calm) (random_string calm)
        (now calm).

(** [calm], with every stored object marked [encoded]. *)
Definition zipped : Env :=
  mkEnv (fault calm) (upload_event calm)
        (fun _ => Meta.mk (Some (Some true))) (random_string calm) (now calm).

Definition plain (_ : option string) : bool := false.

Definition wants (encodings : string) : Request.t :=
  Request.mk {["accept-encoding" := encodings]}.

Definition ann : IStorageStats.t := IStorageStats.mk "ann" 100 1000 5 20.
Definition ann_full : IStorageStats.t := IStorageStats.mk "ann" 995 1000 5 20.
Definition ann_spent : IStorageStats.t := IStorageStats.mk "ann" 100 1000 19 20.

Definition photos : IBucketEntry.t :=
  IBucketEntry.mk (Some 1%nat) "photos" "webinate-bucket-a1b2c3d4" "ann" 0 100.

Definition cat_png : IFileEntry.t :=
  IFileEntry.mk (Some 2%nat) "cat.png" "ann" "Kq3vXz81LmNo04Pa"
    "webinate-bucket-a1b2c3d4" "photos" 0 0 40 true
    "https://storage.googleapis.com/webinate-bucket-a1b2c3d4/Kq3vXz81LmNo04Pa"
    (Some "image/png").

Definition dog_png : IFileEntry.t :=
  IFileEntry.mk (Some 3%nat) "dog.png" "ann" "Zz9yXx8wVv7uTt6s"
    "webinate-bucket-a1b2c3d4" "photos" 0 0 60 true
    "https://storage.googleapis.com/webinate-bucket-a1b2c3d4/Zz9yXx8wVv7uTt6s"
    (Some "image/png").

Definition world : World := mkWorld [ann] [photos] [cat_png; dog_png] 10 [].
Definition world_full : World := mkWorld [ann_full] [photos] [cat_png] 10 [].
Definition world_spent : World := mkWorld [ann_spent] [photos] [cat_png] 10 [].
Definition world_nobody : World := mkWorld [] [photos] [cat_png] 10 [].

(** A part that declares ten bytes and delivers three. *)
Definition notes : Part.t :=
  Part.mk "notes.bin" {["content-type" := "application/octet-stream"]} 10
          [Byte.x68; Byte.x69; Byte.x0a].

Definition blank : Response.t := Response.mk 200 ∅ unwritten.
End Sample.

(** Further sample data. *)
Module More.
(** The upload of [Sample.notes] by ann into her bucket, all going well. *)
Definition upload : Promise IFileEntry.t * World :=
  uploadStream Sample.calm Sample.plain Sample.notes Sample.photos "ann" true
               Sample.world.


(** The second oracle, never failing, and a world with no further call
    made yet. *)
Definition xcalm : XEnv := mkXEnv (fun _ => None).
Definition xworld : XWorld := mkXWorld Sample.world [].
End More.

(** ** Vocabulary of the statements *)

(** What is stored in the three collections. *)
Definition persisted (w : World)
    : list IStorageStats.t * list IBucketEntry.t * list IFileEntry.t :=
  (stats w, buckets w, files w).

(** A step of a sequential plan: the call it issues and what the call
    changes when it succeeds. *)
Definition Step : Type := (Call * (World -> World))%type.

(** A plan run strictly in order: each call is issued after the one before
    it has succeeded and taken effect; the first call to report an error
    ends the run with that error, and what was done stays done. *)
Fixpoint run_steps (env : Env) (steps : list Step) (w : World)
    : option string * World :=
  match steps with
  | [] => (None, w)
  | (c, eff) :: rest =>
      match fault env (tick w) with
      | Some msg => (Some msg, log c w)
      | None => run_steps env rest (eff (log c w))
      end
  end.

(** How many of the [n] calls numbered [t], [t+1], ... succeed before the
    first that reports an error. *)
Fixpoint completed (env : Env) (t n : nat) : nat :=
  match n with
  | O => O
  | S n' =>
      match fault env t with
      | Some _ => O
      | None => S (completed env (S t) n')
      end
  end.

Definition apply_effects (effs : list (World -> World)) (w : World) : World :=
  fold_left (fun w eff => eff w) effs w.

Definition deleteFile_lookup (f : IFileEntry.t) : BucketQuery.pattern :=
  BucketQuery.mkp None None (Some (IFileEntry.bucketId f)) None.

(** The four steps of a file deletion once its bucket [b] is known. *)
Definition deleteFile_steps (b : IBucketEntry.t) (f : IFileEntry.t)
    : list Step :=
  [ (gcs_file_delete_call (IBucketEntry.identifier b)
                          (IFileEntry.identifier f),
     fun w => w);
    (buckets_update_call (IBucketEntry.identifier b) (- IFileEntry.size f),
     set_buckets
       (update_first
          (fun x => String.eqb (IBucketEntry.identifier b)
                               (IBucketEntry.identifier x))
          (IBucketEntry.inc (- IFileEntry.size f))));
    (files_remove_call (IFileEntry._id f),
     set_files
       (remove_all (fun x => id_eqb (IFileEntry._id f) (IFileEntry._id x))));
    (stats_update_call (IBucketEntry.user b) (- IFileEntry.size f) 1,
     set_stats
       (update_first (stats_of (IBucketEntry.user b))
                     (IStorageStats.inc (- IFileEntry.size f) 1))) ].

(** The per-item outcomes of a batch: each entry with the way its deletion
    ended, the deletions run as [settle_each] runs them. *)
Fixpoint outcomes {E} (delete : E -> M E) (entries : list E) (w : World)
    : list (E * Promise E) :=
  match entries with
  | [] => []
  | e :: rest =>
      (e, fst (delete e w)) :: outcomes delete rest (snd (delete e w))
  end.

Definition succeeded {E} (o : E * Promise E) : bool := is_resolved (snd o).
Definition failed {E} (o : E * Promise E) : bool := is_rejected (snd o).
Definition settled {E} (o : E * Promise E) : bool :=
  is_resolved (snd o) || is_rejected (snd o).

(** The identifiers of the entries whose deletion succeeded. *)
Definition identifiers_succeeded {E} (ident : E -> string)
    (os : list (E * Promise E)) : list string :=
  List.map (fun o => ident (fst o)) (List.filter succeeded os).

(** The test [!bucket || bucket.trim() == ""] of [removeFilesByBucket]. *)
Definition blank_name (bucket : string) : bool :=
  String.eqb bucket "" || String.eqb (trim bucket) "".


(** The number of bytes an upload moves: those the part's stream delivers. *)
Definition transferred (part : Part.t) : Z :=
  Z.of_nat (List.length (Part.stream part)).

Definition bucket_of (b : IBucketEntry.t) (x : IBucketEntry.t) : bool :=
  String.eqb (IBucketEntry.identifier b) (IBucketEntry.identifier x).

(** An upload that passes the quota check, whose stream completes and whose
    two counter updates go through. *)
Definition upload_accounted (env : Env) (part : Part.t) (user : string)
    (w : World) (s : IStorageStats.t) : Prop :=
  fst (canUpload env user part w) = Resolved s
  /\ upload_event env (S (tick w)) = complete
  /\ fault env (S (S (tick w))) = None
  /\ fault env (S (S (S (tick w)))) = None.

(** What such an upload does to the counters when they move by [amount]. *)
Definition counters_moved_by (amount : Z) (w w' : World) (user : string)
    (b : IBucketEntry.t) (s : IStorageStats.t) : Prop :=
  (exists s',
     List.find (stats_of user) (stats w') = Some s'
     /\ IStorageStats.memoryUsed s' = (IStorageStats.memoryUsed s + amount)%Z
     /\ IStorageStats.apiCallsUsed s' = (IStorageStats.apiCallsUsed s + 1)%Z)
  /\ (forall x, List.find (bucket_of b) (buckets w) = Some x ->
       exists x',
         List.find (bucket_of b) (buckets w') = Some x'
         /\ IBucketEntry.memoryUsed x'
            = (IBucketEntry.memoryUsed x + amount)%Z).

(** C1 as the specification words it: the counters move by the transferred
    byte count. *)
Definition upload_counts_transferred_bytes : Prop :=
  forall (env : Env) (compressible : option string -> bool) (part : Part.t)
         (b : IBucketEntry.t) (user : string) (makePublic : bool) (w : World)
         (s : IStorageStats.t),
    upload_accounted env part user w s ->
    counters_moved_by (transferred part) w
      (snd (uploadStream env compressible part b user makePublic w)) user b s.

(** What the client accepts, as [downloadFile] reads it: [gzip] is looked
    for first, [deflate] only when [gzip] is not there. *)
Inductive Accepts : Type := accepts_gzip | accepts_deflate | accepts_neither.

Definition client_accepts (request : Request.t) : Accepts :=
  let acceptEncoding :=
    default "" (Request.headers request !! "accept-encoding") in
  if match_word "gzip" acceptEncoding then accepts_gzip
  else if match_word "deflate" acceptEncoding then accepts_deflate
  else accepts_neither.

(** Whether the object is stored compressed, as its metadata says. *)
Definition stored_compressed (meta : Meta.t) : bool :=
  match Meta.metadata meta with
  | Some (Some b) => b
  | _ => false
  end.

(** The six rows of the specification: the [content-encoding] header to
    set, if any, and the stages to pipe the stored bytes through. *)
Definition decision_table (compressed : bool) (a : Accepts)
    : option string * list Stage :=
  match compressed, a with
  | true, accepts_gzip => (Some "gzip", [])
  | true, accepts_deflate => (Some "deflate", [_unzipper; _deflater])
  | true, accepts_neither => (None, [_unzipper])
  | false, accepts_gzip => (None, [])
  | false, accepts_deflate => (Some "deflate", [_deflater])
  | false, accepts_neither => (None, [])
  end.

(** The last sentence of C4 as the specification words it: no download
    pipes the stored bytes through more than one stage. *)
Definition download_at_most_one_stage : Prop :=
  forall (env : Env) (request : Request.t) (response : Response.t)
         (file : IFileEntry.t) (w : World) (stages : list Stage),
    Response.body (fst (downloadFile env request response file w))
    = piped stages ->
    (List.length stages <= 1)%nat.

(** ** Vocabulary of the further properties *)

(** A string of white space only (the empty string included). *)
Inductive white_only : string -> Prop :=
| white_only_nil : white_only ""
| white_only_cons (c s : string) :
    In c white_space -> white_only s -> white_only (c +:+ s).

(** The database hands out each [_id] once: every stored file entry and
    bucket entry has an [_id], and it lies below the next one to be
    handed out. *)
Definition id_below (n : nat) (i : option nat) : bool :=
  match i with
  | Some k => (k <? n)%nat
  | None => false
  end.

Definition ids_below (w : World) : bool :=
  forallb (fun f => id_below (next_id w) (IFileEntry._id f)) (files w)
  && forallb (fun b => id_below (next_id w) (IBucketEntry._id b)) (buckets w).

(** The file entry a visibility change addresses. *)
Definition file_key (file : IFileEntry.t) (f : IFileEntry.t) : bool :=
  String.eqb (IFileEntry.bucketId file) (IFileEntry.bucketId f)
  && String.eqb (IFileEntry.identifier file) (IFileEntry.identifier f).

(** What [new err] throws. *)
Definition not_a_constructor : JsValue :=
  JsTypeError "err is not a constructor".

(** A stats record and what an operation may make of it: the same user,
    the same allocations, and no fewer API calls used. *)
Definition same_quota (s s' : IStorageStats.t) : Prop :=
  IStorageStats.user s' = IStorageStats.user s
  /\ IStorageStats.memoryAllocated s' = IStorageStats.memoryAllocated s
  /\ IStorageStats.apiCallsAllocated s' = IStorageStats.apiCallsAllocated s
  /\ (IStorageStats.apiCallsUsed s <= IStorageStats.apiCallsUsed s')%Z.

(** The stats collection keeps its records, one for one and in order. *)
Definition stats_evolve (l l' : list IStorageStats.t) : Prop :=
  Forall2 same_quota l l'.

(** The record [createUserStats] saves for a user. *)
Definition fresh_stats (user : string) : IStorageStats.t :=
  IStorageStats.mk user 0 500000000 0 20000.

(** Whether character [c] occurs in [s]. *)
Fixpoint occurs (c : ascii) (s : string) : bool :=
  match s with
  | EmptyString => false
  | String x s' => Ascii.eqb x c || occurs c s'
  end.

(** The text of a mail before it is encoded. *)
Definition mail_text (to from subject message : string) : string :=
  "Content-Type: text/plain; charset=" +:+ GMailer.quoted "UTF-8"
  +:+ GMailer.CRLF
  +:+ "MIME-Version: 1.0" +:+ GMailer.CRLF
  +:+ "Content-Transfer-Encoding: 7bit" +:+ GMailer.CRLF
  +:+ "to: " +:+ to +:+ GMailer.CRLF
  +:+ "from: " +:+ from +:+ GMailer.CRLF
  +:+ "subject: " +:+ subject +:+ GMailer.CRLF +:+ GMailer.CRLF
  +:+ message.

(** A stand-in encoder for the examples: every text encodes to the same
    eight characters of the base64 alphabet. *)
Definition sample_base64 (_ : string) : string := "aGk+/w==".

(** The bytes a list of file entries accounts for. *)
Definition total_size (l : list IFileEntry.t) : Z :=
  fold_right (fun f acc => (IFileEntry.size f + acc)%Z) 0%Z l.

(** The file entries a bucket deletion looks for: those that name the
    bucket identifier as their [bucketId] or as their [bucketName]. *)
Definition in_bucket (id : string) (f : IFileEntry.t) : bool :=
  String.eqb id (IFileEntry.bucketId f)
  || String.eqb id (IFileEntry.bucketName f).

(** A collection without the entries that share an [_id] with one of
    [gone]. *)
Definition without (gone : list IFileEntry.t) (l : list IFileEntry.t)
    : list IFileEntry.t :=
  List.filter
    (fun f => negb (existsb (fun m => id_eqb (IFileEntry._id m)
                                             (IFileEntry._id f)) gone)) l.

Fixpoint last_char (s : string) : option ascii :=
  match s with
  | EmptyString => None
  | String c s' =>
      match last_char s' with
      | None => Some c
      | Some d => Some d
      end
  end.

(** The condition on what precedes an occurrence, [prev] standing for
    the character before the text that is searched. *)
Definition clear_before (prev : bool) (pre : string) : bool :=
  match last_char pre with
  | None => negb prev
  | Some c => negb (is_word_char c)
  end.

(** [word] occurs in [s] as a whole word: with no word character right
    before it and none right after it. *)
Definition whole_word (word s : string) : Prop :=
  exists pre post,
    s = pre +:+ word +:+ post
    /\ match last_char pre with
       | None => True
       | Some c => is_word_char c = false
       end
    /\ at_word_end post = true.

(** The [accept-encoding] header of a request, or the empty string. *)
Definition accept_encoding (request : Request.t) : string :=
  default "" (Request.headers request !! "accept-encoding").

(** ** Proofs *)

Lemma tick_log (c : Call) (w : World) : tick (log c w) = S (tick w).
Proof. unfold tick, log; simpl. rewrite length_app; simpl; lia. Qed.

Lemma tick_set_stats f (w : World) : tick (set_stats f w) = tick w.
Proof. reflexivity. Qed.

Lemma tick_set_buckets f (w : World) : tick (set_buckets f w) = tick w.
Proof. reflexivity. Qed.

Lemma tick_set_files f (w : World) : tick (set_files f w) = tick w.
Proof. reflexivity. Qed.

Lemma tick_bump_id (w : World) : tick (bump_id w) = tick w.
Proof. reflexivity. Qed.

Create Rewrite HintDb tick.
#[local] Hint Rewrite tick_log tick_set_stats tick_set_buckets tick_set_files
  tick_bump_id : tick.

(** Open the driver layer down to the environment's answers, and number
    the calls from the starting world. *)
Ltac open_calls :=
  unfold stats_update, stats_findOne, buckets_update, buckets_remove,
    buckets_findOne, buckets_find, buckets_toArray, files_find,
    files_toArray, files_remove, files_save, files_update_name,
    files_update_isPublic, pipe_to_bucket, invoke_eff, invoke_get, invoke,
    then_only, then_catch, resolve, reject, throw;
  cbn beta iota; autorewrite with tick.

Lemma then_catch_resolved {A B} (p : M A) (f : A -> M B)
    (g : JsValue -> M B) (w : World) (a : A) (w1 : World) :
  p w = (Resolved a, w1) -> then_catch p f g w = f a w1.
Proof. intros H. unfold then_catch. rewrite H. reflexivity. Qed.

Lemma find_update_first {A} (p : A -> bool) (f : A -> A) (l : list A) :
  (forall x, p x = true -> p (f x) = true) ->
  List.find p (update_first p f l) = f <$> List.find p l.
Proof.
  intros Hkey. induction l as [|x l IH]; simpl; [reflexivity|].
  destruct (p x) eqn:Hx; simpl.
  - rewrite (Hkey x Hx). reflexivity.
  - rewrite Hx. exact IH.
Qed.

(** Decide the two comparisons of the quota check and settle what is left
    by arithmetic. *)
Ltac quota_cases :=
  repeat (case Z.ltb_spec; intros);
  intuition (try discriminate; try lia; try reflexivity).

Section QuotaGate.
Variable env : Env.
Variable compressible : option string -> bool.

(** What [canUpload] does once the lookup has come back. *)
Lemma canUpload_unfold (user : string) (part : Part.t) (w : World) :
  canUpload env user part w =
  match fault env (tick w) with
  | Some msg => (Rejected (JsError msg), log (stats_findOne_call user) w)
  | None =>
      match List.find (stats_of user) (stats w) with
      | None =>
          (Pending (JsTypeError "Cannot read property 'memoryUsed' of null"),
           log (stats_findOne_call user) w)
      | Some s =>
          (if (IStorageStats.memoryUsed s + Part.byteCount part
               <? IStorageStats.memoryAllocated s)%Z
           then if (IStorageStats.apiCallsUsed s + 1
                    <? IStorageStats.apiCallsAllocated s)%Z
                then Resolved s
                else Rejected api_quota_error
           else Rejected memory_quota_error,
           log (stats_findOne_call user) w)
      end
  end.
Proof.
  unfold canUpload, stats_findOne, invoke_get, invoke.
  destruct (fault env (tick w)); simpl; [reflexivity|].
  destruct (List.find _ _); [|reflexivity].
  repeat match goal with |- context [if ?b then _ else _] => destruct b end;
    reflexivity.
Qed.

(** A check that does not resolve ends the upload on the spot. *)
Lemma uploadStream_gate_closed (part : Part.t) (b : IBucketEntry.t)
    (user : string) (makePublic : bool) (w : World) :
  is_resolved (fst (canUpload env user part w)) = false ->
  snd (uploadStream env compressible part b user makePublic w)
  = log (stats_findOne_call user) w
  /\ match fst (canUpload env user part w) with
     | Rejected e =>
         fst (uploadStream env compressible part b user makePublic w)
         = Rejected e
     | Pending v =>
         fst (uploadStream env compressible part b user makePublic w)
         = Pending v
     | Resolved _ => False
     end.
Proof.
  unfold uploadStream, then_catch.
  assert (Hw : snd (canUpload env user part w)
               = log (stats_findOne_call user) w).
  { rewrite canUpload_unfold.
    destruct (fault env (tick w)); [reflexivity|].
    destruct (List.find _ _); reflexivity. }
  destruct (canUpload env user part w) as [[s|e|v] w1]; simpl in *;
    intros H; try discriminate; subst; split; reflexivity.
Qed.
End QuotaGate.

(** C2.  When the stats lookup returns the user's record, [canUpload]
    rejects with the memory error exactly when
    [memoryUsed + byteCount >= memoryAllocated], with the API-call error
    exactly when the memory test passes and
    [apiCallsUsed + 1 >= apiCallsAllocated], and resolves with the record
    otherwise; and when it rejects, [uploadStream] rejects with the same
    error, leaves the three collections as they were, and has made no call
    but the lookup, so none to the remote store. *)
Theorem canUpload_quota_gate (env : Env) (compressible : option string -> bool)
    (part : Part.t) (b : IBucketEntry.t) (user : string) (makePublic : bool)
    (w : World) (s : IStorageStats.t) :
  fault env (tick w) = None ->
  List.find (stats_of user) (stats w) = Some s ->
  let memory_over :=
    (IStorageStats.memoryUsed s + Part.byteCount part
     >= IStorageStats.memoryAllocated s)%Z in
  let calls_over :=
    (IStorageStats.apiCallsUsed s + 1 >= IStorageStats.apiCallsAllocated s)%Z in
  let check := fst (canUpload env user part w) in
  let upload := uploadStream env compressible part b user makePublic w in
  (check = Rejected memory_quota_error <-> memory_over)
  /\ (check = Rejected api_quota_error <-> ~ memory_over /\ calls_over)
  /\ (~ memory_over -> ~ calls_over -> check = Resolved s)
  /\ (forall e, check = Rejected e ->
        fst upload = Rejected e
        /\ stats (snd upload) = stats w
        /\ buckets (snd upload) = buckets w
        /\ files (snd upload) = files w
        /\ trace (snd upload) = (trace w ++ [stats_findOne_call user])%list
        /\ existsb is_remote (trace (snd upload))
           = existsb is_remote (trace w)).
Proof.
  intros Hok Hs memory_over calls_over check upload.
  assert (Hc : check =
    if (IStorageStats.memoryUsed s + Part.byteCount part
        <? IStorageStats.memoryAllocated s)%Z
    then if (IStorageStats.apiCallsUsed s + 1
             <? IStorageStats.apiCallsAllocated s)%Z
         then Resolved s else Rejected api_quota_error
    else Rejected memory_quota_error).
  { unfold check. rewrite canUpload_unfold, Hok, Hs. reflexivity. }
  assert (Hup : forall e, check = Rejected e ->
            fst upload = Rejected e
            /\ snd upload = log (stats_findOne_call user) w).
  { intros e He. unfold upload.
    destruct (uploadStream_gate_closed env compressible part b user
                makePublic w) as [Hw Hr].
    - fold check. rewrite He. reflexivity.
    - fold check in Hr. rewrite He in Hr. auto. }
  subst memory_over calls_over.
  split; [|split; [|split]].
  - rewrite Hc. quota_cases.
  - rewrite Hc. quota_cases.
  - rewrite Hc. quota_cases.
  - intros e He. destruct (Hup e He) as [Hr Hw]. rewrite Hw, Hr. simpl.
    rewrite existsb_app. simpl. rewrite !orb_false_r. repeat split.
Qed.

Lemma canUpload_quota_gate_witness :
  fst (canUpload Sample.calm "ann" Sample.notes Sample.world_full)
  = Rejected memory_quota_error
  /\ fst (uploadStream Sample.calm Sample.plain Sample.notes Sample.photos
                       "ann" true Sample.world_full)
     = Rejected memory_quota_error
  /\ trace (snd (uploadStream Sample.calm Sample.plain Sample.notes
                              Sample.photos "ann" true Sample.world_full))
     = [stats_findOne_call "ann"].
Proof.
  destruct (canUpload_quota_gate Sample.calm Sample.plain Sample.notes
              Sample.photos "ann" true Sample.world_full Sample.ann_full
              eq_refl eq_refl) as (Hm & _ & _ & Hup).
  assert (Hc := proj2 Hm ltac:(simpl; lia)).
  destruct (Hup _ Hc) as (Hr & _ & _ & _ & Ht & _).
  split; [exact Hc|]. split; [exact Hr|exact Ht].
Defined.

(** C9.  When the stats lookup comes back without an error and without a
    record, [canUpload] reads [memoryUsed] from [null]: a [TypeError] is
    thrown inside the driver callback, the promise is neither resolved nor
    rejected, so no rejection of any kind (not-found or other) reaches the
    caller, and [uploadStream], waiting on the check, is never settled
    either. *)
Theorem canUpload_missing_stats_throws (env : Env)
    (compressible : option string -> bool) (part : Part.t)
    (b : IBucketEntry.t) (user : string) (makePublic : bool) (w : World) :
  fault env (tick w) = None ->
  List.find (stats_of user) (stats w) = None ->
  let thrown := JsTypeError "Cannot read property 'memoryUsed' of null" in
  fst (canUpload env user part w) = Pending thrown
  /\ (forall e, fst (canUpload env user part w) <> Rejected e)
  /\ fst (uploadStream env compressible part b user makePublic w)
     = Pending thrown
  /\ (forall e, fst (uploadStream env compressible part b user makePublic w)
                <> Rejected e).
Proof.
  intros Hok Hnone thrown.
  assert (Hc : fst (canUpload env user part w) = Pending thrown).
  { rewrite canUpload_unfold, Hok, Hnone. reflexivity. }
  destruct (uploadStream_gate_closed env compressible part b user
              makePublic w) as [_ Hr].
  { rewrite Hc. reflexivity. }
  rewrite Hc in Hr.
  repeat split; try assumption; intros e; rewrite ?Hc, ?Hr; discriminate.
Qed.

Lemma canUpload_missing_stats_throws_witness :
  fst (canUpload Sample.calm "ann" Sample.notes Sample.world_nobody)
  = Pending (JsTypeError "Cannot read property 'memoryUsed' of null")
  /\ fst (uploadStream Sample.calm Sample.plain Sample.notes Sample.photos
                       "ann" true Sample.world_nobody)
     = Pending (JsTypeError "Cannot read property 'memoryUsed' of null").
Proof.
  destruct (canUpload_missing_stats_throws Sample.calm Sample.plain
              Sample.notes Sample.photos "ann" true Sample.world_nobody
              eq_refl eq_refl) as (Hc & _ & Hu & _).
  split; [exact Hc|exact Hu].
Defined.

Section Visibility.
Variable env : Env.

Lemma withinAPILimit_world (user : string) (w : World) :
  snd (withinAPILimit env user w) = log (stats_findOne_call user) w.
Proof.
  unfold withinAPILimit, stats_findOne, invoke_get, invoke.
  destruct (fault env (tick w)); simpl; [reflexivity|].
  destruct (List.find _ _); [|reflexivity].
  case Z.ltb_spec; reflexivity.
Qed.

(** At the limit the chain goes from the first [then] straight to the
    handler, and the handler throws. *)
Lemma change_visibility_at_limit (remote : Call) (flag : bool)
    (file : IFileEntry.t) (w : World) :
  fst (withinAPILimit env (IFileEntry.user file) w) = Resolved false ->
  change_visibility env remote flag file w
  = (Pending (JsTypeError "err is not a constructor"),
     log (stats_findOne_call (IFileEntry.user file)) w).
Proof.
  intros Hlim. unfold change_visibility, then_catch.
  pose proof (withinAPILimit_world (IFileEntry.user file) w) as Hw.
  destruct (withinAPILimit env (IFileEntry.user file) w) as [r w1].
  simpl in *. subst. reflexivity.
Qed.
End Visibility.

(** C10.  When [withinAPILimit] resolves [false] for the file's owner,
    [makeFilePublic] and [makeFilePrivate] do not reject with the
    not-enough-API-calls error, nor with anything else: the handler's
    [new err] throws a [TypeError], the promise they return is never
    settled, and nothing beyond the limit lookup has been called. *)
Theorem visibility_limit_error_lost (env : Env) (file : IFileEntry.t)
    (w : World) :
  fst (withinAPILimit env (IFileEntry.user file) w) = Resolved false ->
  let thrown := JsTypeError "err is not a constructor" in
  let looked := log (stats_findOne_call (IFileEntry.user file)) w in
  makeFilePublic env file w = (Pending thrown, looked)
  /\ makeFilePrivate env file w = (Pending thrown, looked)
  /\ fst (makeFilePublic env file w) <> Rejected api_limit_error
  /\ fst (makeFilePrivate env file w) <> Rejected api_limit_error
  /\ (forall e, fst (makeFilePublic env file w) <> Rejected e)
  /\ (forall e, fst (makeFilePrivate env file w) <> Rejected e).
Proof.
  intros Hlim thrown looked. unfold makeFilePublic, makeFilePrivate.
  rewrite !change_visibility_at_limit by exact Hlim.
  repeat split; try intros e; discriminate.
Qed.

Lemma visibility_limit_error_lost_witness :
  fst (withinAPILimit Sample.calm "ann" Sample.world_spent) = Resolved false
  /\ fst (makeFilePublic Sample.calm Sample.cat_png Sample.world_spent)
     = Pending (JsTypeError "err is not a constructor")
  /\ fst (makeFilePrivate Sample.calm Sample.cat_png Sample.world_spent)
     = Pending (JsTypeError "err is not a constructor").
Proof.
  destruct (visibility_limit_error_lost Sample.calm Sample.cat_png
              Sample.world_spent eq_refl) as (Hpub & Hpriv & _).
  split; [reflexivity|]. rewrite Hpub, Hpriv. split; reflexivity.
Defined.

Section Rename.
Variable env : Env.

Lemma renameFile_unfold (file : IFileEntry.t) (name : string) (w : World) :
  renameFile env file name w =
  let owner := IFileEntry.user file in
  let w1 := log (stats_update_call owner 0 1) w in
  match fault env (tick w) with
  | Some msg => (Pending (JsError msg), w1)
  | None =>
      let w2 :=
        log (files_update_name_call (IFileEntry._id file) name)
            (set_stats
               (update_first (stats_of owner) (IStorageStats.inc 0 1)) w1) in
      match fault env (S (tick w)) with
      | Some msg => (Rejected (JsError msg), w2)
      | None =>
          (Resolved file,
           set_files
             (update_first
                (fun f => id_eqb (IFileEntry._id file) (IFileEntry._id f))
                (IFileEntry.set_name name)) w2)
      end
  end.
Proof.
  unfold renameFile, incrementAPI. open_calls.
  destruct (fault env (tick w)); simpl; [reflexivity|].
  autorewrite with tick.
  destruct (fault env (S (tick w))); reflexivity.
Qed.
End Rename.

(** C8.  When the increment call goes through, [renameFile] has issued
    exactly two calls, the [apiCallsUsed] increment first and the name
    update second; the owner's record shows [apiCallsUsed] one higher
    whether the name update then succeeds (the promise resolves and the
    name is stored) or fails (the promise rejects with the driver's error
    and the files are as before): the charge stands without the rename. *)
Theorem renameFile_charges_once (env : Env) (file : IFileEntry.t)
    (name : string) (w : World) (s : IStorageStats.t) :
  fault env (tick w) = None ->
  List.find (stats_of (IFileEntry.user file)) (stats w) = Some s ->
  let owner := IFileEntry.user file in
  let r := fst (renameFile env file name w) in
  let w' := snd (renameFile env file name w) in
  trace w' = (trace w ++ [stats_update_call owner 0 1;
                          files_update_name_call (IFileEntry._id file) name])%list
  /\ stats w' = update_first (stats_of owner) (IStorageStats.inc 0 1) (stats w)
  /\ (exists s', List.find (stats_of owner) (stats w') = Some s'
        /\ IStorageStats.apiCallsUsed s' = (IStorageStats.apiCallsUsed s + 1)%Z
        /\ IStorageStats.memoryUsed s' = (IStorageStats.memoryUsed s + 0)%Z)
  /\ match fault env (S (tick w)) with
     | Some msg => r = Rejected (JsError msg) /\ files w' = files w
     | None =>
         r = Resolved file
         /\ files w' =
            update_first (fun f => id_eqb (IFileEntry._id file) (IFileEntry._id f))
                         (IFileEntry.set_name name) (files w)
     end.
Proof.
  intros Hok Hs owner r w'. subst r w'.
  rewrite renameFile_unfold, Hok. fold owner.
  assert (Hst : List.find (stats_of owner)
            (update_first (stats_of owner) (IStorageStats.inc 0 1) (stats w))
            = Some (IStorageStats.inc 0 1 s)).
  { rewrite find_update_first by (intros x Hx; exact Hx).
    fold owner in Hs. rewrite Hs. reflexivity. }
  destruct (fault env (S (tick w))); simpl; rewrite <- app_assoc;
    (split; [reflexivity|]); (split; [reflexivity|]);
    (split; [exists (IStorageStats.inc 0 1 s); auto|split; reflexivity]).
Qed.

Lemma renameFile_charges_once_witness :
  fst (renameFile (Sample.failing 1) Sample.cat_png "kitten.png" Sample.world)
  = Rejected (JsError "ECONNRESET")
  /\ stats (snd (renameFile (Sample.failing 1) Sample.cat_png "kitten.png"
                            Sample.world))
     = [IStorageStats.mk "ann" 100 1000 6 20]
  /\ files (snd (renameFile (Sample.failing 1) Sample.cat_png "kitten.png"
                            Sample.world))
     = files Sample.world.
Proof.
  destruct (renameFile_charges_once (Sample.failing 1) Sample.cat_png
              "kitten.png" Sample.world Sample.ann eq_refl eq_refl)
    as (_ & Hst & _ & Hr & Hf).
  split; [exact Hr|]. split; [rewrite Hst; reflexivity|exact Hf].
Defined.

Section DeleteFile.
Variable env : Env.

Lemma getIBucket_by_id (bucket : string) (w : World) :
  getIBucket env bucket None w =
  let q := BucketQuery.mkp None None (Some bucket) None in
  match fault env (tick w) with
  | Some msg => (Rejected (JsError msg), log (buckets_findOne_call q) w)
  | None =>
      (Resolved (List.find (BucketQuery.matchp q) (buckets w)),
       log (buckets_findOne_call q) w)
  end.
Proof.
  unfold getIBucket. open_calls. simpl.
  destruct (fault env (tick w)); simpl; [reflexivity|].
  destruct (List.find _ _); reflexivity.
Qed.

(** [deleteFile] is the bucket lookup followed by the plan. *)
Lemma deleteFile_unfold (f : IFileEntry.t) (w : World) :
  deleteFile env f w =
  let w0 := log (buckets_findOne_call (deleteFile_lookup f)) w in
  match fault env (tick w) with
  | Some msg => (Rejected (JsError msg), w0)
  | None =>
      match List.find (BucketQuery.matchp (deleteFile_lookup f)) (buckets w)
      with
      | None =>
          (Rejected (JsError ("Could not find the bucket '"
                              +:+ IFileEntry.bucketName f +:+ "'")), w0)
      | Some b =>
          let failed msg :=
            "Could not remove file '" +:+ IFileEntry.identifier f
            +:+ "' from storage system: '" +:+ toString (JsError msg)
            +:+ "'" in
          (match fst (run_steps env (deleteFile_steps b f) w0) with
           | None => Resolved f
           | Some msg =>
               match completed env (S (tick w)) 4 with
               | O => Rejected (JsError (failed msg))
               | _ => Rejected (JsString (failed msg))
               end
           end,
           snd (run_steps env (deleteFile_steps b f) w0))
      end
  end.
Proof.
  unfold deleteFile, then_catch. rewrite getIBucket_by_id.
  fold (deleteFile_lookup f).
  destruct (fault env (tick w)) as [msg|]; simpl; [reflexivity|].
  destruct (List.find _ _) as [b|]; [|reflexivity].
  open_calls. simpl. autorewrite with tick.
  destruct (fault env (S (tick w))); simpl; [reflexivity|].
  autorewrite with tick.
  destruct (fault env (S (S (tick w)))); simpl; [reflexivity|].
  autorewrite with tick.
  destruct (fault env (S (S (S (tick w))))); simpl; [reflexivity|].
  autorewrite with tick.
  destruct (fault env (S (S (S (S (tick w)))))); reflexivity.
Qed.

End DeleteFile.

(** C3.  [deleteFile] looks the owning bucket up by the file's [bucketId].
    When the lookup finds none it rejects with the could-not-find-the-bucket
    error and does nothing else.  When it finds bucket [b], [deleteFile] is
    the sequential plan [deleteFile_steps b f]: remote delete, then
    [memoryUsed] of the bucket down by [size], then removal of the file
    entry, then [memoryUsed] of the stats down by [size] and [apiCallsUsed]
    up by one.  The calls are issued in that order up to and including the
    first that fails; the collections hold the effects of exactly the steps
    before it, none undone; the promise resolves with the file when all
    four succeed and rejects otherwise. *)
Theorem deleteFile_ordered (env : Env) (f : IFileEntry.t) (w : World) :
  let lookup := buckets_findOne_call (deleteFile_lookup f) in
  let r := fst (deleteFile env f w) in
  let w' := snd (deleteFile env f w) in
  match fault env (tick w) with
  | Some msg => r = Rejected (JsError msg) /\ w' = log lookup w
  | None =>
      match List.find (BucketQuery.matchp (deleteFile_lookup f)) (buckets w)
      with
      | None =>
          r = Rejected (JsError ("Could not find the bucket '"
                                 +:+ IFileEntry.bucketName f +:+ "'"))
          /\ w' = log lookup w
      | Some b =>
          let steps := deleteFile_steps b f in
          let done := completed env (S (tick w)) 4 in
          w' = snd (run_steps env steps (log lookup w))
          /\ trace w'
             = (trace w ++ lookup :: firstn (S done) (List.map fst steps))%list
          /\ persisted w'
             = persisted (apply_effects (firstn done (List.map snd steps)) w)
          /\ (if Nat.eqb done 4 then r = Resolved f
              else is_rejected r = true)
      end
  end.
Proof.
  intros lookup r w'. subst r w'. rewrite deleteFile_unfold.
  destruct (fault env (tick w)) as [msg|]; [split; reflexivity|].
  destruct (List.find _ _) as [b|]; [|split; reflexivity].
  cbn zeta. split; [reflexivity|].
  unfold deleteFile_steps. simpl. autorewrite with tick.
  destruct (fault env (S (tick w))); simpl.
  { rewrite <- app_assoc. repeat split. }
  autorewrite with tick.
  destruct (fault env (S (S (tick w)))); simpl.
  { rewrite <- !app_assoc. repeat split. }
  autorewrite with tick.
  destruct (fault env (S (S (S (tick w))))); simpl.
  { rewrite <- !app_assoc. repeat split. }
  autorewrite with tick.
  destruct (fault env (S (S (S (S (tick w)))))); simpl;
    rewrite <- !app_assoc; repeat split.
Qed.

(** A deletion whose bucket update fails (call number 2): the remote
    object is gone, the update was asked for and nothing after it; the
    counters and the file entry are as they were. *)
Example deleteFile_stops_at_failed_update :
  let w' := snd (deleteFile (Sample.failing 2) Sample.cat_png Sample.world) in
  is_rejected (fst (deleteFile (Sample.failing 2) Sample.cat_png Sample.world))
  = true
  /\ trace w'
     = [buckets_findOne_call (deleteFile_lookup Sample.cat_png);
        gcs_file_delete_call "webinate-bucket-a1b2c3d4" "Kq3vXz81LmNo04Pa";
        buckets_update_call "webinate-bucket-a1b2c3d4" (-40)]
  /\ persisted w' = persisted Sample.world.
Proof. repeat split. Qed.

Section Batch.
Context {E : Type}.
Variable delete : E -> M E.
Variable ident : E -> string.

(** The loop never rejects, whatever its items do. *)
Lemma settle_each_never_rejects (entries : list E) (acc : list string)
    (w : World) :
  is_rejected (fst (settle_each delete ident entries acc w)) = false.
Proof.
  revert acc w. induction entries as [|e rest IH]; intros acc w; simpl.
  - reflexivity.
  - destruct (delete e w) as [[x|err|v] w1]; simpl; auto.
Qed.

(** When every item settles and a resolved item hands back the entry it
    was given, the loop resolves with the identifiers of the items that
    resolved, after those collected before. *)
Lemma settle_each_resolves (entries : list E) (acc : list string)
    (w : World) :
  (forall e w x, fst (delete e w) = Resolved x -> x = e) ->
  forallb settled (outcomes delete entries w) = true ->
  fst (settle_each delete ident entries acc w)
  = Resolved (acc ++ identifiers_succeeded ident (outcomes delete entries w))%list.
Proof.
  intros Hsame. revert acc w.
  induction entries as [|e rest IH]; intros acc w Hall; simpl.
  - unfold identifiers_succeeded. simpl. rewrite app_nil_r. reflexivity.
  - simpl in Hall. apply andb_true_iff in Hall as [He Hrest].
    pose proof (Hsame e w) as Hx.
    destruct (delete e w) as [[x|err|v] w1]; simpl in *.
    + rewrite (IH _ _ Hrest). rewrite (Hx x eq_refl).
      unfold identifiers_succeeded. simpl. rewrite <- app_assoc. reflexivity.
    + rewrite (IH _ _ Hrest). reflexivity.
    + discriminate.
Qed.

(** A batch in which every item rejects has no identifier to report. *)
Lemma all_failed_none_succeeded (os : list (E * Promise E)) :
  forallb failed os = true -> identifiers_succeeded ident os = [].
Proof.
  unfold identifiers_succeeded.
  induction os as [|[e r] os IH]; simpl; [reflexivity|].
  intros H. apply andb_true_iff in H as [Hr Hos].
  unfold failed, succeeded in *. simpl in *.
  destruct r; try discriminate. simpl. auto.
Qed.

Lemma all_failed_all_settled (os : list (E * Promise E)) :
  forallb failed os = true -> forallb settled os = true.
Proof.
  induction os as [|[e r] os IH]; simpl; [reflexivity|].
  intros H. apply andb_true_iff in H as [Hr Hos].
  unfold failed, settled in *. simpl in *.
  rewrite Hr, orb_true_r. simpl. auto.
Qed.
End Batch.

Section BatchDelete.
Variable env : Env.

Lemma deleteFile_settles (f : IFileEntry.t) (w : World) :
  fst (deleteFile env f w) = Resolved f
  \/ exists e, fst (deleteFile env f w) = Rejected e.
Proof.
  rewrite deleteFile_unfold. cbv zeta.
  destruct (fault env (tick w)); cbn [fst]; [eauto|].
  destruct (List.find _ _) as [b|]; cbn [fst]; [|eauto].
  destruct (fst (run_steps env (deleteFile_steps b f) _)); [|auto].
  destruct (completed env _ _); eauto.
Qed.

Lemma deleteFile_outcomes_settled (fs : list IFileEntry.t) (w : World) :
  forallb settled (outcomes (deleteFile env) fs w) = true.
Proof.
  revert w. induction fs as [|f fs IH]; intros w; simpl; [reflexivity|].
  rewrite IH, andb_true_r. unfold settled. simpl.
  destruct (deleteFile_settles f w) as [H|[e H]]; rewrite H; reflexivity.
Qed.

Lemma deleteFile_resolves_same (f : IFileEntry.t) (w : World)
    (x : IFileEntry.t) :
  fst (deleteFile env f w) = Resolved x -> x = f.
Proof.
  destruct (deleteFile_settles f w) as [H|[e H]]; rewrite H; congruence.
Qed.

Lemma removeFiles_unfold (q : FileQuery.t) (w : World) :
  removeFiles env q w =
  let w1 := log (files_find_call q) w in
  let w2 := log cursor_toArray_call w1 in
  match fault env (tick w) with
  | Some msg => (Rejected (JsError msg), w1)
  | None =>
      match fault env (S (tick w)) with
      | Some _ =>
          (Pending (JsTypeError "Cannot read property 'length' of undefined"),
           w2)
      | None =>
          match List.filter (FileQuery.matches q) (files w) with
          | [] => (Resolved [], w2)
          | fileEntries =>
              settle_each (deleteFile env) IFileEntry.identifier
                          fileEntries [] w2
          end
      end
  end.
Proof.
  unfold removeFiles. open_calls.
  destruct (fault env (tick w)); simpl; [reflexivity|].
  autorewrite with tick.
  destruct (fault env (S (tick w))); simpl; [reflexivity|].
  destruct (List.filter _ _); reflexivity.
Qed.

(** Once the query is through, [removeFiles] does not reject. *)
Lemma removeFiles_rejects_only_on_find (q : FileQuery.t) (w : World) :
  is_rejected (fst (removeFiles env q w))
  = match fault env (tick w) with Some _ => true | None => false end.
Proof.
  rewrite removeFiles_unfold.
  destruct (fault env (tick w)); [reflexivity|].
  destruct (fault env (S (tick w))); [reflexivity|].
  destruct (List.filter _ _) as [|f fs]; [reflexivity|].
  exact (settle_each_never_rejects (deleteFile env) IFileEntry.identifier
           (f :: fs) [] _).
Qed.
Lemma removeFilesByBucket_rejects (bucket : string) (w : World) :
  is_rejected (fst (removeFilesByBucket env bucket w))
  = blank_name bucket
    || match fault env (tick w) with Some _ => true | None => false end.
Proof.
  unfold removeFilesByBucket, blank_name.
  destruct (String.eqb bucket "" || String.eqb (trim bucket) "");
    [reflexivity|].
  apply removeFiles_rejects_only_on_find.
Qed.

Lemma deleteBucket_unfold (b : IBucketEntry.t) (w : World) :
  deleteBucket env b w =
  let id := IBucketEntry.identifier b in
  let phase := removeFilesByBucket env id w in
  let w1 := snd phase in
  match fst phase with
  | Rejected e =>
      (Rejected (JsString ("Could not remove the bucket: '"
                           +:+ toString e +:+ "'")), w1)
  | Pending v => (Pending v, w1)
  | Resolved _ =>
      let w2 := log (gcs_bucket_delete_call id) w1 in
      match fault env (tick w1) with
      | Some msg =>
          (Rejected (JsError ("Could not remove bucket from storage system: '"
                              +:+ msg +:+ "'")), w2)
      | None =>
          let w3 :=
            match fault env (S (tick w1)) with
            | Some _ => fun x => x
            | None =>
                set_buckets
                  (remove_all (fun x => id_eqb (IBucketEntry._id b)
                                               (IBucketEntry._id x)))
            end (log (buckets_remove_call (IBucketEntry._id b)) w2) in
          let w4 :=
            match fault env (S (S (tick w1))) with
            | Some _ => fun x => x
            | None =>
                set_stats
                  (update_first (stats_of (IBucketEntry.user b))
                                (IStorageStats.inc 0 1))
            end (log (stats_update_call (IBucketEntry.user b) 0 1) w3) in
          (Resolved b, w4)
      end
  end.
Proof.
  unfold deleteBucket, then_catch. cbv zeta.
  destruct (removeFilesByBucket env (IBucketEntry.identifier b) w)
    as [[ids|e|v] w1]; cbn [fst snd]; try reflexivity.
  open_calls.
  destruct (fault env (tick w1)); simpl; [reflexivity|].
  autorewrite with tick.
  destruct (fault env (S (tick w1))); simpl; autorewrite with tick;
    destruct (fault env (S (S (tick w1)))); reflexivity.
Qed.

Lemma deleteBucket_resolves_same (b : IBucketEntry.t) (w : World)
    (x : IBucketEntry.t) :
  fst (deleteBucket env b w) = Resolved x -> x = b.
Proof.
  rewrite deleteBucket_unfold. cbv zeta.
  destruct (fst (removeFilesByBucket env _ w)); cbn [fst]; try discriminate.
  destruct (fault env _); cbn [fst]; congruence.
Qed.

Lemma removeBuckets_unfold (q : BucketQuery.t) (w : World) :
  removeBuckets env q w =
  let w1 := log (buckets_find_call q) w in
  let w2 := log cursor_toArray_call w1 in
  match fault env (tick w) with
  | Some msg => (Rejected (JsError msg), w1)
  | None =>
      match fault env (S (tick w)) with
      | Some msg => (Rejected (JsError msg), w2)
      | None =>
          match List.filter (BucketQuery.matches q) (buckets w) with
          | [] => (Resolved [], w2)
          | found =>
              settle_each (deleteBucket env) IBucketEntry.identifier
                          found [] w2
          end
      end
  end.
Proof.
  unfold removeBuckets. open_calls.
  destruct (fault env (tick w)); simpl; [reflexivity|].
  autorewrite with tick.
  destruct (fault env (S (tick w))); simpl; [reflexivity|].
  destruct (List.filter _ _); reflexivity.
Qed.
End BatchDelete.

(** The batches where every deletion settles.  Once the query and its
    cursor have been read, [removeFiles] and [removeBuckets] do not reject,
    whatever the individual deletions do.  [removeFiles] resolves with
    exactly the identifiers of the matched files whose deletion resolved,
    and so does [removeBuckets] when each of its deletions settles; a batch
    whose every deletion rejects resolves with the empty list. *)
Theorem batch_delete_lenient (env : Env) (qf : FileQuery.t)
    (qb : BucketQuery.t) (w : World) :
  fault env (tick w) = None ->
  fault env (S (tick w)) = None ->
  let file_items :=
    outcomes (deleteFile env) (List.filter (FileQuery.matches qf) (files w))
             (log cursor_toArray_call (log (files_find_call qf) w)) in
  let bucket_items :=
    outcomes (deleteBucket env)
             (List.filter (BucketQuery.matches qb) (buckets w))
             (log cursor_toArray_call (log (buckets_find_call qb) w)) in
  is_rejected (fst (removeFiles env qf w)) = false
  /\ is_rejected (fst (removeBuckets env qb w)) = false
  /\ fst (removeFiles env qf w)
     = Resolved (identifiers_succeeded IFileEntry.identifier file_items)
  /\ (forallb settled bucket_items = true ->
      fst (removeBuckets env qb w)
      = Resolved (identifiers_succeeded IBucketEntry.identifier bucket_items))
  /\ (forallb failed file_items = true ->
      fst (removeFiles env qf w) = Resolved [])
  /\ (forallb failed bucket_items = true ->
      fst (removeBuckets env qb w) = Resolved []).
Proof.
  intros Hfind Hread file_items bucket_items.
  assert (Hf : fst (removeFiles env qf w)
               = Resolved (identifiers_succeeded IFileEntry.identifier
                                                 file_items)).
  { subst file_items. rewrite removeFiles_unfold, Hfind, Hread. cbv zeta.
    destruct (List.filter (FileQuery.matches qf) (files w)) as [|f fs] eqn:Hm;
      [reflexivity|].
    apply (settle_each_resolves (deleteFile env) IFileEntry.identifier
             (f :: fs) []).
    - intros e w0 x. apply deleteFile_resolves_same.
    - apply deleteFile_outcomes_settled. }
  assert (Hb : forallb settled bucket_items = true ->
               fst (removeBuckets env qb w)
               = Resolved (identifiers_succeeded IBucketEntry.identifier
                                                 bucket_items)).
  { subst bucket_items. rewrite removeBuckets_unfold, Hfind, Hread. cbv zeta.
    destruct (List.filter (BucketQuery.matches qb) (buckets w)) as [|b bs];
      [reflexivity|].
    intros Hall.
    apply (settle_each_resolves (deleteBucket env) IBucketEntry.identifier
             (b :: bs) []); [|exact Hall].
    intros e w0 x. apply deleteBucket_resolves_same. }
  split; [rewrite Hf; reflexivity|].
  split.
  { rewrite removeBuckets_unfold, Hfind, Hread. cbv zeta.
    destruct (List.filter (BucketQuery.matches qb) (buckets w)) as [|b bs];
      [reflexivity|].
    exact (settle_each_never_rejects (deleteBucket env)
             IBucketEntry.identifier (b :: bs) [] _). }
  split; [exact Hf|]. split; [exact Hb|]. split.
  - intros Hall. rewrite Hf.
    rewrite (all_failed_none_succeeded IFileEntry.identifier _ Hall).
    reflexivity.
  - intros Hall. rewrite (Hb (all_failed_all_settled _ Hall)).
    rewrite (all_failed_none_succeeded IBucketEntry.identifier _ Hall).
    reflexivity.
Qed.

Lemma batch_delete_lenient_witness :
  fst (removeFiles (Sample.failing 5)
         (FileQuery.mk None
            (FileQuery.mkp None None (Some "webinate-bucket-a1b2c3d4") None None))
         Sample.world)
  = Resolved ["Zz9yXx8wVv7uTt6s"]
  /\ fst (removeBuckets (Sample.failing 5)
            (BucketQuery.mk None (BucketQuery.mkp None None None (Some "ann")))
            Sample.world)
     = Resolved ["webinate-bucket-a1b2c3d4"].
Proof.
  destruct (batch_delete_lenient (Sample.failing 5)
              (FileQuery.mk None
                 (FileQuery.mkp None None (Some "webinate-bucket-a1b2c3d4")
                                None None))
              (BucketQuery.mk None (BucketQuery.mkp None None None (Some "ann")))
              Sample.world eq_refl eq_refl) as (_ & _ & Hf & Hb & _).
  split; [rewrite Hf; reflexivity|].
  rewrite (Hb eq_refl). reflexivity.
Defined.

(** C6 (the code when a listing fails).  A batch of bucket deletions is
    blocked by one bucket.  [removeFiles] reads [fileEntries.length]
    without looking at the error [toArray] reports; so when, for the first
    bucket the batch matched, the files are found but their cursor cannot
    be read, the deletion of that bucket neither resolves nor rejects, it
    is never counted among the attempts, and [removeBuckets] is never
    settled: it does not resolve, with the empty list or any other,
    whatever the other buckets of the batch are.  The bucket is still
    stored when its deletion stops. *)
Theorem batch_blocked_by_one_bucket (env : Env) (q : BucketQuery.t)
    (w : World) (b : IBucketEntry.t) (rest : list IBucketEntry.t)
    (msg : string) :
  fault env (tick w) = None ->
  fault env (S (tick w)) = None ->
  List.filter (BucketQuery.matches q) (buckets w) = b :: rest ->
  blank_name (IBucketEntry.identifier b) = false ->
  fault env (S (S (tick w))) = None ->
  fault env (S (S (S (tick w)))) = Some msg ->
  let started := log cursor_toArray_call (log (buckets_find_call q) w) in
  let item := deleteBucket env b started in
  let thrown :=
    JsTypeError "Cannot read property 'length' of undefined" in
  fst item = Pending thrown
  /\ persisted (snd item) = persisted w
  /\ In b (buckets (snd item))
  /\ fst (removeBuckets env q w) = Pending thrown
  /\ is_resolved (fst (removeBuckets env q w)) = false
  /\ is_rejected (fst (removeBuckets env q w)) = false.
Proof.
  intros Hfind Hread Hmatch Hname Hfiles Hcursor started item thrown.
  assert (Hitem : fst item = Pending thrown /\ persisted (snd item) = persisted w).
  { subst item started. rewrite deleteBucket_unfold. cbv zeta.
    unfold removeFilesByBucket. fold (blank_name (IBucketEntry.identifier b)).
    rewrite Hname, removeFiles_unfold. cbv zeta. autorewrite with tick.
    rewrite Hfiles, Hcursor. split; reflexivity. }
  destruct Hitem as [Hitem Hkept].
  assert (Hbatch : fst (removeBuckets env q w) = Pending thrown).
  { rewrite removeBuckets_unfold, Hfind, Hread. cbv zeta. rewrite Hmatch.
    fold started. change (settle_each (deleteBucket env)
                            IBucketEntry.identifier (b :: rest) [] started)
      with (match deleteBucket env b started with
            | (Resolved x, w') =>
                settle_each (deleteBucket env) IBucketEntry.identifier rest
                  ([] ++ [IBucketEntry.identifier x])%list w'
            | (Rejected _, w') =>
                settle_each (deleteBucket env) IBucketEntry.identifier rest
                  [] w'
            | (Pending v, w') =>
                (Pending v,
                 snd (settle_each (deleteBucket env) IBucketEntry.identifier
                        rest [] w'))
            end).
    fold item. destruct item as [r w']. simpl in Hitem. subst r.
    reflexivity. }
  split; [exact Hitem|]. split; [exact Hkept|]. split.
  { assert (Hb : buckets (snd item) = buckets w)
      by (injection Hkept; auto).
    rewrite Hb.
    assert (Hin : In b (List.filter (BucketQuery.matches q) (buckets w)))
      by (rewrite Hmatch; now left).
    apply List.filter_In in Hin. tauto. }
  split; [exact Hbatch|]. rewrite Hbatch. split; reflexivity.
Qed.

Lemma batch_blocked_by_one_bucket_witness :
  fst (removeBuckets (Sample.failing 3)
         (BucketQuery.mk None (BucketQuery.mkp None None None (Some "ann")))
         Sample.world)
  = Pending (JsTypeError "Cannot read property 'length' of undefined")
  /\ In Sample.photos
        (buckets (snd (deleteBucket (Sample.failing 3) Sample.photos
           (log cursor_toArray_call
              (log (buckets_find_call
                      (BucketQuery.mk None
                         (BucketQuery.mkp None None None (Some "ann"))))
                   Sample.world))))).
Proof.
  destruct (batch_blocked_by_one_bucket (Sample.failing 3)
              (BucketQuery.mk None
                 (BucketQuery.mkp None None None (Some "ann")))
              Sample.world Sample.photos [] "ECONNRESET"
              eq_refl eq_refl eq_refl eq_refl eq_refl eq_refl)
    as (_ & _ & Hin & Hbatch & _).
  split; [exact Hbatch|exact Hin].
Defined.

(** C7 (the code at the empty list).  [removeFilesById] and
    [removeBucketsByName] called with an empty list return at once and call
    neither the remote store nor the database: the world, trace included,
    is untouched.  The promise they return is resolved with [undefined],
    not with an empty array; a non-empty list, whenever it resolves, does
    resolve with an array. *)
Theorem empty_batch_resolves_undefined (env : Env) (user : option string)
    (owner : string) (w : World) :
  removeFilesById env [] user w = (Resolved None, w)
  /\ removeBucketsByName env [] owner w = (Resolved None, w)
  /\ fst (removeFilesById env [] user w) <> Resolved (Some [])
  /\ fst (removeBucketsByName env [] owner w) <> Resolved (Some [])
  /\ (forall id ids, fst (removeFilesById env (id :: ids) user w)
                     <> Resolved None)
  /\ (forall n ns, fst (removeBucketsByName env (n :: ns) owner w)
                   <> Resolved None).
Proof.
  split; [reflexivity|]. split; [reflexivity|].
  split; [discriminate|]. split; [discriminate|]. split.
  - intros id ids. unfold removeFilesById, then_catch.
    destruct (removeFiles env _ w) as [[x|e|v] w1]; discriminate.
  - intros n ns. unfold removeBucketsByName, then_catch.
    destruct (removeBuckets env _ w) as [[x|e|v] w1]; discriminate.
Qed.



Section Upload.
Variable env : Env.
Variable compressible : option string -> bool.

Lemma canUpload_resolved (user : string) (part : Part.t) (w : World)
    (s : IStorageStats.t) :
  fst (canUpload env user part w) = Resolved s ->
  canUpload env user part w = (Resolved s, log (stats_findOne_call user) w)
  /\ List.find (stats_of user) (stats w) = Some s.
Proof.
  rewrite canUpload_unfold.
  destruct (fault env (tick w)); [discriminate|].
  destruct (List.find _ _) as [s0|]; [|discriminate].
  cbn [fst]. intros H.
  assert (s0 = s) as ->.
  { revert H. do 2 (case Z.ltb_spec; intros ?; try discriminate).
    congruence. }
  rewrite H. auto.
Qed.

(** After the counters, an upload only saves the file entry and publishes
    the object: neither touches the stats or the buckets. *)
Lemma upload_tail_keeps_counters (fileID : string) (part : Part.t)
    (b : IBucketEntry.t) (user : string) (makePublic : bool) (w : World) :
  let tail :=
    then_catch (registerFile env fileID b part user makePublic)
      (fun file =>
         if makePublic
         then
           invoke env
             (gcs_file_makePublic_call (IBucketEntry.identifier b) fileID)
             (fun err =>
              match err with
              | Some err => reject err
              | None => resolve file
              end)
         else resolve file)
      reject in
  stats (snd (tail w)) = stats w /\ buckets (snd (tail w)) = buckets w.
Proof.
  cbv zeta. unfold registerFile. open_calls.
  destruct (fault env (tick w)); simpl; [auto|].
  destruct makePublic; simpl; [|auto].
  destruct (fault env _); simpl; auto.
Qed.

(** The counters after an upload whose check passed and whose stream
    completed: each moves by the declared [byteCount], unless its own
    update reported an error, which nobody looks at. *)
Lemma uploadStream_counters (part : Part.t) (b : IBucketEntry.t)
    (user : string) (makePublic : bool) (w : World) (s : IStorageStats.t) :
  fst (canUpload env user part w) = Resolved s ->
  upload_event env (S (tick w)) = complete ->
  let w' := snd (uploadStream env compressible part b user makePublic w) in
  buckets w'
  = match fault env (S (S (tick w))) with
    | Some _ => buckets w
    | None =>
        update_first (bucket_of b) (IBucketEntry.inc (Part.byteCount part))
                     (buckets w)
    end
  /\ stats w'
     = match fault env (S (S (S (tick w)))) with
       | Some _ => stats w
       | None =>
           update_first (stats_of user)
                        (IStorageStats.inc (Part.byteCount part) 1) (stats w)
       end.
Proof.
  intros Hcheck Hdone. cbv zeta.
  destruct (canUpload_resolved user part w s Hcheck) as [Hc _].
  unfold uploadStream. rewrite (then_catch_resolved _ _ _ _ _ _ Hc).
  unfold pipe_to_bucket, buckets_update, stats_update, invoke_eff, invoke.
  cbn beta iota. autorewrite with tick. rewrite Hdone.
  cbn beta iota. autorewrite with tick.
  destruct (fault env (S (S (tick w)))); simpl fmap; cbn iota;
    autorewrite with tick;
    destruct (fault env (S (S (S (tick w))))); simpl fmap; cbn iota;
    match goal with
    | |- context [then_catch ?p ?f ?g ?x] =>
        assert (Hk : stats (snd (then_catch p f g x)) = stats x
                     /\ buckets (snd (then_catch p f g x)) = buckets x)
          by exact (upload_tail_keeps_counters _ part b user makePublic x);
        destruct Hk as [Hs Hb]
    end;
    rewrite Hs, Hb; split; reflexivity.
Qed.
End Upload.

(** C1 (as stated) fails: part [notes] declares ten bytes and its stream
    delivers three; the accepted, completed upload raises the owner's
    [memoryUsed] from 100 to 110, not to 103. *)
Lemma upload_counts_declared_not_transferred :
  ~ upload_counts_transferred_bytes.
Proof.
  intros claim.
  destruct (claim Sample.calm Sample.plain Sample.notes Sample.photos "ann"
              true Sample.world Sample.ann) as [(s' & Hfind & Hmem & _) _].
  { repeat split; reflexivity. }
  vm_compute in Hfind. injection Hfind as <-.
  vm_compute in Hmem. discriminate Hmem.
Qed.

(** C1 (amended).  For an upload that passes the quota check, whose stream
    completes and whose two counter updates go through, [uploadStream]
    raises [memoryUsed] of the owner's stats and of the bucket entry each by
    exactly [part.byteCount], the byte count the part declares (the same
    number the quota check used), and raises [apiCallsUsed] by exactly 1,
    whatever registration and publishing do afterwards. *)
Theorem uploadStream_counts_declared_bytes (env : Env)
    (compressible : option string -> bool) (part : Part.t)
    (b : IBucketEntry.t) (user : string) (makePublic : bool) (w : World)
    (s : IStorageStats.t) :
  upload_accounted env part user w s ->
  counters_moved_by (Part.byteCount part) w
    (snd (uploadStream env compressible part b user makePublic w)) user b s.
Proof.
  intros (Hcheck & Hdone & Hbucket & Hstats).
  destruct (uploadStream_counters env compressible part b user makePublic w s
              Hcheck Hdone) as [Hb Hs].
  rewrite Hbucket in Hb. rewrite Hstats in Hs.
  destruct (canUpload_resolved env user part w s Hcheck) as [_ Hfound].
  split.
  - exists (IStorageStats.inc (Part.byteCount part) 1 s).
    rewrite Hs, find_update_first by (intros x Hx; exact Hx).
    rewrite Hfound. repeat split.
  - intros x Hx. exists (IBucketEntry.inc (Part.byteCount part) x).
    rewrite Hb, find_update_first by (intros y Hy; exact Hy).
    rewrite Hx. repeat split.
Qed.

Lemma uploadStream_counts_declared_bytes_witness :
  upload_accounted Sample.calm Sample.notes "ann" Sample.world Sample.ann
  /\ counters_moved_by 10 Sample.world
       (snd (uploadStream Sample.calm Sample.plain Sample.notes Sample.photos
                          "ann" true Sample.world))
       "ann" Sample.photos Sample.ann.
Proof.
  assert (H : upload_accounted Sample.calm Sample.notes "ann" Sample.world
                               Sample.ann)
    by (repeat split; reflexivity).
  split; [exact H|].
  exact (uploadStream_counts_declared_bytes Sample.calm Sample.plain
           Sample.notes Sample.photos "ann" true Sample.world Sample.ann H).
Defined.

(** C4 (as stated) fails in its last part: an object stored compressed,
    asked for by a client that accepts [deflate] only, goes through the
    unzipper and then through the deflater, two stages. *)
Lemma download_transcodes_in_two_stages : ~ download_at_most_one_stage.
Proof.
  intros claim.
  specialize (claim Sample.zipped (Sample.wants "deflate") Sample.blank
                    Sample.cat_png Sample.world [_unzipper; _deflater]
                    eq_refl).
  simpl in claim. lia.
Qed.

Example accepts_gzip_first :
  client_accepts (Sample.wants "gzip, deflate") = accepts_gzip
  /\ client_accepts (Sample.wants "deflate, gzip;q=0.5") = accepts_gzip
  /\ client_accepts (Sample.wants "deflate") = accepts_deflate
  /\ client_accepts (Sample.wants "identity") = accepts_neither
  /\ client_accepts (Sample.wants "xgzip") = accepts_neither
  /\ client_accepts (Request.mk ∅) = accepts_neither.
Proof. repeat split; reflexivity. Qed.

(** C4 (amended).  [downloadFile] answers a failed metadata read with
    status 500 and the error text, and otherwise follows the six-row
    table, [gzip] looked for before [deflate]: stored compressed and gzip
    accepted, the bytes as stored with [content-encoding: gzip]; stored raw
    and gzip accepted, the bytes as stored and no header; deflate accepted,
    [content-encoding: deflate] after the deflater, preceded by the unzipper
    when stored compressed; neither accepted, the unzipper when stored
    compressed and the bytes as stored when raw.  Two stages are applied in
    the compressed-to-deflate row and at most one in every other row. *)
Theorem downloadFile_decision_table (env : Env) (request : Request.t)
    (response : Response.t) (file : IFileEntry.t) (w : World) :
  let out := fst (downloadFile env request response file w) in
  match fault env (tick w) with
  | Some msg =>
      out = Response.mk 500 (Response.headers response)
                        (sent ("Error: " +:+ msg))
  | None =>
      let compressed := stored_compressed (object_meta env (tick w)) in
      let accepts := client_accepts request in
      let header := fst (decision_table compressed accepts) in
      let stages := snd (decision_table compressed accepts) in
      out = Response.pipe stages
              match header with
              | Some v => Response.setHeader "content-encoding" v response
              | None => response
              end
      /\ match compressed, accepts with
         | true, accepts_deflate => stages = [_unzipper; _deflater]
         | _, _ => (List.length stages <= 1)%nat
         end
  end.
Proof.
  cbv zeta. unfold downloadFile, client_accepts, stored_compressed.
  destruct (fault env (tick w)) as [msg|]; [reflexivity|].
  cbn [fst].
  assert (Hhdr : match Request.headers request !! "accept-encoding" with
                 | Some v => if String.eqb v "" then "" else v
                 | None => ""
                 end
                 = default "" (Request.headers request !! "accept-encoding")).
  { destruct (Request.headers request !! "accept-encoding") as [v|];
      [|reflexivity].
    simpl. destruct (String.eqb_spec v ""); congruence. }
  rewrite Hhdr.
  set (h := default "" (Request.headers request !! "accept-encoding")).
  destruct (match_word "gzip" h), (match_word "deflate" h),
    (Meta.metadata (object_meta env (tick w))) as [[[|]|]|];
    simpl; split; (reflexivity || lia).
Qed.

(** * Further properties of the code *)

Lemma update_first_none {A} (p : A -> bool) (f : A -> A) (l : list A) :
  List.find p l = None -> update_first p f l = l.
Proof.
  induction l as [|x l IH]; simpl; [reflexivity|].
  destruct (p x); [discriminate|]. intros H. rewrite (IH H). reflexivity.
Qed.

Section Limits.
Variable env : Env.

Lemma withinAPILimit_unfold (user : string) (w : World) :
  withinAPILimit env user w =
  (match fault env (tick w) with
   | Some msg => Rejected (JsError msg)
   | None =>
       match List.find (stats_of user) (stats w) with
       | None => Rejected (JsError ("Could not find the user " +:+ user))
       | Some s =>
           Resolved (IStorageStats.apiCallsUsed s + 1
                     <? IStorageStats.apiCallsAllocated s)%Z
       end
   end, log (stats_findOne_call user) w).
Proof.
  unfold withinAPILimit. open_calls.
  destruct (fault env (tick w)); simpl; [reflexivity|].
  destruct (List.find _ _); [|reflexivity].
  case Z.ltb_spec; reflexivity.
Qed.

Lemma incrementAPI_unfold (user : string) (w : World) :
  incrementAPI env user w =
  match fault env (tick w) with
  | Some msg => (Rejected (JsError msg), log (stats_update_call user 0 1) w)
  | None =>
      (Resolved true,
       set_stats (update_first (stats_of user) (IStorageStats.inc 0 1))
                 (log (stats_update_call user 0 1) w))
  end.
Proof.
  unfold incrementAPI. open_calls.
  destruct (fault env (tick w)); reflexivity.
Qed.
End Limits.

(** X1.  The upload gate is at least as strict as the API-call gate: in a
    world where [canUpload] resolves for a user, [withinAPILimit] resolves
    [true] for that user; and where [withinAPILimit] resolves [false],
    [canUpload] rejects, whatever the part. *)
Theorem canUpload_implies_withinAPILimit (env : Env) (user : string)
    (part : Part.t) (w : World) :
  (forall s, fst (canUpload env user part w) = Resolved s ->
             fst (withinAPILimit env user w) = Resolved true)
  /\ (fst (withinAPILimit env user w) = Resolved false ->
      is_rejected (fst (canUpload env user part w)) = true).
Proof.
  rewrite canUpload_unfold, withinAPILimit_unfold.
  destruct (fault env (tick w)); cbn [fst]; [split; [discriminate|reflexivity]|].
  destruct (List.find _ _) as [s0|]; cbn [fst];
    [|split; discriminate].
  split.
  - intros s. do 2 (case Z.ltb_spec; intros ?; try discriminate). reflexivity.
  - case (Z.ltb_spec (IStorageStats.apiCallsUsed s0 + 1));
      intros ? ?; try discriminate.
    case Z.ltb_spec; reflexivity.
Qed.

Lemma canUpload_implies_withinAPILimit_witness :
  fst (withinAPILimit Sample.calm "ann" Sample.world) = Resolved true
  /\ is_rejected (fst (canUpload Sample.calm "ann" Sample.notes
                                 Sample.world_spent)) = true.
Proof.
  split.
  - exact (proj1 (canUpload_implies_withinAPILimit Sample.calm "ann"
                    Sample.notes Sample.world) Sample.ann eq_refl).
  - exact (proj2 (canUpload_implies_withinAPILimit Sample.calm "ann"
                    Sample.notes Sample.world_spent) eq_refl).
Defined.

(** X2.  [incrementAPI] for a user without a stats record succeeds
    silently: the update matches nothing, reports no error, the promise
    resolves [true] and no counter anywhere has moved. *)
Theorem incrementAPI_missing_record_silent (env : Env) (user : string)
    (w : World) :
  fault env (tick w) = None ->
  List.find (stats_of user) (stats w) = None ->
  fst (incrementAPI env user w) = Resolved true
  /\ persisted (snd (incrementAPI env user w)) = persisted w
  /\ trace (snd (incrementAPI env user w))
     = (trace w ++ [stats_update_call user 0 1])%list.
Proof.
  intros Hok Hnone. rewrite incrementAPI_unfold, Hok.
  unfold persisted. simpl. rewrite (update_first_none _ _ _ Hnone).
  repeat split.
Qed.

Lemma incrementAPI_missing_record_silent_witness :
  fst (incrementAPI Sample.calm "bob" Sample.world) = Resolved true
  /\ persisted (snd (incrementAPI Sample.calm "bob" Sample.world))
     = persisted Sample.world.
Proof.
  destruct (incrementAPI_missing_record_silent Sample.calm "bob" Sample.world
              eq_refl eq_refl) as (Hr & Hp & _).
  split; [exact Hr|exact Hp].
Defined.

Section BucketLookup.
Variable env : Env.

Lemma getIBucket_unfold (bucket : string) (user : option string)
    (w : World) :
  getIBucket env bucket user w =
  let q :=
    if truthy user
    then BucketQuery.mkp None (Some bucket) None user
    else BucketQuery.mkp None None (Some bucket) None in
  (match fault env (tick w) with
   | Some msg => Rejected (JsError msg)
   | None => Resolved (List.find (BucketQuery.matchp q) (buckets w))
   end, log (buckets_findOne_call q) w).
Proof.
  unfold getIBucket. open_calls. cbv zeta.
  destruct (fault env (tick w)); simpl; [reflexivity|].
  destruct (List.find _ _); reflexivity.
Qed.
End BucketLookup.

(** X3.  [getIBucket] never turns a missing bucket into an error: when
    the driver answers, the promise resolves, with [null] exactly when no
    entry matches.  An entry it resolves with is in the collection and is
    the one asked for: by [name] and [user] when a non-empty user is given,
    by [identifier] otherwise (an empty user counts as none).  The lookup
    changes nothing. *)
Theorem getIBucket_sound (env : Env) (bucket : string)
    (user : option string) (w : World) :
  fault env (tick w) = None ->
  persisted (snd (getIBucket env bucket user w)) = persisted w
  /\ match fst (getIBucket env bucket user w) with
     | Resolved (Some b) =>
         In b (buckets w)
         /\ if truthy user
            then IBucketEntry.name b = bucket
                 /\ Some (IBucketEntry.user b) = user
            else IBucketEntry.identifier b = bucket
     | Resolved None =>
         forall b, In b (buckets w) ->
           if truthy user
           then ~ (IBucketEntry.name b = bucket
                   /\ Some (IBucketEntry.user b) = user)
           else IBucketEntry.identifier b <> bucket
     | _ => False
     end.
Proof.
  intros Hok. rewrite getIBucket_unfold, Hok. cbv zeta. cbn [fst snd].
  split; [reflexivity|].
  destruct (List.find _ _) as [b|] eqn:Hfind.
  - apply find_some in Hfind as [Hin Hm]. split; [exact Hin|].
    unfold BucketQuery.matchp in Hm.
    destruct user as [u|]; simpl in *.
    + destruct (String.eqb u ""); simpl in *.
      * rewrite !andb_true_r in Hm. apply String.eqb_eq in Hm. auto.
      * rewrite andb_true_r in Hm. apply andb_true_iff in Hm as [Hn Hu].
        apply String.eqb_eq in Hn, Hu. subst. auto.
    + rewrite !andb_true_r in Hm. apply String.eqb_eq in Hm. auto.
  - intros b Hin. pose proof (find_none _ _ Hfind b Hin) as Hm.
    unfold BucketQuery.matchp in Hm.
    destruct user as [u|]; simpl in *.
    + destruct (String.eqb u ""); simpl in *.
      * rewrite !andb_true_r in Hm. apply String.eqb_neq in Hm. auto.
      * rewrite andb_true_r in Hm. intros [Hn Hu]. injection Hu as Hu.
        subst. rewrite !String.eqb_refl in Hm. discriminate.
    + rewrite !andb_true_r in Hm. apply String.eqb_neq in Hm. auto.
Qed.

Lemma getIBucket_sound_witness :
  persisted (snd (getIBucket Sample.calm "photos" (Some "ann") Sample.world))
  = persisted Sample.world
  /\ In Sample.photos (buckets Sample.world)
  /\ IBucketEntry.name Sample.photos = "photos".
Proof.
  destruct (getIBucket_sound Sample.calm "photos" (Some "ann") Sample.world
              eq_refl) as (Hp & Hin & Hname & _).
  split; [exact Hp|]. split; [exact Hin|exact Hname].
Defined.

Section Trim.
Lemma strip_prefix_app (p r : string) : strip_prefix p (p +:+ r) = Some r.
Proof.
  induction p as [|a p IH]; simpl; [destruct r; reflexivity|].
  rewrite Ascii.eqb_refl. exact IH.
Qed.

Lemma strip_prefix_some (p s r : string) :
  strip_prefix p s = Some r -> s = p +:+ r.
Proof.
  revert s. induction p as [|a p IH]; intros s; simpl.
  - destruct s; intros H; injection H as <-; reflexivity.
  - destruct s as [|b s]; [discriminate|].
    destruct (Ascii.eqb_spec a b) as [<-|]; [|discriminate].
    intros H. rewrite (IH s H). reflexivity.
Qed.

Lemma append_cons (x : ascii) (a b : string) :
  String x a +:+ b = String x (a +:+ b).
Proof. reflexivity. Qed.

Lemma append_assoc (a b c : string) : (a +:+ b) +:+ c = a +:+ (b +:+ c).
Proof.
  induction a as [|x a IH]; [reflexivity|].
  rewrite !append_cons. f_equal. exact IH.
Qed.

Lemma length_append (a b : string) :
  String.length (a +:+ b) = (String.length a + String.length b)%nat.
Proof.
  induction a as [|x a IH]; [reflexivity|].
  rewrite append_cons. simpl. f_equal. exact IH.
Qed.

Lemma white_only_app (a b : string) :
  white_only a -> white_only b -> white_only (a +:+ b).
Proof.
  intros Ha Hb. induction Ha as [|c s Hc Hs IH]; [exact Hb|].
  rewrite append_assoc. apply white_only_cons; assumption.
Qed.

(** No white-space character starts with another one: the first that
    matches is the one the string starts with. *)
Lemma strip_any_white (c s : string) :
  In c white_space -> strip_any white_space (c +:+ s) = Some s.
Proof.
  unfold white_space. intros H.
  repeat (destruct H as [<-|H]; [destruct s; reflexivity|]).
  destruct H.
Qed.

Lemma white_space_nonempty (c : string) :
  In c white_space -> (1 <= String.length c)%nat.
Proof.
  unfold white_space. intros H.
  repeat (destruct H as [<-|H]; [simpl; lia|]).
  destruct H.
Qed.

Lemma strip_any_some (ws : list string) (s r : string) :
  strip_any ws s = Some r -> exists c, In c ws /\ s = c +:+ r.
Proof.
  induction ws as [|c ws IH]; simpl; [discriminate|].
  destruct (strip_prefix c s) as [r'|] eqn:Hc.
  - intros H. injection H as <-. exists c.
    split; [now left|]. now apply strip_prefix_some.
  - intros H. destruct (IH H) as (c' & Hin & ->). exists c'.
    split; [now right|reflexivity].
Qed.

Lemma trim_start_upto_S (n : nat) (s : string) :
  trim_start_upto (S n) s
  = match strip_any white_space s with
    | Some rest => trim_start_upto n rest
    | None => s
    end.
Proof. reflexivity. Qed.

(** What [trim_start] takes off is white space. *)
Lemma trim_start_upto_split (n : nat) (s : string) :
  exists ws, white_only ws /\ s = ws +:+ trim_start_upto n s.
Proof.
  revert s. induction n as [|n IH]; intros s.
  - exists "". split; [constructor|reflexivity].
  - rewrite trim_start_upto_S.
    destruct (strip_any white_space s) as [r|] eqn:Hs.
    + destruct (strip_any_some _ _ _ Hs) as (c & Hc & ->).
      destruct (IH r) as (ws & Hws & Hr).
      exists (c +:+ ws). split; [now constructor|].
      rewrite append_assoc. now rewrite <- Hr.
    + exists "". split; [constructor|reflexivity].
Qed.

(** The length of the string is enough to take all of it off. *)
Lemma trim_start_upto_white (s : string) :
  white_only s ->
  forall n, (String.length s <= n)%nat -> trim_start_upto n s = "".
Proof.
  induction 1 as [|c s Hc Hs IH]; intros n Hn.
  - destruct n; reflexivity.
  - rewrite length_append in Hn.
    pose proof (white_space_nonempty c Hc) as Hlen.
    destruct n as [|n]; [lia|]. rewrite trim_start_upto_S.
    rewrite (strip_any_white c s Hc). apply IH. lia.
Qed.

(** What [trim_end] takes off is white space. *)
Lemma trim_end_split (s : string) :
  exists ws, white_only ws /\ s = trim_end s +:+ ws.
Proof.
  induction s as [|c s (ws & Hws & Hs)].
  - exists "". split; [constructor|reflexivity].
  - change (trim_end (String c s))
      with (if existsb (String.eqb (String c (trim_end s))) white_space
            then "" else String c (trim_end s)).
    destruct (existsb (String.eqb (String c (trim_end s))) white_space)
      eqn:Hw.
    + apply existsb_exists in Hw as (x & Hx & He).
      apply String.eqb_eq in He. subst x.
      exists (String c (trim_end s) +:+ ws). split.
      * now constructor.
      * transitivity (String c (trim_end s +:+ ws)); [|reflexivity].
        f_equal. exact Hs.
    + exists ws. split; [exact Hws|]. rewrite append_cons.
      f_equal. exact Hs.
Qed.

(** The test of [removeFilesByBucket] holds of the strings of white space
    only, and of no other. *)
Lemma blank_name_white_only (s : string) :
  blank_name s = true <-> white_only s.
Proof.
  unfold blank_name, trim, trim_start. split.
  - intros H. apply orb_true_iff in H as [H|H]; apply String.eqb_eq in H.
    + subst s. constructor.
    + destruct (trim_start_upto_split (String.length s) s)
        as (ws1 & Hws1 & Hs).
      destruct (trim_end_split (trim_start_upto (String.length s) s))
        as (ws2 & Hws2 & Ht).
      rewrite H in Ht. change ("" +:+ ws2) with ws2 in Ht.
      rewrite Hs, Ht.
      now apply white_only_app.
  - intros H. rewrite (trim_start_upto_white s H _ (le_n _)). simpl.
    apply orb_true_r.
Qed.
End Trim.

(** X4.  [removeFilesByBucket] refuses a bucket name made of white space
    only, the empty name included: it rejects with the
    please-specify-a-valid-bucket error before any call is made.  White
    space is what [trim] strips, the no-break space, the line and
    paragraph separators and the byte order mark included.  For any other
    name the only rejection is that of a failed file query. *)
Theorem removeFilesByBucket_validates (env : Env) (bucket : string)
    (w : World) :
  (white_only bucket ->
   removeFilesByBucket env bucket w
   = (Rejected (JsError "Please specify a valid bucket"), w))
  /\ (~ white_only bucket ->
      is_rejected (fst (removeFilesByBucket env bucket w))
      = match fault env (tick w) with Some _ => true | None => false end).
Proof.
  pose proof (blank_name_white_only bucket) as Hb. split; intros H.
  - apply Hb in H. unfold removeFilesByBucket. fold (blank_name bucket).
    rewrite H. reflexivity.
  - rewrite removeFilesByBucket_rejects.
    destruct (blank_name bucket); [|reflexivity].
    exfalso. apply H, Hb. reflexivity.
Qed.

Section BatchSound.
Variable env : Env.

(** What a batch reports was among its entries. *)
Lemma settle_each_reports_entries {E} (delete : E -> M E)
    (ident : E -> string) (entries : list E) (acc : list string) (w : World)
    (ids : list string) :
  (forall e w x, fst (delete e w) = Resolved x -> x = e) ->
  fst (settle_each delete ident entries acc w) = Resolved ids ->
  forall id, In id ids ->
    In id acc \/ exists e, In e entries /\ ident e = id.
Proof.
  intros Hsame. revert acc w.
  induction entries as [|e rest IH]; intros acc w; simpl.
  - intros H id Hin. injection H as <-. auto.
  - pose proof (Hsame e w) as Hx.
    destruct (delete e w) as [[x|err|v] w1]; simpl in *.
    + intros H id Hin. rewrite (Hx x eq_refl) in H.
      destruct (IH _ _ H id Hin) as [Hacc|(e' & He' & Hid)].
      * apply in_app_or in Hacc as [Hacc|[<-|[]]]; eauto.
      * eauto.
    + intros H id Hin.
      destruct (IH _ _ H id Hin) as [Hacc|(e' & He' & Hid)]; eauto.
    + discriminate.
Qed.

Lemma removeFiles_reports_matches (q : FileQuery.t) (w : World)
    (ids : list string) :
  fst (removeFiles env q w) = Resolved ids ->
  forall id, In id ids ->
    exists f, In f (files w) /\ FileQuery.matches q f = true
              /\ IFileEntry.identifier f = id.
Proof.
  rewrite removeFiles_unfold. cbv zeta.
  destruct (fault env (tick w)); [discriminate|].
  destruct (fault env (S (tick w))); [discriminate|].
  destruct (List.filter (FileQuery.matches q) (files w)) as [|f fs] eqn:Hm.
  - intros H id Hin. injection H as <-. destruct Hin.
  - intros H id Hin.
    destruct (settle_each_reports_entries (deleteFile env)
                IFileEntry.identifier (f :: fs) [] _ ids
                (fun e w0 x => deleteFile_resolves_same env e w0 x) H id Hin)
      as [[]|(e & He & Hid)].
    rewrite <- Hm in He. apply filter_In in He as [Hin' Hq]. eauto.
Qed.

Lemma removeBuckets_reports_matches (q : BucketQuery.t) (w : World)
    (ids : list string) :
  fst (removeBuckets env q w) = Resolved ids ->
  forall id, In id ids ->
    exists b, In b (buckets w) /\ BucketQuery.matches q b = true
              /\ IBucketEntry.identifier b = id.
Proof.
  rewrite removeBuckets_unfold. cbv zeta.
  destruct (fault env (tick w)); [discriminate|].
  destruct (fault env (S (tick w))); [discriminate|].
  destruct (List.filter (BucketQuery.matches q) (buckets w)) as [|b bs] eqn:Hm.
  - intros H id Hin. injection H as <-. destruct Hin.
  - intros H id Hin.
    destruct (settle_each_reports_entries (deleteBucket env)
                IBucketEntry.identifier (b :: bs) [] _ ids
                (fun e w0 x => deleteBucket_resolves_same env e w0 x) H id Hin)
      as [[]|(e & He & Hid)].
    rewrite <- Hm in He. apply filter_In in He as [Hin' Hq]. eauto.
Qed.
End BatchSound.

(** X5.  [removeFilesById] reports only what was asked for: every
    identifier in the array it resolves with is one of the requested
    identifiers and is the identifier of a file entry of the collection,
    owned by the given user when a non-empty user is given. *)
Theorem removeFilesById_reports_requested (env : Env)
    (fileIDs : list string) (user : option string) (w : World)
    (removed : list string) :
  fst (removeFilesById env fileIDs user w) = Resolved (Some removed) ->
  forall id, In id removed ->
    In id fileIDs
    /\ exists f, In f (files w) /\ IFileEntry.identifier f = id
                 /\ (truthy user = true -> Some (IFileEntry.user f) = user).
Proof.
  destruct fileIDs as [|i0 ids]; [discriminate|].
  unfold removeFilesById, then_catch.
  set (q := FileQuery.mk _ _).
  destruct (removeFiles env q w) as [[r|e|v] w1] eqn:Hrun; try discriminate.
  simpl. intros H id Hin. injection H as <-.
  destruct (removeFiles_reports_matches env q w r) with (id := id)
    as (f & Hf & Hq & Hid); [rewrite Hrun; reflexivity|exact Hin|].
  unfold FileQuery.matches in Hq. subst q.
  cbn [FileQuery.or FileQuery.fields] in Hq.
  apply andb_true_iff in Hq as [Hor Hfields].
  apply existsb_exists in Hor as (p & Hp & Hmatch).
  apply in_map_iff in Hp as (i & <- & Hi).
  unfold FileQuery.matchp in Hmatch. simpl in Hmatch.
  rewrite !andb_true_r in Hmatch. apply String.eqb_eq in Hmatch.
  split; [rewrite <- Hid, <- Hmatch; exact Hi|].
  exists f. split; [exact Hf|]. split; [exact Hid|].
  intros Hu. rewrite Hu in Hfields.
  unfold FileQuery.matchp in Hfields. simpl in Hfields.
  destruct user as [u|]; [|discriminate]. simpl in Hfields.
  apply String.eqb_eq in Hfields. congruence.
Qed.

Lemma removeFilesById_reports_requested_witness :
  In "Zz9yXx8wVv7uTt6s" ["Kq3vXz81LmNo04Pa"; "Zz9yXx8wVv7uTt6s"; "nope"]
  /\ exists f, In f (files Sample.world)
               /\ IFileEntry.identifier f = "Zz9yXx8wVv7uTt6s"
               /\ (truthy (Some "ann") = true
                   -> Some (IFileEntry.user f) = Some "ann").
Proof.
  exact (removeFilesById_reports_requested (Sample.failing 3)
           ["Kq3vXz81LmNo04Pa"; "Zz9yXx8wVv7uTt6s"; "nope"] (Some "ann")
           Sample.world ["Zz9yXx8wVv7uTt6s"] eq_refl
           "Zz9yXx8wVv7uTt6s" (or_introl eq_refl)).
Defined.

(** X6.  [removeBucketsByName] reports only buckets of the given user that
    carry one of the given names: every identifier in the array it
    resolves with is the identifier of such a bucket entry. *)
Theorem removeBucketsByName_reports_owned (env : Env)
    (names : list string) (user : string) (w : World)
    (removed : list string) :
  fst (removeBucketsByName env names user w) = Resolved (Some removed) ->
  forall id, In id removed ->
    exists b, In b (buckets w) /\ IBucketEntry.identifier b = id
              /\ IBucketEntry.user b = user
              /\ In (IBucketEntry.name b) names.
Proof.
  destruct names as [|n0 ns]; [discriminate|].
  unfold removeBucketsByName, then_catch.
  set (q := BucketQuery.mk _ _).
  destruct (removeBuckets env q w) as [[r|e|v] w1] eqn:Hrun; try discriminate.
  simpl. intros H id Hin. injection H as <-.
  destruct (removeBuckets_reports_matches env q w r) with (id := id)
    as (b & Hb & Hq & Hid); [rewrite Hrun; reflexivity|exact Hin|].
  unfold BucketQuery.matches in Hq. subst q.
  cbn [BucketQuery.or BucketQuery.fields] in Hq.
  apply andb_true_iff in Hq as [Hor Hfields].
  apply existsb_exists in Hor as (p & Hp & Hmatch).
  apply in_map_iff in Hp as (n & <- & Hn).
  unfold BucketQuery.matchp in Hmatch, Hfields. simpl in Hmatch, Hfields.
  rewrite !andb_true_r in Hmatch. apply String.eqb_eq in Hmatch, Hfields.
  exists b. split; [exact Hb|]. split; [exact Hid|].
  split; [congruence|]. rewrite <- Hmatch. exact Hn.
Qed.

Lemma removeBucketsByName_reports_owned_witness :
  exists b, In b (buckets Sample.world)
            /\ IBucketEntry.identifier b = "webinate-bucket-a1b2c3d4"
            /\ IBucketEntry.user b = "ann"
            /\ In (IBucketEntry.name b) ["photos"; "music"].
Proof.
  exact (removeBucketsByName_reports_owned Sample.calm ["photos"; "music"]
           "ann" Sample.world ["webinate-bucket-a1b2c3d4"] eq_refl
           "webinate-bucket-a1b2c3d4" (or_introl eq_refl)).
Defined.

Section VisibilityPaths.
Variable env : Env.

Lemma change_visibility_unfold (remote : Call) (flag : bool)
    (file : IFileEntry.t) (w : World) :
  change_visibility env remote flag file w =
  let owner := IFileEntry.user file in
  let w1 := log (stats_findOne_call owner) w in
  let w2 := log (stats_update_call owner 0 1) w1 in
  let w3 :=
    log remote
        (set_stats (update_first (stats_of owner) (IStorageStats.inc 0 1))
                   w2) in
  let w4 :=
    log (files_update_isPublic_call (IFileEntry.bucketId file)
                                    (IFileEntry.identifier file) flag) w3 in
  match fault env (tick w) with
  | Some _ => (Pending not_a_constructor, w1)
  | None =>
      match List.find (stats_of owner) (stats w) with
      | None => (Pending not_a_constructor, w1)
      | Some s =>
          if (IStorageStats.apiCallsUsed s + 1
              <? IStorageStats.apiCallsAllocated s)%Z
          then
            match fault env (S (tick w)) with
            | Some _ => (Pending not_a_constructor, w2)
            | None =>
                match fault env (S (S (tick w))) with
                | Some msg => (Rejected (JsError msg), w3)
                | None =>
                    match fault env (S (S (S (tick w)))) with
                    | Some msg => (Rejected (JsError msg), w4)
                    | None =>
                        (Resolved file,
                         set_files
                           (update_first (file_key file)
                                         (IFileEntry.set_isPublic flag)) w4)
                    end
                end
            end
          else (Pending not_a_constructor, w1)
      end
  end.
Proof.
  unfold change_visibility. cbv zeta.
  unfold then_catch at 1. rewrite withinAPILimit_unfold.
  destruct (fault env (tick w)); [reflexivity|].
  destruct (List.find _ _) as [s|]; [|reflexivity].
  case Z.ltb_spec; intros Hlim; cbn [negb]; [|reflexivity].
  unfold then_catch. rewrite incrementAPI_unfold. autorewrite with tick.
  destruct (fault env (S (tick w))); [reflexivity|].
  open_calls. simpl fmap.
  destruct (fault env (S (S (tick w)))); simpl; [reflexivity|].
  autorewrite with tick.
  destruct (fault env (S (S (S (tick w))))); reflexivity.
Qed.
End VisibilityPaths.

(** X7.  A visibility change that goes through (the owner has a stats
    record with more than one call left and the four calls succeed) asks,
    in this order, for the limit lookup, the [apiCallsUsed] increment, the
    remote change and the entry update.  The stored entry then carries the
    new flag and the owner is charged one call, still below the
    allocation.  The promise resolves with the entry it was given, not
    with the stored one: its [isPublic] is whatever the caller passed. *)
Theorem visibility_change_succeeds (env : Env) (file : IFileEntry.t)
    (w : World) (s : IStorageStats.t) :
  (forall n, (tick w <= n < tick w + 4)%nat -> fault env n = None) ->
  List.find (stats_of (IFileEntry.user file)) (stats w) = Some s ->
  (IStorageStats.apiCallsUsed s + 1 < IStorageStats.apiCallsAllocated s)%Z ->
  let owner := IFileEntry.user file in
  let after (run : M IFileEntry.t) (remote : Call) (flag : bool) :=
    fst (run w) = Resolved file
    /\ trace (snd (run w))
       = (trace w ++ [stats_findOne_call owner; stats_update_call owner 0 1;
                      remote;
                      files_update_isPublic_call (IFileEntry.bucketId file)
                        (IFileEntry.identifier file) flag])%list
    /\ (forall f, List.find (file_key file) (files w) = Some f ->
          List.find (file_key file) (files (snd (run w)))
          = Some (IFileEntry.set_isPublic flag f))
    /\ (exists s', List.find (stats_of owner) (stats (snd (run w))) = Some s'
          /\ IStorageStats.apiCallsUsed s'
             = (IStorageStats.apiCallsUsed s + 1)%Z
          /\ (IStorageStats.apiCallsUsed s'
              < IStorageStats.apiCallsAllocated s')%Z) in
  after (makeFilePublic env file)
        (gcs_file_makePublic_call (IFileEntry.bucketId file)
                                  (IFileEntry.identifier file)) true
  /\ after (makeFilePrivate env file)
           (gcs_file_makePrivate_call (IFileEntry.bucketId file)
                                      (IFileEntry.identifier file)) false.
Proof.
  intros Hok Hs Hlim owner after. subst after. cbv beta.
  unfold makeFilePublic, makeFilePrivate.
  rewrite !change_visibility_unfold. cbv zeta.
  rewrite (Hok (tick w)), (Hok (S (tick w))), (Hok (S (S (tick w)))),
    (Hok (S (S (S (tick w))))) by lia.
  rewrite Hs. fold owner. fold owner in Hs.
  destruct (Z.ltb_spec (IStorageStats.apiCallsUsed s + 1)
                       (IStorageStats.apiCallsAllocated s)); [|lia].
  assert (Hst : List.find (stats_of owner)
            (update_first (stats_of owner) (IStorageStats.inc 0 1) (stats w))
            = Some (IStorageStats.inc 0 1 s)).
  { rewrite find_update_first by (intros x Hx; exact Hx).
    rewrite Hs. reflexivity. }
  assert (Hkey : forall flag f,
            List.find (file_key file) (files w) = Some f ->
            List.find (file_key file)
              (update_first (file_key file) (IFileEntry.set_isPublic flag)
                            (files w))
            = Some (IFileEntry.set_isPublic flag f)).
  { intros flag f Hf.
    rewrite find_update_first by (intros x Hx; exact Hx).
    rewrite Hf. reflexivity. }
  split; simpl; rewrite <- !app_assoc;
    (split; [reflexivity|]); (split; [reflexivity|]);
    (split; [apply Hkey|]);
    exists (IStorageStats.inc 0 1 s); simpl; auto.
Qed.

Lemma visibility_change_succeeds_witness :
  fst (makeFilePrivate Sample.calm Sample.cat_png Sample.world)
  = Resolved Sample.cat_png
  /\ List.find (file_key Sample.cat_png)
       (files (snd (makeFilePrivate Sample.calm Sample.cat_png Sample.world)))
     = Some (IFileEntry.set_isPublic false Sample.cat_png).
Proof.
  destruct (visibility_change_succeeds Sample.calm Sample.cat_png
              Sample.world Sample.ann (fun _ _ => eq_refl) eq_refl)
    as [_ (Hr & _ & Hf & _)].
  { simpl. lia. }
  split; [exact Hr|]. exact (Hf Sample.cat_png eq_refl).
Defined.

(** X8.  How a visibility change fails.  A failure before the charge
    has been made (the limit lookup reports an error, the owner has no
    stats record, the limit is reached, or the [apiCallsUsed] increment
    fails) leaves the promise of [makeFilePublic] and of [makeFilePrivate]
    unsettled: the handler evaluates [new err], which throws.  Stats and
    file entries are then as before and no call has been made to the
    remote store.  Once the charge is made, a failure of the remote call
    or of the entry update rejects with the driver's error; the owner's
    [apiCallsUsed] update has been applied and the file entries are as
    before.  When nothing fails the promise resolves with the entry it
    was given. *)
Theorem visibility_change_failures (env : Env) (file : IFileEntry.t)
    (w : World) :
  let owner := IFileEntry.user file in
  let unsettled (run : Promise IFileEntry.t * World) :=
    fst run = Pending not_a_constructor
    /\ stats (snd run) = stats w
    /\ files (snd run) = files w
    /\ existsb is_remote (trace (snd run)) = existsb is_remote (trace w) in
  let rejected (msg : string) (run : Promise IFileEntry.t * World) :=
    fst run = Rejected (JsError msg)
    /\ stats (snd run)
       = update_first (stats_of owner) (IStorageStats.inc 0 1) (stats w)
    /\ files (snd run) = files w in
  let outcome (run : Promise IFileEntry.t * World) :=
    match fault env (tick w) with
    | Some _ => unsettled run
    | None =>
        match List.find (stats_of owner) (stats w) with
        | None => unsettled run
        | Some s =>
            if (IStorageStats.apiCallsUsed s + 1
                <? IStorageStats.apiCallsAllocated s)%Z
            then
              match fault env (S (tick w)) with
              | Some _ => unsettled run
              | None =>
                  match fault env (S (S (tick w))),
                        fault env (S (S (S (tick w)))) with
                  | Some msg, _ => rejected msg run
                  | None, Some msg => rejected msg run
                  | None, None => fst run = Resolved file
                  end
              end
            else unsettled run
        end
    end in
  outcome (makeFilePublic env file w) /\ outcome (makeFilePrivate env file w).
Proof.
  cbv zeta. unfold makeFilePublic, makeFilePrivate.
  rewrite !change_visibility_unfold. cbv zeta.
  destruct (fault env (tick w)).
  { simpl. rewrite existsb_app. simpl. rewrite !orb_false_r. auto 8. }
  destruct (List.find _ _) as [s|].
  2:{ simpl. rewrite existsb_app. simpl. rewrite !orb_false_r. auto 8. }
  case Z.ltb_spec; intros Hlim.
  2:{ simpl. rewrite existsb_app. simpl. rewrite !orb_false_r. auto 8. }
  destruct (fault env (S (tick w))).
  { simpl. rewrite !existsb_app. simpl. rewrite !orb_false_r. auto 8. }
  destruct (fault env (S (S (tick w)))); [simpl; auto 8|].
  destruct (fault env (S (S (S (tick w))))); simpl; auto 8.
Qed.

Section UploadPaths.
Variable env : Env.
Variable compressible : option string -> bool.

(** An upload whose check passed, up to the event its streams raise. *)
Lemma uploadStream_after_check (part : Part.t) (b : IBucketEntry.t)
    (user : string) (makePublic : bool) (w : World) (s : IStorageStats.t) :
  fst (canUpload env user part w) = Resolved s ->
  uploadStream env compressible part b user makePublic w =
  let bucket := IBucketEntry.identifier b in
  let fileID := random_string env (S (tick w)) 16 in
  let type := Part.headers part !! "content-type" in
  let w2 :=
    log (gcs_file_write_call bucket fileID (compressible type)
                             (Part.stream part))
        (log (stats_findOne_call user) w) in
  match upload_event env (S (tick w)) with
  | part_error msg =>
      (Rejected (JsError
         match fault env (S (S (tick w))) with
         | Some bucketErr =>
             "While uploading a user part an error occurred while cleaning the bucket: "
             +:+ toString (JsError bucketErr)
         | None => "Could not upload a user part: " +:+ toString (JsError msg)
         end),
       log (gcs_file_delete_call bucket fileID) w2)
  | stream_error msg =>
      (Rejected (JsError ("Could not upload the file '" +:+ Part.filename part
                          +:+ "' to bucket: " +:+ toString (JsError msg))),
       w2)
  | complete =>
      let w3 :=
        match fault env (S (S (tick w))) with
        | Some _ => fun x => x
        | None =>
            set_buckets
              (update_first (bucket_of b)
                            (IBucketEntry.inc (Part.byteCount part)))
        end (log (buckets_update_call bucket (Part.byteCount part)) w2) in
      let w4 :=
        match fault env (S (S (S (tick w)))) with
        | Some _ => fun x => x
        | None =>
            set_stats
              (update_first (stats_of user)
                            (IStorageStats.inc (Part.byteCount part) 1))
        end (log (stats_update_call user (Part.byteCount part) 1) w3) in
      let entry :=
        IFileEntry.mk None (Part.filename part) user fileID bucket
          (IBucketEntry.name b) (now env (S (S (S (S (tick w)))))) 0
          (Part.byteCount part) makePublic
          ("https://storage.googleapis.com/" +:+ bucket +:+ "/" +:+ fileID)
          type in
      let w5 := log (files_save_call entry) w4 in
      match fault env (S (S (S (S (tick w))))) with
      | Some msg =>
          (Rejected (JsError ("Could not save user file entry: "
                              +:+ toString (JsError msg))), w5)
      | None =>
          let stored := IFileEntry.with_id (next_id w) entry in
          let w6 := bump_id (set_files (fun l => (l ++ [stored])%list) w5) in
          if makePublic
          then
            (match fault env (S (S (S (S (S (tick w)))))) with
             | Some msg => Rejected (JsError msg)
             | None => Resolved stored
             end, log (gcs_file_makePublic_call bucket fileID) w6)
          else (Resolved stored, w6)
      end
  end.
Proof.
  intros Hcheck.
  destruct (canUpload_resolved env user part w s Hcheck) as [Hc _].
  unfold uploadStream. rewrite (then_catch_resolved _ _ _ _ _ _ Hc).
  unfold generateRandString, registerFile. open_calls. cbv zeta.
  destruct (upload_event env (S (tick w))) as [msg|msg|]; cbn beta iota;
    autorewrite with tick.
  - destruct (fault env (S (S (tick w)))); reflexivity.
  - reflexivity.
  - destruct (fault env (S (S (tick w)))); simpl fmap; cbn iota;
      autorewrite with tick;
      destruct (fault env (S (S (S (tick w))))); simpl fmap; cbn iota;
      autorewrite with tick;
      (destruct (fault env (S (S (S (S (tick w)))))); simpl fmap; cbn iota;
       [reflexivity|]);
      (destruct makePublic; [|reflexivity]);
      cbn beta iota; autorewrite with tick;
      destruct (fault env (S (S (S (S (S (tick w))))))); reflexivity.
Qed.
End UploadPaths.

(** X9.  An upload that passed the quota check and whose streams raise an
    error instead of completing rejects and stores nothing: stats, buckets
    and files are as before.  After an error of the part the remote object
    is asked to be deleted, and if that deletion fails its error is the one
    reported, the part's error being dropped; after an error of the write
    stream no deletion is asked for. *)
Theorem uploadStream_incomplete_stores_nothing (env : Env)
    (compressible : option string -> bool) (part : Part.t)
    (b : IBucketEntry.t) (user : string) (makePublic : bool) (w : World)
    (s : IStorageStats.t) :
  fst (canUpload env user part w) = Resolved s ->
  upload_event env (S (tick w)) <> complete ->
  let run := uploadStream env compressible part b user makePublic w in
  let bucket := IBucketEntry.identifier b in
  let fileID := random_string env (S (tick w)) 16 in
  let written :=
    gcs_file_write_call bucket fileID
      (compressible (Part.headers part !! "content-type"))
      (Part.stream part) in
  is_rejected (fst run) = true
  /\ persisted (snd run) = persisted w
  /\ match upload_event env (S (tick w)) with
     | part_error msg =>
         trace (snd run)
         = (trace w ++ [stats_findOne_call user; written;
                        gcs_file_delete_call bucket fileID])%list
         /\ match fault env (S (S (tick w))) with
            | Some bucketErr =>
                fst run = Rejected (JsError
                  ("While uploading a user part an error occurred while cleaning the bucket: Error: "
                   +:+ bucketErr))
            | None =>
                fst run = Rejected (JsError
                  ("Could not upload a user part: Error: " +:+ msg))
            end
     | stream_error msg =>
         trace (snd run) = (trace w ++ [stats_findOne_call user; written])%list
     | complete => True
     end.
Proof.
  intros Hcheck Hevent. cbv zeta.
  rewrite (uploadStream_after_check env compressible part b user makePublic
             w s Hcheck). cbv zeta.
  destruct (upload_event env (S (tick w))) as [msg|msg|]; [| |congruence].
  - simpl. rewrite <- !app_assoc.
    destruct (fault env (S (S (tick w)))); repeat split.
  - simpl. rewrite <- !app_assoc. repeat split.
Qed.

Lemma uploadStream_incomplete_stores_nothing_witness :
  is_rejected
    (fst (uploadStream
            (mkEnv (fun _ => None) (fun _ => stream_error "EPIPE")
                   (object_meta Sample.calm) (random_string Sample.calm)
                   (now Sample.calm))
            Sample.plain Sample.notes Sample.photos "ann" true Sample.world))
  = true
  /\ persisted
       (snd (uploadStream
               (mkEnv (fun _ => None) (fun _ => stream_error "EPIPE")
                      (object_meta Sample.calm) (random_string Sample.calm)
                      (now Sample.calm))
               Sample.plain Sample.notes Sample.photos "ann" true
               Sample.world))
     = persisted Sample.world.
Proof.
  destruct (uploadStream_incomplete_stores_nothing
              (mkEnv (fun _ => None) (fun _ => stream_error "EPIPE")
                     (object_meta Sample.calm) (random_string Sample.calm)
                     (now Sample.calm))
              Sample.plain Sample.notes Sample.photos "ann" true Sample.world
              Sample.ann eq_refl) as (Hr & Hp & _).
  { discriminate. }
  split; [exact Hr|exact Hp].
Defined.



Section FreshIds.
Lemma ltb_next (n : nat) : (n <? S n)%nat = true.
Proof. apply Nat.ltb_lt. lia. Qed.

Lemma id_below_S (n : nat) (i : option nat) :
  id_below n i = true -> id_below (S n) i = true.
Proof.
  destruct i as [k|]; simpl; [|discriminate].
  intros H. apply Nat.ltb_lt in H. apply Nat.ltb_lt. lia.
Qed.

Lemma forallb_id_below_S {A} (id : A -> option nat) (n : nat) (l : list A) :
  forallb (fun x => id_below n (id x)) l = true ->
  forallb (fun x => id_below (S n) (id x)) l = true.
Proof.
  induction l as [|x l IH]; simpl; [reflexivity|].
  intros H. apply andb_true_iff in H as [Hx Hl].
  rewrite (id_below_S _ _ Hx), (IH Hl). reflexivity.
Qed.

Lemma forallb_update_first {A} (P p : A -> bool) (f : A -> A) (l : list A) :
  (forall x, P (f x) = P x) ->
  forallb P (update_first p f l) = forallb P l.
Proof.
  intros Hf. induction l as [|x l IH]; simpl; [reflexivity|].
  destruct (p x); simpl; [rewrite Hf; reflexivity|].
  rewrite IH. reflexivity.
Qed.

(** The [_id] handed out next is borne by no stored entry. *)
Lemma forallb_id_below_fresh {A} (id : A -> option nat) (n : nat)
    (l : list A) (x : A) :
  forallb (fun x => id_below n (id x)) l = true ->
  In x l -> id x <> Some n.
Proof.
  intros Hall Hin Heq.
  pose proof (proj1 (forallb_forall _ l) Hall x Hin) as Hx.
  simpl in Hx. rewrite Heq in Hx. simpl in Hx.
  apply Nat.ltb_lt in Hx. lia.
Qed.
End FreshIds.

(** X11.  Registration is not undone when publishing fails: when an
    accepted, completed upload asked to be public saves its entry and the
    remote [makePublic] then fails, the promise rejects with the remote
    error while the entry stays in the collection, with [isPublic] set
    and [size] the declared [byteCount], under the [_id] the database
    handed out.  That [_id] is fresh: in a world whose stored entries all
    have an [_id] below the next one to be handed out, no file entry
    stored before has it, and the world the upload leaves is again such a
    world. *)
Theorem uploadStream_failed_publish_keeps_entry (env : Env)
    (compressible : option string -> bool) (part : Part.t)
    (b : IBucketEntry.t) (user : string) (w : World) (s : IStorageStats.t)
    (msg : string) :
  upload_accounted env part user w s ->
  fault env (S (S (S (S (tick w))))) = None ->
  fault env (S (S (S (S (S (tick w)))))) = Some msg ->
  let run := uploadStream env compressible part b user true w in
  fst run = Rejected (JsError msg)
  /\ exists stored,
       files (snd run) = (files w ++ [stored])%list
       /\ IFileEntry._id stored = Some (next_id w)
       /\ IFileEntry.isPublic stored = true
       /\ IFileEntry.size stored = Part.byteCount part
       /\ IFileEntry.user stored = user
       /\ IFileEntry.bucketId stored = IBucketEntry.identifier b
       /\ (ids_below w = true ->
           (forall f, In f (files w) ->
              IFileEntry._id f <> IFileEntry._id stored)
           /\ ids_below (snd run) = true).
Proof.
  intros (Hcheck & Hdone & Hbucket & Hstats) Hsave Hpublish. cbv zeta.
  rewrite (uploadStream_after_check env compressible part b user true
             w s Hcheck). cbv zeta.
  rewrite Hdone, Hbucket, Hstats, Hsave, Hpublish. cbn [fst snd].
  split; [reflexivity|]. eexists. simpl.
  do 6 (split; [reflexivity|]).
  unfold ids_below. simpl. intros Hids.
  apply andb_true_iff in Hids as [Hfiles Hbuckets]. split.
  - intros f Hin.
    exact (forallb_id_below_fresh IFileEntry._id _ _ f Hfiles Hin).
  - rewrite forallb_app. simpl. rewrite ltb_next. simpl.
    rewrite (forallb_id_below_S IFileEntry._id _ _ Hfiles). simpl.
    rewrite forallb_update_first by (intros x; reflexivity).
    exact (forallb_id_below_S IBucketEntry._id _ _ Hbuckets).
Qed.

Lemma uploadStream_failed_publish_keeps_entry_witness :
  fst (uploadStream (Sample.failing 5) Sample.plain Sample.notes
                    Sample.photos "ann" true Sample.world)
  = Rejected (JsError "ECONNRESET")
  /\ List.length
       (files (snd (uploadStream (Sample.failing 5) Sample.plain Sample.notes
                                 Sample.photos "ann" true Sample.world)))
     = 3%nat
  /\ ids_below
       (snd (uploadStream (Sample.failing 5) Sample.plain Sample.notes
                          Sample.photos "ann" true Sample.world))
     = true.
Proof.
  assert (H : upload_accounted (Sample.failing 5) Sample.notes "ann"
                               Sample.world Sample.ann)
    by (repeat split; reflexivity).
  destruct (uploadStream_failed_publish_keeps_entry (Sample.failing 5)
              Sample.plain Sample.notes Sample.photos "ann" Sample.world
              Sample.ann "ECONNRESET" H eq_refl eq_refl)
    as (Hr & stored & Hf & _ & _ & _ & _ & _ & Hfresh).
  split; [exact Hr|]. split; [rewrite Hf; reflexivity|].
  exact (proj2 (Hfresh eq_refl)).
Defined.

Section UpdateFirst.
Context {A : Type}.

Lemma update_first_twice (p : A -> bool) (f g : A -> A) (l : list A) :
  (forall x, p x = true -> p (f x) = true) ->
  update_first p g (update_first p f l)
  = update_first p (fun x => g (f x)) l.
Proof.
  intros Hkey. induction l as [|x l IH]; simpl; [reflexivity|].
  destruct (p x) eqn:Hx; simpl.
  - rewrite (Hkey x Hx). reflexivity.
  - rewrite Hx, IH. reflexivity.
Qed.

Lemma update_first_ext (p q : A -> bool) (f g : A -> A) (l : list A) :
  (forall x, p x = q x) -> (forall x, p x = true -> f x = g x) ->
  update_first p f l = update_first q g l.
Proof.
  intros Hp Hf. induction l as [|x l IH]; simpl; [reflexivity|].
  rewrite <- Hp. destruct (p x) eqn:Hx.
  - rewrite (Hf x Hx). reflexivity.
  - rewrite IH. reflexivity.
Qed.

Lemma update_first_same (p : A -> bool) (f : A -> A) (l : list A) :
  (forall x, p x = true -> f x = x) -> update_first p f l = l.
Proof.
  intros Hf. induction l as [|x l IH]; simpl; [reflexivity|].
  destruct (p x) eqn:Hx.
  - rewrite (Hf x Hx). reflexivity.
  - rewrite IH. reflexivity.
Qed.

Lemma find_same_predicate (p q : A -> bool) (l : list A) :
  (forall x, p x = q x) -> List.find p l = List.find q l.
Proof.
  intros H. induction l as [|x l IH]; simpl; [reflexivity|].
  rewrite H, IH. reflexivity.
Qed.

End UpdateFirst.



Section DeleteSuccess.
Variable env : Env.

(** A deletion whose five calls all succeed. *)
Lemma deleteFile_success (f : IFileEntry.t) (w : World)
    (b : IBucketEntry.t) :
  (forall n, (tick w <= n < tick w + 5)%nat -> fault env n = None) ->
  List.find (BucketQuery.matchp (deleteFile_lookup f)) (buckets w) = Some b ->
  fst (deleteFile env f w) = Resolved f
  /\ files (snd (deleteFile env f w))
     = remove_all (fun x => id_eqb (IFileEntry._id f) (IFileEntry._id x))
                  (files w)
  /\ buckets (snd (deleteFile env f w))
     = update_first (bucket_of b) (IBucketEntry.inc (- IFileEntry.size f))
                    (buckets w)
  /\ stats (snd (deleteFile env f w))
     = update_first (stats_of (IBucketEntry.user b))
                    (IStorageStats.inc (- IFileEntry.size f) 1) (stats w)
  /\ next_id (snd (deleteFile env f w)) = next_id w
  /\ tick (snd (deleteFile env f w)) = (tick w + 5)%nat.
Proof.
  intros Hok Hb. rewrite deleteFile_unfold. cbv zeta.
  rewrite (Hok (tick w)) by lia. rewrite Hb.
  unfold deleteFile_steps, run_steps. autorewrite with tick.
  rewrite (Hok (S (tick w))) by lia. autorewrite with tick.
  rewrite (Hok (S (S (tick w)))) by lia. autorewrite with tick.
  rewrite (Hok (S (S (S (tick w))))) by lia. autorewrite with tick.
  rewrite (Hok (S (S (S (S (tick w)))))) by lia.
  cbn [fst snd]. autorewrite with tick.
  repeat split. lia.
Qed.
End DeleteSuccess.



Section StatsEvolve.
Lemma stats_evolve_refl (l : list IStorageStats.t) : stats_evolve l l.
Proof.
  induction l as [|s l IH]; constructor; [|exact IH].
  unfold same_quota. repeat split; lia.
Qed.

Lemma stats_evolve_trans (l1 l2 l3 : list IStorageStats.t) :
  stats_evolve l1 l2 -> stats_evolve l2 l3 -> stats_evolve l1 l3.
Proof.
  intros H12. revert l3. induction H12 as [|a b l1 l2 Hab _ IH];
    intros l3 H23; inversion H23; subst; constructor.
  - destruct Hab as (? & ? & ? & ?).
    match goal with H : same_quota b _ |- _ =>
      destruct H as (? & ? & ? & ?) end.
    unfold same_quota. repeat split; try congruence; lia.
  - apply IH. assumption.
Qed.

Lemma stats_evolve_update (u : string) (dm dc : Z)
    (l : list IStorageStats.t) :
  (0 <= dc)%Z ->
  stats_evolve l (update_first (stats_of u) (IStorageStats.inc dm dc) l).
Proof.
  intros Hdc. induction l as [|s l IH]; simpl; [constructor|].
  destruct (stats_of u s).
  - constructor; [|apply stats_evolve_refl].
    unfold same_quota. simpl. repeat split; lia.
  - constructor; [|exact IH]. unfold same_quota. repeat split; lia.
Qed.

Variable env : Env.

Lemma deleteFile_stats_evolve (f : IFileEntry.t) (w : World) :
  stats_evolve (stats w) (stats (snd (deleteFile env f w))).
Proof.
  rewrite deleteFile_unfold. cbv zeta.
  destruct (fault env (tick w)); [apply stats_evolve_refl|].
  destruct (List.find _ _) as [b|]; [|apply stats_evolve_refl].
  unfold deleteFile_steps, run_steps. autorewrite with tick.
  destruct (fault env (S (tick w))); [apply stats_evolve_refl|].
  autorewrite with tick.
  destruct (fault env (S (S (tick w)))); [apply stats_evolve_refl|].
  autorewrite with tick.
  destruct (fault env (S (S (S (tick w))))); [apply stats_evolve_refl|].
  autorewrite with tick.
  destruct (fault env (S (S (S (S (tick w))))));
    [apply stats_evolve_refl|].
  simpl. apply stats_evolve_update. lia.
Qed.

Lemma settle_each_stats_evolve {E} (delete : E -> M E)
    (ident : E -> string) (entries : list E) (acc : list string)
    (w : World) :
  (forall e w, stats_evolve (stats w) (stats (snd (delete e w)))) ->
  stats_evolve (stats w)
               (stats (snd (settle_each delete ident entries acc w))).
Proof.
  intros Hd. revert acc w.
  induction entries as [|e rest IH]; intros acc w; simpl;
    [apply stats_evolve_refl|].
  pose proof (Hd e w) as He.
  destruct (delete e w) as [[x|err|v] w1]; simpl in *;
    eapply stats_evolve_trans; eauto.
Qed.

Lemma removeFiles_stats_evolve (q : FileQuery.t) (w : World) :
  stats_evolve (stats w) (stats (snd (removeFiles env q w))).
Proof.
  rewrite removeFiles_unfold. cbv zeta.
  destruct (fault env (tick w)); [apply stats_evolve_refl|].
  destruct (fault env (S (tick w))); [apply stats_evolve_refl|].
  destruct (List.filter _ _) as [|f fs]; [apply stats_evolve_refl|].
  exact (settle_each_stats_evolve (deleteFile env) IFileEntry.identifier
           (f :: fs) []
           (log cursor_toArray_call (log (files_find_call q) w))
           deleteFile_stats_evolve).
Qed.

Lemma deleteBucket_stats_evolve (b : IBucketEntry.t) (w : World) :
  stats_evolve (stats w) (stats (snd (deleteBucket env b w))).
Proof.
  rewrite deleteBucket_unfold. cbv zeta.
  assert (Hphase : stats_evolve (stats w)
            (stats (snd (removeFilesByBucket env (IBucketEntry.identifier b)
                                             w)))).
  { unfold removeFilesByBucket.
    destruct (_ || _); [apply stats_evolve_refl|].
    apply removeFiles_stats_evolve. }
  destruct (removeFilesByBucket env (IBucketEntry.identifier b) w)
    as [[ids|e|v] w1]; cbn [fst snd] in *; try exact Hphase.
  destruct (fault env (tick w1)); [exact Hphase|].
  eapply stats_evolve_trans; [exact Hphase|].
  destruct (fault env (S (tick w1))), (fault env (S (S (tick w1))));
    simpl; try apply stats_evolve_refl; apply stats_evolve_update; lia.
Qed.

Lemma removeBuckets_stats_evolve (q : BucketQuery.t) (w : World) :
  stats_evolve (stats w) (stats (snd (removeBuckets env q w))).
Proof.
  rewrite removeBuckets_unfold. cbv zeta.
  destruct (fault env (tick w)); [apply stats_evolve_refl|].
  destruct (fault env (S (tick w))); [apply stats_evolve_refl|].
  destruct (List.filter _ _) as [|b bs]; [apply stats_evolve_refl|].
  exact (settle_each_stats_evolve (deleteBucket env) IBucketEntry.identifier
           (b :: bs) []
           (log cursor_toArray_call (log (buckets_find_call q) w))
           deleteBucket_stats_evolve).
Qed.

Lemma uploadStream_stats_evolve (compressible : option string -> bool)
    (part : Part.t) (b : IBucketEntry.t) (user : string)
    (makePublic : bool) (w : World) :
  stats_evolve (stats w)
    (stats (snd (uploadStream env compressible part b user makePublic w))).
Proof.
  destruct (fst (canUpload env user part w)) as [s|e|v] eqn:Hc.
  - rewrite (uploadStream_after_check env compressible part b user
               makePublic w s Hc). cbv zeta.
    destruct (upload_event env (S (tick w))); try apply stats_evolve_refl.
    destruct (fault env (S (S (tick w)))),
      (fault env (S (S (S (tick w))))),
      (fault env (S (S (S (S (tick w)))))), makePublic; simpl;
      try apply stats_evolve_refl; apply stats_evolve_update; lia.
  - destruct (uploadStream_gate_closed env compressible part b user
                makePublic w) as [Hw _]; [rewrite Hc; reflexivity|].
    rewrite Hw. apply stats_evolve_refl.
  - destruct (uploadStream_gate_closed env compressible part b user
                makePublic w) as [Hw _]; [rewrite Hc; reflexivity|].
    rewrite Hw. apply stats_evolve_refl.
Qed.
End StatsEvolve.

(** X13.  No operation on files or buckets creates or deletes a stats
    record, changes an allocation or lowers [apiCallsUsed]: after an
    upload, a rename, a visibility change or any of the batch removals,
    whatever fails on the way, the stats collection holds the same users
    in the same order with [memoryAllocated] and [apiCallsAllocated] as
    before and [apiCallsUsed] no smaller. *)
Theorem stats_records_persist (env : Env)
    (compressible : option string -> bool) (w : World) :
  (forall part b user makePublic,
     stats_evolve (stats w)
       (stats (snd (uploadStream env compressible part b user makePublic w))))
  /\ (forall file name,
        stats_evolve (stats w) (stats (snd (renameFile env file name w))))
  /\ (forall file,
        stats_evolve (stats w) (stats (snd (makeFilePublic env file w)))
        /\ stats_evolve (stats w) (stats (snd (makeFilePrivate env file w))))
  /\ (forall ids user,
        stats_evolve (stats w) (stats (snd (removeFilesById env ids user w))))
  /\ (forall names user,
        stats_evolve (stats w)
          (stats (snd (removeBucketsByName env names user w))))
  /\ (forall user,
        stats_evolve (stats w)
          (stats (snd (removeBucketsByUser env user w)))).
Proof.
  split; [intros; apply uploadStream_stats_evolve|].
  split.
  { intros file name. rewrite renameFile_unfold. cbv zeta.
    destruct (fault env (tick w)); [apply stats_evolve_refl|].
    destruct (fault env (S (tick w))); simpl; apply stats_evolve_update; lia. }
  split.
  { intros file. unfold makeFilePublic, makeFilePrivate.
    rewrite !change_visibility_unfold. cbv zeta.
    destruct (fault env (tick w));
      [split; apply stats_evolve_refl|].
    destruct (List.find _ _); [|split; apply stats_evolve_refl].
    case Z.ltb_spec; intros _; [|split; apply stats_evolve_refl].
    destruct (fault env (S (tick w))); [split; apply stats_evolve_refl|].
    destruct (fault env (S (S (tick w))));
      [split; simpl; apply stats_evolve_update; lia|].
    destruct (fault env (S (S (S (tick w))))); split; simpl;
      apply stats_evolve_update; lia. }
  split.
  { intros [|i ids] user; [apply stats_evolve_refl|].
    unfold removeFilesById, then_catch.
    match goal with |- context [removeFiles env ?q w] =>
      pose proof (removeFiles_stats_evolve env q w) as H;
      destruct (removeFiles env q w) as [[r|e|v] w1] end; exact H. }
  split.
  { intros [|n names] user; [apply stats_evolve_refl|].
    unfold removeBucketsByName, then_catch.
    match goal with |- context [removeBuckets env ?q w] =>
      pose proof (removeBuckets_stats_evolve env q w) as H;
      destruct (removeBuckets env q w) as [[r|e|v] w1] end; exact H. }
  intros user. apply removeBuckets_stats_evolve.
Qed.

(** X14.  A download writes to the response and to nothing else: the
    three collections are untouched and, of the response headers, only
    [content-encoding] can differ from what the caller passed in.  The
    read stream on the stored object is opened only after the metadata
    came back: on a metadata error the sole call is [getMetadata] and the
    status is 500; otherwise the status is as passed in and the body is a
    pipe from the object. *)
Theorem downloadFile_writes_only_response (env : Env) (request : Request.t)
    (response : Response.t) (file : IFileEntry.t) (w : World) :
  let out := fst (downloadFile env request response file w) in
  let w' := snd (downloadFile env request response file w) in
  let bucket := IFileEntry.bucketId file in
  let key := IFileEntry.identifier file in
  persisted w' = persisted w
  /\ (forall k : string, k <> "content-encoding" ->
        Response.headers out !! k = Response.headers response !! k)
  /\ match fault env (tick w) with
     | Some _ =>
         trace w' = (trace w ++ [gcs_file_getMetadata_call bucket key])%list
         /\ Response.statusCode out = 500%nat
     | None =>
         trace w'
         = (trace w ++ [gcs_file_getMetadata_call bucket key;
                        gcs_file_createReadStream_call bucket key])%list
         /\ Response.statusCode out = Response.statusCode response
         /\ exists stages, Response.body out = piped stages
     end.
Proof.
  cbv zeta. unfold downloadFile.
  destruct (fault env (tick w)) as [msg|].
  { simpl. repeat split. }
  set (h := match Request.headers request !! "accept-encoding" with
            | Some v => if String.eqb v "" then "" else v
            | None => ""
            end).
  destruct (match_word "gzip" h), (match_word "deflate" h),
    (Meta.metadata (object_meta env (tick w))) as [[[|]|]|];
    simpl; rewrite <- ?app_assoc;
    (split; [reflexivity|]);
    (split; [intros k Hk; rewrite ?lookup_insert_ne by congruence;
             reflexivity|]);
    (split; [reflexivity|]); (split; [reflexivity|]); eauto.
Qed.

Section StatsLookup.
Variable env : Env.

Lemma getUserStats_unfold (user : string) (w : World) :
  getUserStats env user w =
  (match fault env (tick w) with
   | Some msg => Rejected (JsError msg)
   | None =>
       match List.find (stats_of user) (stats w) with
       | None =>
           Rejected (JsError ("Could not find storage data for the user '"
                              +:+ user +:+ "'"))
       | Some s => Resolved s
       end
   end, log (stats_findOne_call user) w).
Proof.
  unfold getUserStats. open_calls.
  destruct (fault env (tick w)); simpl; [reflexivity|].
  destruct (List.find _ _); reflexivity.
Qed.
End StatsLookup.

(** X15.  [getUserStats] tells what the upload check will meet.  When the
    driver answers, it rejects with the could-not-find-storage-data error
    exactly when the user has no record, and in that world [canUpload]
    never settles; when it resolves with a record, [canUpload] settles for
    every part: with that same record or with one of the two quota
    errors. *)
Theorem getUserStats_foretells_canUpload (env : Env) (user : string)
    (part : Part.t) (w : World) :
  fault env (tick w) = None ->
  match fst (getUserStats env user w) with
  | Resolved s =>
      List.find (stats_of user) (stats w) = Some s
      /\ (fst (canUpload env user part w) = Resolved s
          \/ fst (canUpload env user part w) = Rejected memory_quota_error
          \/ fst (canUpload env user part w) = Rejected api_quota_error)
  | Rejected e =>
      e = JsError ("Could not find storage data for the user '"
                   +:+ user +:+ "'")
      /\ List.find (stats_of user) (stats w) = None
      /\ exists v, fst (canUpload env user part w) = Pending v
  | Pending _ => False
  end.
Proof.
  intros Hok. rewrite getUserStats_unfold, canUpload_unfold, Hok.
  destruct (List.find _ _) as [s|]; cbn [fst].
  - split; [reflexivity|].
    do 2 (case Z.ltb_spec; intros ?; auto).
  - repeat split. eauto.
Qed.

Lemma getUserStats_foretells_canUpload_witness :
  List.find (stats_of "ann") (stats Sample.world_nobody) = None
  /\ exists v, fst (canUpload Sample.calm "ann" Sample.notes
                              Sample.world_nobody) = Pending v.
Proof.
  destruct (getUserStats_foretells_canUpload Sample.calm "ann" Sample.notes
              Sample.world_nobody eq_refl) as (_ & Hnone & Hpending).
  split; [exact Hnone|exact Hpending].
Defined.

(** X16.  [getBucketEntries] with a non-empty user resolves with exactly
    the bucket entries of that user, in collection order; with no user, or
    with the empty string, it resolves with every bucket entry of every
    user.  It changes nothing. *)
Theorem getBucketEntries_scope (env : Env) (user : option string)
    (w : World) :
  fault env (tick w) = None ->
  fault env (S (tick w)) = None ->
  persisted (snd (getBucketEntries env user w)) = persisted w
  /\ fst (getBucketEntries env user w)
     = Resolved
         (if truthy user
          then List.filter
                 (fun b => match user with
                           | Some u => String.eqb u (IBucketEntry.user b)
                           | None => false
                           end) (buckets w)
          else buckets w).
Proof.
  intros Hfind Hread. unfold getBucketEntries. open_calls.
  rewrite Hfind. simpl fmap. cbn iota. autorewrite with tick.
  rewrite Hread. simpl fmap. cbn iota. cbn [fst snd].
  split; [reflexivity|]. f_equal.
  destruct user as [u|]; simpl.
  - destruct (String.eqb u ""); simpl.
    + induction (buckets w) as [|b l IH]; simpl; [reflexivity|].
      unfold BucketQuery.matches, BucketQuery.matchp in *. simpl in *.
      rewrite IH. reflexivity.
    + apply List.filter_ext. intros b.
      unfold BucketQuery.matches, BucketQuery.matchp. reflexivity.
  - induction (buckets w) as [|b l IH]; simpl; [reflexivity|].
    unfold BucketQuery.matches, BucketQuery.matchp in *. simpl in *.
    rewrite IH. reflexivity.
Qed.

Lemma getBucketEntries_scope_witness :
  fst (getBucketEntries Sample.calm (Some "") Sample.world)
  = Resolved (buckets Sample.world)
  /\ fst (getBucketEntries Sample.calm (Some "bob") Sample.world)
     = Resolved [].
Proof.
  split.
  - exact (proj2 (getBucketEntries_scope Sample.calm (Some "") Sample.world
                    eq_refl eq_refl)).
  - exact (proj2 (getBucketEntries_scope Sample.calm (Some "bob")
                    Sample.world eq_refl eq_refl)).
Defined.

Section CreateBucket.
Variable env : Env.
Variable xenv : XEnv.

Lemma createBucket_unfold (name user : string) (xw : XWorld) :
  createBucket env xenv name user xw =
  let w := core xw in
  let bucketID :=
    "webinate-bucket-" +:+ toLowerCase (random_string env (tick w) 8) in
  let q :=
    if truthy (Some user)
    then BucketQuery.mkp None (Some name) None (Some user)
    else BucketQuery.mkp None None (Some name) None in
  let w1 := log (buckets_findOne_call q) w in
  let k := List.length (xtrace xw) in
  let x1 :=
    (xtrace xw ++ [(S (tick w), gcs_createBucket_call bucketID "EU")])%list in
  let newEntry :=
    IBucketEntry.mk None name bucketID user (now env (S (tick w))) 0 in
  let x2 := (x1 ++ [(S (tick w), buckets_save_call newEntry)])%list in
  let stored :=
    IBucketEntry.mk (Some (next_id w)) name bucketID user
                    (now env (S (tick w))) 0 in
  let w3 :=
    log (stats_update_call user 0 1)
        (bump_id (set_buckets (fun l => (l ++ [stored])%list) w1)) in
  match fault env (tick w) with
  | Some msg => (Rejected (JsError msg), mkXWorld w1 (xtrace xw))
  | None =>
      match List.find (BucketQuery.matchp q) (buckets w) with
      | Some _ =>
          (Rejected (JsError ("A Bucket with the name '" +:+ name
                              +:+ "' has already been registered")),
           mkXWorld w1 (xtrace xw))
      | None =>
          match xfault xenv k with
          | Some msg =>
              (Rejected (JsError ("Could not connect to storage system: '"
                                  +:+ msg +:+ "'")), mkXWorld w1 x1)
          | None =>
              match xfault xenv (S k) with
              | Some msg => (Rejected (JsError msg), mkXWorld w1 x2)
              | None =>
                  (Resolved bucketID,
                   mkXWorld
                     match fault env (S (tick w)) with
                     | Some _ => w3
                     | None =>
                         set_stats
                           (update_first (stats_of user)
                                         (IStorageStats.inc 0 1)) w3
                     end x2)
              end
          end
      end
  end.
Proof.
  unfold createBucket, xthen_catch, lift. rewrite getIBucket_unfold.
  cbv zeta. cbn [fst snd core xtrace]. unfold generateRandString.
  destruct (fault env (tick (core xw))); [reflexivity|].
  destruct (List.find _ _); [reflexivity|].
  unfold xinvoke at 1. unfold xlog. cbn [core xtrace]. autorewrite with tick.
  destruct (xfault xenv (List.length (xtrace xw)));
    cbv [fmap option_fmap option_map]; cbn beta iota; [reflexivity|].
  unfold xinvoke, xlog. cbn [core xtrace]. rewrite length_app.
  cbn [List.length]. rewrite Nat.add_1_r. autorewrite with tick.
  destruct (xfault xenv (S (List.length (xtrace xw))));
    cbv [fmap option_fmap option_map]; cbn beta iota; [reflexivity|].
  unfold lift, on_core. cbn [core xtrace].
  open_calls.
  destruct (fault env (S (tick (core xw)))); reflexivity.
Qed.

(** What a creation that resolved has stored. *)
Lemma createBucket_resolved_adds (name user : string) (xw : XWorld)
    (id : string) :
  fst (createBucket env xenv name user xw) = Resolved id ->
  exists stored,
    buckets (core (snd (createBucket env xenv name user xw)))
    = (buckets (core xw) ++ [stored])%list
    /\ IBucketEntry.name stored = name
    /\ IBucketEntry.user stored = user.
Proof.
  rewrite createBucket_unfold. cbv zeta.
  destruct (fault env (tick (core xw))); [discriminate|].
  destruct (List.find _ _); [discriminate|].
  destruct (xfault xenv (List.length (xtrace xw))); [discriminate|].
  destruct (xfault xenv (S (List.length (xtrace xw)))); [discriminate|].
  intros _. cbn [fst snd core xtrace].
  destruct (fault env (S (tick (core xw)))); simpl; eexists; repeat split.
Qed.
End CreateBucket.

(** X17.  [createBucket] stores a bucket entry only once the remote bucket
    has been created and the save has gone through.  Whenever it does not
    resolve, stats, buckets and files are as before.  When it resolves,
    the remote creation is in the trace and exactly one entry has been
    added, after the existing ones: it carries the given name and user,
    the identifier the promise resolves with, [memoryUsed] zero and the
    [_id] the database handed out.  That [_id] is fresh: in a world whose
    stored entries all have an [_id] below the next one to be handed out,
    no bucket entry stored before has it, and the world left is again such
    a world. *)
Theorem createBucket_all_or_nothing (env : Env) (xenv : XEnv)
    (name user : string) (xw : XWorld) :
  let run := createBucket env xenv name user xw in
  match fst run with
  | Resolved id =>
      In (gcs_createBucket_call id "EU") (List.map snd (xtrace (snd run)))
      /\ files (core (snd run)) = files (core xw)
      /\ exists stored,
           buckets (core (snd run)) = (buckets (core xw) ++ [stored])%list
           /\ IBucketEntry._id stored = Some (next_id (core xw))
           /\ IBucketEntry.name stored = name
           /\ IBucketEntry.user stored = user
           /\ IBucketEntry.identifier stored = id
           /\ IBucketEntry.memoryUsed stored = 0
           /\ (ids_below (core xw) = true ->
               (forall y, In y (buckets (core xw)) ->
                  IBucketEntry._id y <> IBucketEntry._id stored)
               /\ ids_below (core (snd run)) = true)
  | _ => persisted (core (snd run)) = persisted (core xw)
  end.
Proof.
  cbv zeta. rewrite createBucket_unfold. cbv zeta.
  destruct (fault env (tick (core xw))); [reflexivity|].
  destruct (List.find _ _); [reflexivity|].
  destruct (xfault xenv (List.length (xtrace xw))); [reflexivity|].
  destruct (xfault xenv (S (List.length (xtrace xw)))); [reflexivity|].
  cbn [fst snd core xtrace]. split.
  - rewrite !map_app. simpl. apply in_or_app. left. apply in_or_app.
    right. left. reflexivity.
  - assert (Hfresh : ids_below (core xw) = true ->
              (forall y, In y (buckets (core xw)) ->
                 IBucketEntry._id y <> Some (next_id (core xw)))
              /\ forallb (fun f => id_below (S (next_id (core xw)))
                                            (IFileEntry._id f))
                         (files (core xw))
                 && forallb (fun y => id_below (S (next_id (core xw)))
                                               (IBucketEntry._id y))
                            (buckets (core xw) ++
                             [IBucketEntry.mk (Some (next_id (core xw))) name
                                ("webinate-bucket-" +:+
                                 toLowerCase
                                   (random_string env (tick (core xw)) 8))
                                user (now env (S (tick (core xw)))) 0])
                 = true).
    { unfold ids_below. intros Hids.
      apply andb_true_iff in Hids as [Hfiles Hbuckets]. split.
      - intros y Hin.
        exact (forallb_id_below_fresh IBucketEntry._id _ _ y Hbuckets Hin).
      - rewrite forallb_app. simpl. rewrite ltb_next. simpl.
        rewrite (forallb_id_below_S IFileEntry._id _ _ Hfiles).
        rewrite (forallb_id_below_S IBucketEntry._id _ _ Hbuckets).
        reflexivity. }
    destruct (fault env (S (tick (core xw)))); simpl;
      (split; [reflexivity|]); eexists;
      (do 6 (split; [reflexivity|])); exact Hfresh.
Qed.

Lemma createBucket_all_or_nothing_witness :
  ids_below (core (snd (createBucket Sample.calm More.xcalm "holiday" "ann"
                                     More.xworld))) = true.
Proof.
  pose proof (createBucket_all_or_nothing Sample.calm More.xcalm "holiday"
                "ann" More.xworld) as H.
  cbv zeta in H.
  destruct (fst (createBucket Sample.calm More.xcalm "holiday" "ann"
                              More.xworld)) eqn:Hrun;
    [|discriminate Hrun|discriminate Hrun].
  destruct H as (_ & _ & stored & _ & _ & _ & _ & _ & _ & Hfresh).
  exact (proj2 (Hfresh eq_refl)).
Defined.

(** X18.  A bucket name is taken once it is created: after [createBucket]
    has resolved for a name and a non-empty user, a second [createBucket]
    with the same name and user rejects with the already-registered error
    as soon as its lookup is answered, creates no remote bucket and stores
    nothing. *)
Theorem createBucket_twice_conflicts (env : Env) (xenv : XEnv)
    (name user : string) (xw : XWorld) (id : string) :
  user <> "" ->
  fst (createBucket env xenv name user xw) = Resolved id ->
  let xw1 := snd (createBucket env xenv name user xw) in
  fault env (tick (core xw1)) = None ->
  fst (createBucket env xenv name user xw1)
  = Rejected (JsError ("A Bucket with the name '" +:+ name
                       +:+ "' has already been registered"))
  /\ xtrace (snd (createBucket env xenv name user xw1)) = xtrace xw1
  /\ persisted (core (snd (createBucket env xenv name user xw1)))
     = persisted (core xw1).
Proof.
  intros Huser Hfirst xw1 Hok.
  destruct (createBucket_resolved_adds env xenv name user xw id Hfirst)
    as (stored & Hb & Hname & Howner).
  fold xw1 in Hb.
  rewrite (createBucket_unfold env xenv name user xw1). cbv zeta.
  rewrite Hok.
  assert (Htruthy : truthy (Some user) = true).
  { simpl. destruct (String.eqb_spec user ""); [contradiction|reflexivity]. }
  rewrite Htruthy.
  destruct (List.find _ (buckets (core xw1))) as [b|] eqn:Hfind.
  - repeat split.
  - exfalso.
    assert (Hin : In stored (buckets (core xw1))).
    { rewrite Hb. apply in_or_app. right. left. reflexivity. }
    pose proof (find_none _ _ Hfind stored Hin) as Hm.
    unfold BucketQuery.matchp in Hm. simpl in Hm.
    rewrite Hname, Howner, !String.eqb_refl in Hm. discriminate Hm.
Qed.

Lemma createBucket_twice_conflicts_witness :
  fst (createBucket Sample.calm More.xcalm "music" "ann"
         (snd (createBucket Sample.calm More.xcalm "music" "ann"
                            More.xworld)))
  = Rejected (JsError "A Bucket with the name 'music' has already been registered").
Proof.
  destruct (createBucket_twice_conflicts Sample.calm More.xcalm "music" "ann"
              More.xworld "webinate-bucket-q1w2e3r4t5y6u7i8")
    as (Hr & _); [discriminate|reflexivity|reflexivity|].
  exact Hr.
Defined.

(** X19.  [getFile] rejects a missing file with the plain string
    [File '<id>' does not exist] (a string, not an [Error]).  A file it
    resolves with is in the collection, has the identifier asked for and,
    when a non-empty user is given, belongs to that user.  The lookup
    changes nothing. *)
Theorem getFile_sound (xenv : XEnv) (fileID : string)
    (user : option string) (xw : XWorld) :
  xfault xenv (List.length (xtrace xw)) = None ->
  let run := getFile xenv fileID user xw in
  core (snd run) = core xw
  /\ match fst run with
     | Resolved f =>
         In f (files (core xw))
         /\ IFileEntry.identifier f = fileID
         /\ (truthy user = true -> Some (IFileEntry.user f) = user)
     | Rejected e =>
         e = JsString ("File '" +:+ fileID +:+ "' does not exist")
         /\ forall f, In f (files (core xw)) ->
              IFileEntry.identifier f = fileID ->
              truthy user = true /\ Some (IFileEntry.user f) <> user
     | Pending _ => False
     end.
Proof.
  intros Hok. cbv zeta. unfold getFile, xinvoke. rewrite Hok.
  cbv [fmap option_fmap option_map]. cbn beta iota. cbn [core xlog].
  destruct (List.find _ _) as [f|] eqn:Hfind; cbn [fst snd xresolve xreject].
  - split; [reflexivity|].
    apply find_some in Hfind as [Hin Hm]. split; [exact Hin|].
    unfold FileQuery.matchp in Hm. simpl in Hm.
    rewrite !andb_true_r in Hm. apply andb_true_iff in Hm as [Hid Hu].
    apply String.eqb_eq in Hid. split; [congruence|].
    intros Ht. rewrite Ht in Hu. destruct user as [u|]; [|discriminate].
    simpl in Hu. apply String.eqb_eq in Hu. congruence.
  - split; [reflexivity|]. split; [reflexivity|].
    intros f Hin Hid. pose proof (find_none _ _ Hfind f Hin) as Hm.
    unfold FileQuery.matchp in Hm. simpl in Hm.
    rewrite !andb_true_r, Hid, String.eqb_refl in Hm. simpl in Hm.
    destruct (truthy user) eqn:Ht; [|discriminate].
    split; [reflexivity|]. destruct user as [u|]; [|discriminate].
    simpl in Hm. apply String.eqb_neq in Hm. congruence.
Qed.

Lemma getFile_sound_witness :
  fst (getFile More.xcalm "Kq3vXz81LmNo04Pa" (Some "bob") More.xworld)
  = Rejected (JsString "File 'Kq3vXz81LmNo04Pa' does not exist")
  /\ In Sample.cat_png (files (core More.xworld)).
Proof.
  destruct (getFile_sound More.xcalm "Kq3vXz81LmNo04Pa"
              (Some "ann") More.xworld eq_refl) as (_ & Hin & _).
  split; [reflexivity|exact Hin].
Defined.

Section StatsLifecycle.
Lemma find_app_last {A} (p : A -> bool) (l : list A) (x : A) :
  List.find p (l ++ [x])
  = match List.find p l with
    | Some y => Some y
    | None => if p x then Some x else None
    end.
Proof.
  induction l as [|y l IH]; simpl; [reflexivity|].
  destruct (p y); [reflexivity|exact IH].
Qed.

Lemma find_remove_all_same (u : string) (l : list IStorageStats.t) :
  List.find (stats_of u) (remove_all (stats_of u) l) = None.
Proof.
  unfold remove_all. induction l as [|s l IH]; simpl; [reflexivity|].
  destruct (stats_of u s) eqn:Hs; simpl; [exact IH|].
  rewrite Hs. exact IH.
Qed.

Lemma find_remove_all_other (u v : string) (l : list IStorageStats.t) :
  u <> v ->
  List.find (stats_of v) (remove_all (stats_of u) l)
  = List.find (stats_of v) l.
Proof.
  intros Hne. unfold remove_all.
  induction l as [|s l IH]; simpl; [reflexivity|].
  destruct (stats_of u s) eqn:Hu; simpl.
  - destruct (stats_of v s) eqn:Hv; [|exact IH].
    unfold stats_of in Hu, Hv. apply String.eqb_eq in Hu, Hv. congruence.
  - destruct (stats_of v s); [reflexivity|exact IH].
Qed.

Lemma stats_evolve_find_none (u : string) (l l' : list IStorageStats.t) :
  stats_evolve l l' ->
  List.find (stats_of u) l = None -> List.find (stats_of u) l' = None.
Proof.
  induction 1 as [|a b l l' Hab _ IH]; simpl; [reflexivity|].
  destruct Hab as (Hu & _). unfold stats_of in *. rewrite Hu.
  destruct (String.eqb u (IStorageStats.user a)); [discriminate|exact IH].
Qed.

Lemma stats_evolve_find_some (u : string) (l l' : list IStorageStats.t)
    (s : IStorageStats.t) :
  stats_evolve l l' ->
  List.find (stats_of u) l = Some s ->
  exists s', List.find (stats_of u) l' = Some s' /\ same_quota s s'.
Proof.
  induction 1 as [|a b l l' Hab _ IH]; simpl; [discriminate|].
  pose proof Hab as (Hu & _). unfold stats_of in *. rewrite Hu.
  destruct (String.eqb u (IStorageStats.user a)); [|exact IH].
  intros H. injection H as <-. eauto.
Qed.
End StatsLifecycle.

(** X20.  [createUserStats] appends a record with nothing used, 500 MB of
    memory and 20000 API calls allocated, and touches no other record.  A
    user who had no record gets this one on lookup and may from then on
    upload exactly the parts that declare fewer than 500000000 bytes; for
    a user who already had a record the lookup still finds the old
    record, usage included. *)
Theorem createUserStats_then_lookup (xenv : XEnv) (user : string)
    (xw : XWorld) :
  xfault xenv (List.length (xtrace xw)) = None ->
  let xw1 := snd (createUserStats xenv user xw) in
  stats (core xw1) = (stats (core xw) ++ [fresh_stats user])%list
  /\ List.find (stats_of user) (stats (core xw1))
     = match List.find (stats_of user) (stats (core xw)) with
       | Some old => Some old
       | None => Some (fresh_stats user)
       end
  /\ (List.find (stats_of user) (stats (core xw)) = None ->
      forall (env : Env) (part : Part.t),
        fault env (tick (core xw1)) = None ->
        (fst (canUpload env user part (core xw1))
         = Resolved (fresh_stats user)
         <-> (Part.byteCount part < 500000000)%Z)).
Proof.
  intros Hok. cbv zeta. unfold createUserStats, xinvoke. rewrite Hok.
  cbv [fmap option_fmap option_map]. cbn beta iota.
  cbn [snd xresolve on_core core xlog].
  change (IStorageStats.mk user 0 MEMORY_ALLOCATED 0 API_CALLS_ALLOCATED)
    with (fresh_stats user).
  assert (Hfind : List.find (stats_of user)
                    (stats (core xw) ++ [fresh_stats user])
                  = match List.find (stats_of user) (stats (core xw)) with
                    | Some old => Some old
                    | None => Some (fresh_stats user)
                    end).
  { rewrite find_app_last.
    assert (Hkey : stats_of user (fresh_stats user) = true)
      by (unfold stats_of; simpl; apply String.eqb_refl).
    rewrite Hkey. reflexivity. }
  split; [reflexivity|]. split; [exact Hfind|].
  intros Hnone env part Henv. rewrite canUpload_unfold.
  cbn [tick set_stats trace] in *. rewrite Henv.
  cbn [stats set_stats]. rewrite Hfind, Hnone. cbn [fst].
  unfold fresh_stats. simpl.
  case Z.ltb_spec; intros Hlt; split; intros H; try lia;
    try reflexivity; discriminate H.
Qed.

Lemma createUserStats_then_lookup_witness :
  List.find (stats_of "bob")
    (stats (core (snd (createUserStats More.xcalm "bob" More.xworld))))
  = Some (fresh_stats "bob")
  /\ List.find (stats_of "ann")
       (stats (core (snd (createUserStats More.xcalm "ann" More.xworld))))
     = Some Sample.ann.
Proof.
  split.
  - exact (proj1 (proj2 (createUserStats_then_lookup More.xcalm "bob"
                           More.xworld eq_refl))).
  - exact (proj1 (proj2 (createUserStats_then_lookup More.xcalm "ann"
                           More.xworld eq_refl))).
Defined.

(** X21.  Once its stats removal has gone through, [removeUser] leaves no
    stats record for the user, whatever the removal of the buckets does
    afterwards (its counter updates find nothing to update and create
    nothing); every other user keeps a record with the same allocations.
    The promise resolves exactly when the bucket removal resolves and
    rejects exactly when it rejects; when the bucket removal is never
    settled, neither is the promise. *)
Theorem removeUser_forgets_stats (env : Env) (xenv : XEnv) (user : string)
    (xw : XWorld) :
  xfault xenv (List.length (xtrace xw)) = None ->
  let run := removeUser env xenv user xw in
  let after_stats :=
    set_stats (remove_all (stats_of user)) (core xw) in
  List.find (stats_of user) (stats (core (snd run))) = None
  /\ (forall other s,
        other <> user ->
        List.find (stats_of other) (stats (core xw)) = Some s ->
        exists s', List.find (stats_of other) (stats (core (snd run)))
                   = Some s'
                   /\ same_quota s s')
  /\ is_resolved (fst run)
     = is_resolved (fst (removeBucketsByUser env user after_stats))
  /\ is_rejected (fst run)
     = is_rejected (fst (removeBucketsByUser env user after_stats)).
Proof.
  intros Hok. cbv zeta. unfold removeUser, removeUserStats, xinvoke, lift.
  rewrite Hok. cbv [fmap option_fmap option_map]. cbn beta iota.
  cbn [fst snd xresolve on_core core xlog xtrace].
  set (w1 := set_stats (remove_all (stats_of user)) (core xw)).
  pose proof (removeBuckets_stats_evolve env
                (BucketQuery.mk None
                   (BucketQuery.mkp None None None (Some user))) w1) as Hev.
  fold (removeBucketsByUser env user) in Hev.
  split; [|split; [|split]].
  - apply (stats_evolve_find_none user _ _ Hev). subst w1. simpl.
    apply find_remove_all_same.
  - intros other s Hne Hs.
    apply (stats_evolve_find_some other _ _ s Hev). subst w1. simpl.
    rewrite find_remove_all_other by congruence. exact Hs.
  - destruct (fst (removeBucketsByUser env user w1)); reflexivity.
  - destruct (fst (removeBucketsByUser env user w1)); reflexivity.
Qed.

Lemma removeUser_forgets_stats_witness :
  List.find (stats_of "ann")
    (stats (core (snd (removeUser (Sample.failing 3) More.xcalm "ann"
                                  More.xworld))))
  = None.
Proof.
  exact (proj1 (removeUser_forgets_stats (Sample.failing 3) More.xcalm "ann"
                  More.xworld eq_refl)).
Defined.

Section Mail.
Lemma occurs_replaced (c d : ascii) (s : string) :
  c <> d -> occurs c (GMailer.replace_char c d s) = false.
Proof.
  intros Hne. induction s as [|x s IH]; simpl; [reflexivity|].
  rewrite IH, orb_false_r.
  destruct (Ascii.eqb_spec x c) as [->|Hx].
  - apply Ascii.eqb_neq. congruence.
  - apply Ascii.eqb_neq. exact Hx.
Qed.

Lemma occurs_replace_other (c d e : ascii) (s : string) :
  e <> d -> occurs e s = false ->
  occurs e (GMailer.replace_char c d s) = false.
Proof.
  intros Hne. induction s as [|x s IH]; simpl; [reflexivity|].
  intros H. apply orb_false_iff in H as [Hx Hs].
  rewrite (IH Hs), orb_false_r.
  destruct (Ascii.eqb x c); [|exact Hx].
  apply Ascii.eqb_neq. congruence.
Qed.

Lemma replace_char_back (c d : ascii) (s : string) :
  occurs d s = false ->
  GMailer.replace_char d c (GMailer.replace_char c d s) = s.
Proof.
  induction s as [|x s IH]; simpl; [reflexivity|].
  intros H. apply orb_false_iff in H as [Hx Hs]. rewrite (IH Hs).
  destruct (Ascii.eqb_spec x c) as [->|Hxc].
  - rewrite Ascii.eqb_refl. reflexivity.
  - rewrite Hx. reflexivity.
Qed.

Lemma concat_mail_text (to from subject message : string) :
  String.concat ""
    [ "Content-Type: text/plain; charset=" +:+ GMailer.quoted "UTF-8"
      +:+ GMailer.CRLF;
      "MIME-Version: 1.0" +:+ GMailer.CRLF;
      "Content-Transfer-Encoding: 7bit" +:+ GMailer.CRLF;
      "to: "; to; GMailer.CRLF;
      "from: "; from; GMailer.CRLF;
      "subject: "; subject; GMailer.CRLF +:+ GMailer.CRLF;
      message ]
  = mail_text to from subject message.
Proof.
  reflexivity.
Qed.

Lemma buildMessage_clean (base64 : string -> string)
    (to from subject message : string) :
  occurs "+" (GMailer.buildMessage base64 to from subject message) = false
  /\ occurs "/" (GMailer.buildMessage base64 to from subject message)
     = false.
Proof.
  unfold GMailer.buildMessage. split.
  - apply occurs_replace_other; [discriminate|].
    apply occurs_replaced. discriminate.
  - apply occurs_replaced. discriminate.
Qed.
End Mail.

(** X22.  The raw message [buildMessage] returns is the base64 text of
    the mail with every [+] turned into [-] and every [/] into [_]: it
    contains neither [+] nor [/], whatever the addresses, the subject and
    the body.  Nothing is lost by the replacement: when the base64 text
    itself has no [-] and no [_], as in the standard alphabet, turning
    them back gives the base64 text again. *)
Theorem buildMessage_url_safe (base64 : string -> string)
    (to from subject message : string) :
  let raw := GMailer.buildMessage base64 to from subject message in
  let encoded := base64 (mail_text to from subject message) in
  occurs "+" raw = false
  /\ occurs "/" raw = false
  /\ String.length raw = String.length encoded
  /\ (occurs "-" encoded = false -> occurs "_" encoded = false ->
      GMailer.replace_char "-" "+" (GMailer.replace_char "_" "/" raw)
      = encoded).
Proof.
  cbv zeta. unfold GMailer.buildMessage. rewrite concat_mail_text.
  set (encoded := base64 (mail_text to from subject message)).
  destruct (buildMessage_clean base64 to from subject message)
    as [Hplus Hslash].
  unfold GMailer.buildMessage in Hplus, Hslash.
  rewrite concat_mail_text in Hplus, Hslash. fold encoded in Hplus, Hslash.
  split; [exact Hplus|]. split; [exact Hslash|]. split.
  - generalize encoded. intros e. induction e as [|x e IH]; simpl;
      [reflexivity|]. rewrite IH. reflexivity.
  - intros Hdash Hunder.
    rewrite replace_char_back.
    + apply replace_char_back. exact Hdash.
    + apply occurs_replace_other; [discriminate|exact Hunder].
Qed.

Lemma buildMessage_url_safe_witness :
  GMailer.buildMessage sample_base64 "a@x.org" "b@y.org" "hi" "hello"
  = "aGk-_w=="
  /\ GMailer.replace_char "-" "+"
       (GMailer.replace_char "_" "/"
          (GMailer.buildMessage sample_base64 "a@x.org" "b@y.org" "hi"
                                "hello"))
     = "aGk+/w==".
Proof.
  split; [reflexivity|].
  exact (proj2 (proj2 (proj2 (buildMessage_url_safe sample_base64 "a@x.org"
                                "b@y.org" "hi" "hello"))) eq_refl eq_refl).
Defined.

(** X23.  What [sendMail] asks of the Gmail API.  In debug mode it asks
    nothing and resolves [true].  Otherwise it makes at most two calls:
    first an insert, whose raw message has no [+] and no [/]; then, only
    if the insert succeeded and the mail is addressed to the API's own
    address, one modification of the inserted message that adds the
    labels UNREAD, INBOX and IMPORTANT.  It rejects exactly when the last
    call it made failed. *)
Theorem sendMail_calls (base64 : string -> string) (api : GMailer.Api)
    (that : GMailer.t) (to from subject msg : string)
    (calls : list GMailer.ApiCall) :
  let run := GMailer.sendMail base64 api that to from subject msg calls in
  let n := List.length calls in
  exists made,
    snd run = (calls ++ made)%list
    /\ (List.length made <= 2)%nat
    /\ (if GMailer._debugMode that
        then made = [] /\ fst run = Resolved true
        else exists raw rest,
               made = GMailer.messages_insert raw :: rest
               /\ occurs "+" raw = false /\ occurs "/" raw = false
               /\ (rest = []
                   \/ (rest = [GMailer.messages_modify
                                 (GMailer.response_id api n)
                                 ["UNREAD"; "INBOX"; "IMPORTANT"]]
                       /\ GMailer.api_fault api n = None
                       /\ GMailer._apiEmail that = to)))
    /\ is_rejected (fst run)
       = match GMailer.api_fault api (n + List.length made - 1) with
         | Some _ => negb (GMailer._debugMode that)
         | None => false
         end.
Proof.
  cbv zeta. unfold GMailer.sendMail.
  destruct (buildMessage_clean base64 to from subject msg)
    as (Hplus & Hslash).
  destruct (GMailer._debugMode that).
  { exists []. rewrite app_nil_r. simpl.
    destruct (GMailer.api_fault api _); repeat split; lia. }
  destruct (GMailer.api_fault api (List.length calls)) as [e|] eqn:Hins.
  { eexists [_]. simpl. replace (List.length calls + 1 - 1)%nat
      with (List.length calls) by lia. rewrite Hins.
    repeat split; [lia|]. eauto 8. }
  destruct (String.eqb_spec (GMailer._apiEmail that) to) as [Heq|Hne];
    simpl negb; cbn iota.
  - eexists [_; _]. rewrite <- app_assoc. simpl.
    replace (List.length calls + 2 - 1)%nat with (S (List.length calls))
      by lia.
    destruct (GMailer.api_fault api (S (List.length calls)));
      (split; [reflexivity|]); (split; [lia|]);
      (split; [|reflexivity]); eauto 10.
  - eexists [_]. simpl. replace (List.length calls + 1 - 1)%nat
      with (List.length calls) by lia. rewrite Hins.
    repeat split; [lia|]. eauto 8.
Qed.

Section FilesKept.
Variable env : Env.

Lemma remove_all_keeps {A} (p : A -> bool) (l : list A) (x : A) :
  In x l -> p x = false -> In x (remove_all p l).
Proof.
  intros Hin Hp. unfold remove_all. apply filter_In. split; [exact Hin|].
  rewrite Hp. reflexivity.
Qed.

(** A deletion removes no entry but those carrying its [_id]. *)
Lemma deleteFile_keeps_others (f x : IFileEntry.t) (w : World) :
  In x (files w) ->
  id_eqb (IFileEntry._id f) (IFileEntry._id x) = false ->
  In x (files (snd (deleteFile env f w))).
Proof.
  intros Hin Hid. rewrite deleteFile_unfold. cbv zeta.
  destruct (fault env (tick w)); [exact Hin|].
  destruct (List.find _ _) as [b|]; [|exact Hin].
  unfold deleteFile_steps, run_steps. autorewrite with tick.
  destruct (fault env (S (tick w))); [exact Hin|].
  autorewrite with tick.
  destruct (fault env (S (S (tick w)))); [exact Hin|].
  autorewrite with tick.
  destruct (fault env (S (S (S (tick w))))); [exact Hin|].
  autorewrite with tick.
  destruct (fault env (S (S (S (S (tick w)))))); simpl;
    apply remove_all_keeps; assumption.
Qed.

Lemma settle_each_keeps_others (entries : list IFileEntry.t)
    (acc : list string) (x : IFileEntry.t) (w : World) :
  In x (files w) ->
  (forall e, In e entries ->
     id_eqb (IFileEntry._id e) (IFileEntry._id x) = false) ->
  In x (files (snd (settle_each (deleteFile env) IFileEntry.identifier
                                entries acc w))).
Proof.
  revert acc w. induction entries as [|e rest IH]; intros acc w Hin Hids;
    simpl; [exact Hin|].
  pose proof (deleteFile_keeps_others e x w Hin
                (Hids e (or_introl eq_refl))) as Hstep.
  assert (Hrest : forall e', In e' rest ->
            id_eqb (IFileEntry._id e') (IFileEntry._id x) = false)
    by (intros e' He'; apply Hids; right; exact He').
  destruct (deleteFile env e w) as [[y|err|v] w1]; simpl in *;
    apply IH; assumption.
Qed.

Lemma removeFiles_keeps_others (q : FileQuery.t) (x : IFileEntry.t)
    (w : World) :
  In x (files w) ->
  (forall m, In m (files w) -> FileQuery.matches q m = true ->
     id_eqb (IFileEntry._id m) (IFileEntry._id x) = false) ->
  In x (files (snd (removeFiles env q w))).
Proof.
  intros Hin Hids. rewrite removeFiles_unfold. cbv zeta.
  destruct (fault env (tick w)); [exact Hin|].
  destruct (fault env (S (tick w))); [exact Hin|].
  destruct (List.filter (FileQuery.matches q) (files w)) as [|f fs] eqn:Hm;
    [exact Hin|].
  apply (settle_each_keeps_others (f :: fs) [] x
           (log cursor_toArray_call (log (files_find_call q) w)) Hin).
  intros e He. rewrite <- Hm in He. apply filter_In in He as [He Hq].
  apply Hids; assumption.
Qed.
End FilesKept.

(** X24.  [removeFilesById] spares what was not asked for.  A file entry
    whose [_id] no other entry shares stays in the collection when its
    identifier is not among the requested ones or when, a non-empty user
    being given, it belongs to somebody else; and this whatever fails
    during the batch. *)
Theorem removeFilesById_spares_others (env : Env) (fileIDs : list string)
    (user : option string) (w : World) (x : IFileEntry.t) :
  In x (files w) ->
  (forall m, In m (files w) -> IFileEntry._id m = IFileEntry._id x -> m = x) ->
  ~ In (IFileEntry.identifier x) fileIDs
  \/ (truthy user = true /\ Some (IFileEntry.user x) <> user) ->
  In x (files (snd (removeFilesById env fileIDs user w))).
Proof.
  intros Hin Hown Hspared.
  destruct fileIDs as [|i0 ids]; [exact Hin|].
  unfold removeFilesById, then_catch.
  set (q := FileQuery.mk _ _).
  assert (Hkept : In x (files (snd (removeFiles env q w)))).
  { apply removeFiles_keeps_others; [exact Hin|].
    intros m Hm Hq.
    destruct (id_eqb (IFileEntry._id m) (IFileEntry._id x)) eqn:Hid;
      [|reflexivity].
    exfalso.
    assert (Hsame : IFileEntry._id m = IFileEntry._id x).
    { unfold id_eqb in Hid.
      destruct (IFileEntry._id m), (IFileEntry._id x);
        try discriminate; [|reflexivity].
      apply Nat.eqb_eq in Hid. congruence. }
    rewrite (Hown m Hm Hsame) in Hq.
    unfold FileQuery.matches in Hq. subst q.
    cbn [FileQuery.or FileQuery.fields] in Hq.
    apply andb_true_iff in Hq as [Hor Hfields].
    destruct Hspared as [Hnot|[Ht Hu]].
    - apply existsb_exists in Hor as (p & Hp & Hmatch).
      apply in_map_iff in Hp as (i & <- & Hi).
      unfold FileQuery.matchp in Hmatch. simpl in Hmatch.
      rewrite !andb_true_r in Hmatch. apply String.eqb_eq in Hmatch.
      apply Hnot. rewrite <- Hmatch. exact Hi.
    - rewrite Ht in Hfields. unfold FileQuery.matchp in Hfields.
      simpl in Hfields. destruct user as [u|]; [|discriminate].
      simpl in Hfields. apply String.eqb_eq in Hfields. congruence. }
  destruct (removeFiles env q w) as [[r|e|v] w1]; exact Hkept.
Qed.

Lemma removeFilesById_spares_others_witness :
  In Sample.dog_png
     (files (snd (removeFilesById Sample.calm ["Kq3vXz81LmNo04Pa"]
                                  (Some "ann") Sample.world))).
Proof.
  apply (removeFilesById_spares_others Sample.calm ["Kq3vXz81LmNo04Pa"]
           (Some "ann") Sample.world Sample.dog_png).
  - right. left. reflexivity.
  - intros m [<-|[<-|[]]] H; [discriminate H|reflexivity].
  - left. intros [H|[]]. discriminate H.
Defined.

Section DeleteAll.
Variable env : Env.

Lemma bucket_inc_inc (a c : Z) (x : IBucketEntry.t) :
  IBucketEntry.inc c (IBucketEntry.inc a x) = IBucketEntry.inc (a + c) x.
Proof. destruct x. unfold IBucketEntry.inc. simpl. f_equal. lia. Qed.

Lemma stats_inc_inc (a a' c c' : Z) (s : IStorageStats.t) :
  IStorageStats.inc a' c' (IStorageStats.inc a c s)
  = IStorageStats.inc (a + a') (c + c') s.
Proof. destruct s. unfold IStorageStats.inc. simpl. f_equal; lia. Qed.

Lemma bucket_inc_zero (x : IBucketEntry.t) : IBucketEntry.inc 0 x = x.
Proof. destruct x. unfold IBucketEntry.inc. simpl. f_equal. lia. Qed.

Lemma stats_inc_zero (s : IStorageStats.t) : IStorageStats.inc 0 0 s = s.
Proof. destruct s. unfold IStorageStats.inc. simpl. f_equal; lia. Qed.

Lemma without_cons (f : IFileEntry.t) (rest l : list IFileEntry.t) :
  without rest
    (remove_all (fun x => id_eqb (IFileEntry._id f) (IFileEntry._id x)) l)
  = without (f :: rest) l.
Proof.
  unfold without, remove_all.
  induction l as [|x l IH]; simpl; [reflexivity|].
  destruct (id_eqb (IFileEntry._id f) (IFileEntry._id x)); simpl.
  - exact IH.
  - rewrite IH. reflexivity.
Qed.

(** A batch of deletions for one bucket, every call succeeding. *)
Lemma settle_each_all_succeed (b : IBucketEntry.t)
    (entries : list IFileEntry.t) :
  forall (acc : list string) (w : World) (x : IBucketEntry.t),
  (forall n, (tick w <= n)%nat -> fault env n = None) ->
  (forall f, In f entries ->
     IFileEntry.bucketId f = IBucketEntry.identifier b) ->
  List.find (bucket_of b) (buckets w) = Some x ->
  let run :=
    settle_each (deleteFile env) IFileEntry.identifier entries acc w in
  fst run = Resolved (acc ++ List.map IFileEntry.identifier entries)%list
  /\ files (snd run) = without entries (files w)
  /\ buckets (snd run)
     = update_first (bucket_of b) (IBucketEntry.inc (- total_size entries))
                    (buckets w)
  /\ stats (snd run)
     = update_first (stats_of (IBucketEntry.user x))
         (IStorageStats.inc (- total_size entries)
                            (Z.of_nat (List.length entries)))
         (stats w)
  /\ tick (snd run) = (tick w + 5 * List.length entries)%nat.
Proof.
  induction entries as [|f rest IH]; intros acc w x Hok Hin Hx; cbv zeta.
  - simpl. rewrite app_nil_r.
    split; [reflexivity|]. split.
    { unfold without. simpl. induction (files w) as [|y l IHl]; simpl;
        [reflexivity|]. rewrite <- IHl. reflexivity. }
    split.
    { symmetry. apply update_first_same. intros y _. apply bucket_inc_zero. }
    split; [|lia].
    symmetry. apply update_first_same. intros y _. apply stats_inc_zero.
  - assert (Hkey : forall y, bucket_of x y = bucket_of b y).
    { intros y. apply find_some in Hx as [_ Hx]. unfold bucket_of in *.
      apply String.eqb_eq in Hx. rewrite Hx. reflexivity. }
    assert (Hlook : List.find (BucketQuery.matchp (deleteFile_lookup f))
                              (buckets w) = Some x).
    { rewrite (find_same_predicate _ (bucket_of b)); [exact Hx|].
      intros y. unfold BucketQuery.matchp, deleteFile_lookup, bucket_of.
      simpl. rewrite (Hin f (or_introl eq_refl)), andb_true_r. reflexivity. }
    destruct (deleteFile_success env f w x) as (Hr & Hf & Hb & Hs & _ & Ht);
      [intros n Hn; apply Hok; lia|exact Hlook|].
    simpl settle_each.
    destruct (deleteFile env f w) as [r w1]. cbn [fst snd] in *. subst r.
    assert (Hx1 : List.find (bucket_of b) (buckets w1)
                  = Some (IBucketEntry.inc (- IFileEntry.size f) x)).
    { rewrite Hb.
      rewrite (update_first_ext (bucket_of x) (bucket_of b) _
                 (IBucketEntry.inc (- IFileEntry.size f)))
        by (auto || reflexivity).
      rewrite find_update_first by (intros y Hy; exact Hy).
      rewrite Hx. reflexivity. }
    assert (Hok1 : forall n, (tick w1 <= n)%nat -> fault env n = None)
      by (intros n Hn; apply Hok; lia).
    assert (Hin1 : forall g, In g rest ->
              IFileEntry.bucketId g = IBucketEntry.identifier b)
      by (intros g Hg; apply Hin; right; exact Hg).
    destruct (IH (acc ++ [IFileEntry.identifier f])%list w1
                (IBucketEntry.inc (- IFileEntry.size f) x) Hok1 Hin1 Hx1)
      as (Hr' & Hf' & Hb' & Hs' & Ht').
    split; [rewrite Hr', <- app_assoc; reflexivity|].
    split; [rewrite Hf', Hf; apply without_cons|].
    split.
    { rewrite Hb', Hb.
      rewrite (update_first_ext (bucket_of x) (bucket_of b) _
                 (IBucketEntry.inc (- IFileEntry.size f)))
        by (auto || reflexivity).
      rewrite update_first_twice by (intros y Hy; exact Hy).
      apply update_first_ext; [reflexivity|].
      intros y _. rewrite bucket_inc_inc. simpl total_size.
      f_equal. lia. }
    split.
    { rewrite Hs', Hs. simpl IBucketEntry.user.
      rewrite update_first_twice by (intros y Hy; exact Hy).
      apply update_first_ext; [reflexivity|].
      intros y _. rewrite stats_inc_inc. simpl total_size.
      f_equal; simpl List.length; lia. }
    rewrite Ht', Ht. simpl List.length. lia.
Qed.
End DeleteAll.

Lemma id_eqb_refl (i : option nat) : id_eqb i i = true.
Proof. destruct i; simpl; [apply Nat.eqb_refl|reflexivity]. Qed.

(** X25.  Deleting a bucket when every call succeeds.  For a bucket entry
    as stored, whose files all carry its identifier as [bucketId],
    [deleteBucket] resolves with the entry; no file entry of the bucket is
    left, and the file entries removed are exactly those sharing an [_id]
    with one of them; the bucket entry is gone; and the owner's stats show
    [memoryUsed] down by the total size of the bucket's files and
    [apiCallsUsed] up by their number plus one. *)
Theorem deleteBucket_removes_everything (env : Env) (b : IBucketEntry.t)
    (w : World) :
  (forall n, (tick w <= n)%nat -> fault env n = None) ->
  blank_name (IBucketEntry.identifier b) = false ->
  List.find (bucket_of b) (buckets w) = Some b ->
  (forall f, In f (files w) ->
     IFileEntry.bucketName f = IBucketEntry.identifier b ->
     IFileEntry.bucketId f = IBucketEntry.identifier b) ->
  let matched :=
    List.filter (in_bucket (IBucketEntry.identifier b)) (files w) in
  let run := deleteBucket env b w in
  fst run = Resolved b
  /\ files (snd run) = without matched (files w)
  /\ (forall f, In f (files (snd run)) ->
        in_bucket (IBucketEntry.identifier b) f = false)
  /\ buckets (snd run)
     = remove_all (fun y => id_eqb (IBucketEntry._id b) (IBucketEntry._id y))
         (update_first (bucket_of b)
                       (IBucketEntry.inc (- total_size matched)) (buckets w))
  /\ (forall y, In y (buckets (snd run)) ->
        IBucketEntry._id y <> IBucketEntry._id b)
  /\ stats (snd run)
     = update_first (stats_of (IBucketEntry.user b))
         (IStorageStats.inc (- total_size matched)
                            (Z.of_nat (List.length matched) + 1))
         (stats w)
  /\ tick (snd run) = (tick w + 5 * List.length matched + 5)%nat.
Proof.
  intros Hok Hname Hb Hfiles matched run. subst run.
  set (id := IBucketEntry.identifier b) in *.
  set (q := FileQuery.mk
              (Some [FileQuery.mkp None None (Some id) None None;
                     FileQuery.mkp None None None (Some id) None])
              FileQuery.any).
  set (w2 := log cursor_toArray_call (log (files_find_call q) w)).
  assert (Hq : List.filter (FileQuery.matches q) (files w) = matched).
  { apply List.filter_ext. intros f.
    unfold FileQuery.matches, FileQuery.matchp, in_bucket. simpl.
    rewrite !andb_true_r, orb_false_r. reflexivity. }
  assert (Hphase : removeFilesByBucket env id w
                   = settle_each (deleteFile env) IFileEntry.identifier
                                 matched [] w2).
  { unfold removeFilesByBucket. fold (blank_name id). rewrite Hname.
    fold q. rewrite removeFiles_unfold. cbv zeta.
    rewrite (Hok (tick w)), (Hok (S (tick w))) by lia. rewrite Hq.
    destruct matched; reflexivity. }
  destruct (settle_each_all_succeed env b matched [] w2 b)
    as (Hr & Hf & Hbk & Hs & Ht).
  { intros n Hn. apply Hok. unfold w2 in Hn. autorewrite with tick in Hn.
    lia. }
  { intros f Hin. apply filter_In in Hin as [Hin Hm].
    unfold in_bucket in Hm. apply orb_true_iff in Hm as [Hm|Hm];
      apply String.eqb_eq in Hm; [symmetry; exact Hm|].
    apply Hfiles; [exact Hin|symmetry; exact Hm]. }
  { exact Hb. }
  cbv zeta in Hr, Hf, Hbk, Hs, Ht.
  rewrite deleteBucket_unfold. cbv zeta. fold id. rewrite Hphase.
  set (phase := settle_each (deleteFile env) IFileEntry.identifier matched
                            [] w2) in *.
  destruct phase as [r w1]. cbn [fst snd] in *. subst r.
  assert (Htick : tick w1 = (tick w + 2 + 5 * List.length matched)%nat).
  { rewrite Ht. unfold w2. autorewrite with tick. lia. }
  rewrite (Hok (tick w1)), (Hok (S (tick w1))), (Hok (S (S (tick w1))))
    by lia.
  cbn [fst snd].
  assert (Hfinal : files w1 = without matched (files w)) by exact Hf.
  split; [reflexivity|]. split; [exact Hfinal|]. split.
  { intros f Hin. simpl in Hin. rewrite Hfinal in Hin.
    unfold without in Hin. apply filter_In in Hin as [Hin Hgone].
    destruct (in_bucket id f) eqn:Hm; [|reflexivity].
    exfalso. apply negb_true_iff in Hgone.
    assert (Hex : existsb (fun m => id_eqb (IFileEntry._id m)
                                           (IFileEntry._id f)) matched = true).
    { apply existsb_exists. exists f. split; [|apply id_eqb_refl].
      apply filter_In. split; assumption. }
    congruence. }
  split.
  { simpl. rewrite Hbk. reflexivity. }
  split.
  { intros y Hin. simpl in Hin. unfold remove_all in Hin.
    apply filter_In in Hin as [_ Hy]. apply negb_true_iff in Hy.
    intros Heq. rewrite Heq, id_eqb_refl in Hy. discriminate Hy. }
  split.
  { simpl. rewrite Hs.
    rewrite update_first_twice by (intros y Hy; exact Hy).
    apply update_first_ext; [reflexivity|].
    intros y _. rewrite stats_inc_inc. f_equal; lia. }
  autorewrite with tick. rewrite Htick. lia.
Qed.

Lemma deleteBucket_removes_everything_witness :
  fst (deleteBucket Sample.calm Sample.photos Sample.world)
  = Resolved Sample.photos
  /\ files (snd (deleteBucket Sample.calm Sample.photos Sample.world)) = []
  /\ stats (snd (deleteBucket Sample.calm Sample.photos Sample.world))
     = [IStorageStats.mk "ann" 0 1000 8 20].
Proof.
  destruct (deleteBucket_removes_everything Sample.calm Sample.photos
              Sample.world (fun _ _ => eq_refl) eq_refl eq_refl)
    as (Hr & Hf & _ & _ & _ & Hs & _).
  { intros f [<-|[<-|[]]] H; discriminate H. }
  split; [exact Hr|]. split; [rewrite Hf; reflexivity|].
  rewrite Hs. reflexivity.
Defined.

Section WordMatch.
Lemma search_word_spec (word : string) (s : string) :
  word <> "" ->
  forall prev,
    search_word word prev s = true
    <-> exists pre post,
          s = pre +:+ word +:+ post
          /\ clear_before prev pre = true
          /\ at_word_end post = true.
Proof.
  intros Hword. induction s as [|c s IH]; intros prev.
  - simpl. split; [discriminate|].
    intros (pre & post & Hs & _). exfalso.
    destruct pre; [|discriminate]. simpl in Hs.
    destruct word; [congruence|discriminate].
  - cbn [search_word]. rewrite orb_true_iff, andb_true_iff. split.
    + intros [[Hprev Hhere]|Hlater].
      * destruct (strip_prefix word (String c s)) as [rest|] eqn:Hstrip;
          [|discriminate].
        exists "", rest. split; [exact (strip_prefix_some _ _ _ Hstrip)|].
        split; [exact Hprev|exact Hhere].
      * apply IH in Hlater as (pre & post & Hs & Hpre & Hpost).
        exists (String c pre), post. split; [rewrite Hs; reflexivity|].
        split; [|exact Hpost].
        unfold clear_before in *. simpl.
        destruct (last_char pre); exact Hpre.
    + intros (pre & post & Hs & Hpre & Hpost).
      destruct pre as [|c' pre].
      * left. split; [exact Hpre|]. rewrite Hs.
        change ("" +:+ word +:+ post) with (word +:+ post).
        rewrite strip_prefix_app. exact Hpost.
      * right. simpl in Hs. injection Hs as -> Hs. apply IH.
        exists pre, post. split; [exact Hs|]. split; [|exact Hpost].
        unfold clear_before in *. simpl in Hpre.
        destruct (last_char pre); exact Hpre.
Qed.

Lemma match_word_whole_word (word s : string) :
  word <> "" -> match_word word s = true <-> whole_word word s.
Proof.
  intros Hword. unfold match_word, whole_word.
  rewrite (search_word_spec word s Hword false).
  split; intros (pre & post & Hs & Hpre & Hpost); exists pre, post;
    (split; [exact Hs|]); (split; [|exact Hpost]);
    unfold clear_before in *; destruct (last_char pre) as [c|];
    simpl in *; try reflexivity; try exact I.
  - apply negb_true_iff. exact Hpre.
  - apply negb_true_iff. exact Hpre.
Qed.
End WordMatch.

(** X26.  The encoding a download settles on is decided by whole words of
    the [accept-encoding] header: the gzip rows apply exactly when the
    header holds [gzip] with no letter, digit or underscore right before
    or right after it, the deflate rows exactly when it holds no such
    [gzip] but such a [deflate], and the remaining rows otherwise.  A
    request without the header is answered as one accepting neither. *)
Theorem client_accepts_whole_words (request : Request.t) :
  (client_accepts request = accepts_gzip
   <-> whole_word "gzip" (accept_encoding request))
  /\ (client_accepts request = accepts_deflate
      <-> ~ whole_word "gzip" (accept_encoding request)
          /\ whole_word "deflate" (accept_encoding request))
  /\ (client_accepts request = accepts_neither
      <-> ~ whole_word "gzip" (accept_encoding request)
          /\ ~ whole_word "deflate" (accept_encoding request))
  /\ (Request.headers request !! "accept-encoding" = None ->
      client_accepts request = accepts_neither).
Proof.
  unfold client_accepts, accept_encoding.
  set (h := default "" (Request.headers request !! "accept-encoding")).
  assert (Hg := match_word_whole_word "gzip" h ltac:(discriminate)).
  assert (Hd := match_word_whole_word "deflate" h ltac:(discriminate)).
  split; [|split; [|split]].
  - destruct (match_word "gzip" h); [tauto|].
    destruct (match_word "deflate" h); split; try discriminate;
      intros H; apply Hg in H; discriminate H.
  - destruct (match_word "gzip" h).
    + split; [discriminate|]. intros [H _]. exfalso. apply H. tauto.
    + destruct (match_word "deflate" h).
      * split; [|reflexivity]. intros _. split; [|tauto].
        intros H. apply Hg in H. discriminate H.
      * split; [discriminate|]. intros [_ H]. apply Hd in H. discriminate H.
  - destruct (match_word "gzip" h).
    + split; [discriminate|]. intros [H _]. exfalso. apply H. tauto.
    + destruct (match_word "deflate" h).
      * split; [discriminate|]. intros [_ H]. exfalso. apply H. tauto.
      * split; [|reflexivity]. intros _.
        split; intros H; [apply Hg in H|apply Hd in H]; discriminate H.
  - intros Hnone. subst h. rewrite Hnone. reflexivity.
Qed.

(** X27.  Two edges of [renameFile].  When the [apiCallsUsed] increment
    fails, nobody handles the rejection: the promise is never settled,
    the name update is not asked for and nothing stored has changed.  When
    the increment and the update succeed but no entry carries the file's
    [_id], the promise resolves all the same, with the entry it was given,
    and the files are unchanged: renaming a file that is not there is not
    an error. *)
Theorem renameFile_edges (env : Env) (file : IFileEntry.t) (name : string)
    (w : World) :
  let run := renameFile env file name w in
  let owner := IFileEntry.user file in
  match fault env (tick w) with
  | Some msg =>
      fst run = Pending (JsError msg)
      /\ persisted (snd run) = persisted w
      /\ trace (snd run) = (trace w ++ [stats_update_call owner 0 1])%list
  | None =>
      match fault env (S (tick w)),
            List.find (fun f => id_eqb (IFileEntry._id file)
                                       (IFileEntry._id f)) (files w) with
      | None, None => fst run = Resolved file /\ files (snd run) = files w
      | None, Some f =>
          fst run = Resolved file
          /\ List.find (fun f => id_eqb (IFileEntry._id file)
                                        (IFileEntry._id f)) (files (snd run))
             = Some (IFileEntry.set_name name f)
      | Some msg, _ =>
          fst run = Rejected (JsError msg) /\ files (snd run) = files w
      end
  end.
Proof.
  cbv zeta. rewrite renameFile_unfold. cbv zeta.
  destruct (fault env (tick w)); [repeat split|].
  destruct (fault env (S (tick w))); [repeat split|].
  destruct (List.find _ (files w)) as [f|] eqn:Hf; cbn [fst snd];
    (split; [reflexivity|]); simpl.
  - rewrite find_update_first by (intros x Hx; exact Hx).
    rewrite Hf. reflexivity.
  - apply update_first_none. exact Hf.
Qed.

(** X28.  The quota check is monotone in the declared size: in a world
    where [canUpload] resolves for a part, it resolves, with the same
    record, for every part that declares no more bytes. *)
Theorem canUpload_monotone (env : Env) (user : string)
    (part smaller : Part.t) (w : World) (s : IStorageStats.t) :
  (Part.byteCount smaller <= Part.byteCount part)%Z ->
  fst (canUpload env user part w) = Resolved s ->
  fst (canUpload env user smaller w) = Resolved s.
Proof.
  intros Hle. rewrite !canUpload_unfold.
  destruct (fault env (tick w)); [discriminate|].
  destruct (List.find _ _) as [s0|]; [|discriminate]. cbn [fst].
  case Z.ltb_spec; intros Hm; [|discriminate].
  case Z.ltb_spec; intros Ha; [|discriminate].
  intros H. injection H as <-.
  case Z.ltb_spec; intros Hm'; [reflexivity|lia].
Qed.

Lemma canUpload_monotone_witness :
  fst (canUpload Sample.calm "ann"
         (Part.mk "tiny.bin" ∅ 1 []) Sample.world)
  = Resolved Sample.ann.
Proof.
  apply (canUpload_monotone Sample.calm "ann" Sample.notes
           (Part.mk "tiny.bin" ∅ 1 []) Sample.world Sample.ann);
    [simpl; lia|reflexivity].
Defined.


